(** * S3 downloader: URI validation, region-aware retrieval, file materialization

    A shallow embedding of [src/utils/s3.ts], [src/utils/download.ts] and
    [src/utils/vscode/settings.ts].  TypeScript [async] functions are
    sequential (every promise is awaited at once), so they are embedded in a
    state-and-exception monad over an explicit [World]; the remote store, the
    process environment, the editor settings and the user's answers are
    read-only inputs collected in a [Host]. *)

From Stdlib Require Import ZArith Ascii String.
From stdpp Require Import gmap strings list pretty.

Local Open Scope string_scope.

(** ** JavaScript string primitives used by the sources *)

Module Js.

(** Texts are sequences of bytes, the UTF-8 form of the JavaScript string.

    [String.prototype.trim] strips the characters of [WhiteSpace] and
    [LineTerminator]: TAB, LF, VT, FF, CR and SPACE, which are one byte each;
    U+00A0, two bytes; and U+1680, U+2000 to U+200A, U+2028, U+2029, U+202F,
    U+205F, U+3000 and U+FEFF, three bytes each. *)

(** White space of one byte. *)
Definition isWhiteSpace (c : ascii) : bool :=
  let n := nat_of_ascii c in
  ((9 <=? n)%nat && (n <=? 13)%nat) || (n =? 32)%nat.

(** U+00A0, the bytes C2 A0. *)
Definition isWhiteSpace2 (c d : ascii) : bool :=
  (nat_of_ascii c =? 194)%nat && (nat_of_ascii d =? 160)%nat.

(** U+1680 (E1 9A 80); U+2000 to U+200A, U+2028, U+2029 and U+202F
    (E2 80 80 to 8A, A8, A9, AF); U+205F (E2 81 9F); U+3000 (E3 80 80);
    U+FEFF (EF BB BF). *)
Definition isWhiteSpace3 (c d e : ascii) : bool :=
  let c := nat_of_ascii c in
  let d := nat_of_ascii d in
  let e := nat_of_ascii e in
  ((c =? 225) && (d =? 154) && (e =? 128)
   || (c =? 226) && (d =? 128)
      && ((128 <=? e) && (e <=? 138) || (e =? 168) || (e =? 169) || (e =? 175))
   || (c =? 226) && (d =? 129) && (e =? 159)
   || (c =? 227) && (d =? 128) && (e =? 128)
   || (c =? 239) && (d =? 187) && (e =? 191))%nat.

(** The text after one leading white-space character, if there is one. *)
Definition skipWhiteSpace (s : string) : option string :=
  match s with
  | String c s1 =>
      if isWhiteSpace c then Some s1
      else match s1 with
           | String d s2 =>
               if isWhiteSpace2 c d then Some s2
               else match s2 with
                    | String e s3 => if isWhiteSpace3 c d e then Some s3 else None
                    | EmptyString => None
                    end
           | EmptyString => None
           end
  | EmptyString => None
  end.

Fixpoint trimStart (s : string) : string :=
  match s with
  | String c s1 =>
      if isWhiteSpace c then trimStart s1
      else match s1 with
           | String d s2 =>
               if isWhiteSpace2 c d then trimStart s2
               else match s2 with
                    | String e s3 => if isWhiteSpace3 c d e then trimStart s3 else s
                    | EmptyString => s
                    end
           | EmptyString => s
           end
  | EmptyString => EmptyString
  end.

(** The text is made of white-space characters only. *)
Fixpoint blank (s : string) : bool :=
  match s with
  | String c s1 =>
      if isWhiteSpace c then blank s1
      else match s1 with
           | String d s2 =>
               if isWhiteSpace2 c d then blank s2
               else match s2 with
                    | String e s3 => if isWhiteSpace3 c d e then blank s3 else false
                    | EmptyString => false
                    end
           | EmptyString => false
           end
  | EmptyString => true
  end.

(** The text without its longest blank end. *)
Fixpoint trimEnd (s : string) : string :=
  match s with
  | EmptyString => EmptyString
  | String c s' => if blank s then EmptyString else String c (trimEnd s')
  end.

Definition trim (s : string) : string := trimEnd (trimStart s).

(** [s.endsWith(suffix)] *)
Fixpoint endsWith (s suffix : string) : bool :=
  String.eqb s suffix ||
  match s with
  | String _ s' => endsWith s' suffix
  | EmptyString => false
  end.

(** [s.startsWith(p)], returning what follows the prefix. *)
Fixpoint stripPrefix (p s : string) : option string :=
  match p, s with
  | EmptyString, _ => Some s
  | String a p', String b s' => if Ascii.eqb a b then stripPrefix p' s' else None
  | String _ _, EmptyString => None
  end.

(** [s.split(sep)] for a one-character separator. *)
Fixpoint split (sep : ascii) (s : string) : list string :=
  match s with
  | EmptyString => [EmptyString]
  | String c s' =>
      if Ascii.eqb c sep then EmptyString :: split sep s'
      else match split sep s' with
           | p :: ps => String c p :: ps
           | [] => [String c EmptyString]
           end
  end.

(** Truthiness of a string: only the empty string is falsy. *)
Definition truthy (s : string) : bool := negb (String.eqb s "").

(** Truthiness of [string | undefined] (and of [string | null]). *)
Definition truthy_opt (o : option string) : bool :=
  match o with Some s => truthy s | None => false end.

(** [o || d] on [string | undefined]. *)
Definition or_else (o : option string) (d : string) : string :=
  match o with
  | Some s => if truthy s then s else d
  | None => d
  end.

(** Interpolation [`${o}`] of a possibly undefined string. *)
Definition interp (o : option string) : string :=
  match o with Some s => s | None => "undefined" end.

End Js.

(** ** Thrown values and the exception monad *)

(** What the sources read from a caught value: whether it is an [Error]
    instance, [error?.name], [error?.message],
    [error?.$metadata?.httpStatusCode] and, for a value that is not an
    [Error], its string form [String(value)] (the text itself for a thrown
    string, [[object Object]] for a plain object). *)
Record JsError := mkJsError {
  instanceofError : bool;
  name : option string;
  message : option string;
  httpStatusCode : option Z;
  stringForm : string
}.

(** [new Error(msg)] *)
Definition newError (msg : string) : JsError :=
  {| instanceofError := true; name := Some "Error";
     message := Some msg; httpStatusCode := None;
     stringForm := "Error: " +:+ msg |}.

(** How a call ends: it returns or it throws. *)
Inductive result (A : Type) : Type :=
| Ok (a : A)
| Throw (error : JsError).
Arguments Ok {A} a.
Arguments Throw {A} error.

#[global] Instance result_ret : MRet result := @Ok.
#[global] Instance result_bind : MBind result := fun A B f m =>
  match m with
  | Ok a => f a
  | Throw e => Throw e
  end.

(** [try { body } catch (error) { handler }] *)
Definition try_catch {A} (body : result A) (handler : JsError -> result A) : result A :=
  match body with
  | Ok a => Ok a
  | Throw e => handler e
  end.

(** ** Data model of [s3.ts] *)

(** The [S3Object] of the [amazon-s3-url] package. *)
Module S3Object.
Record t := mk { bucket : string; key : string; region : option string }.
End S3Object.

Module ParsedS3Uri.
Record t := mk {
  bucket : string;
  key : string;
  region : option string;
  isValid : bool;
  errorMessage : option string
}.
End ParsedS3Uri.

(** ** [parseAndValidateS3Uri] *)

Section UriParser.

(** [parseS3Url] of the [amazon-s3-url] package: it returns an [S3Object]
    or throws.  The package is not part of the repository, so the function
    is a parameter of the development. *)
Variable parseS3Url : string -> result S3Object.t.

Definition parseAndValidateS3Uri (uri : string) : result ParsedS3Uri.t :=
  try_catch
    (let trimmedUri := Js.trim uri in
     if negb (Js.truthy trimmedUri) then
       Ok {| ParsedS3Uri.bucket := "";
             ParsedS3Uri.key := "";
             ParsedS3Uri.region := None;
             ParsedS3Uri.isValid := false;
             ParsedS3Uri.errorMessage := Some "S3 URI cannot be empty" |}
     else
       s3Object ← parseS3Url trimmedUri;
       if negb (Js.truthy (S3Object.key s3Object))
          || String.eqb (Js.trim (S3Object.key s3Object)) ""
       then
         Ok {| ParsedS3Uri.bucket := S3Object.bucket s3Object;
               ParsedS3Uri.key := "";
               ParsedS3Uri.region := S3Object.region s3Object;
               ParsedS3Uri.isValid := false;
               ParsedS3Uri.errorMessage :=
                 Some "S3 URI must include a file key (not just a bucket or directory)" |}
       else if Js.endsWith (S3Object.key s3Object) "/" then
         Ok {| ParsedS3Uri.bucket := S3Object.bucket s3Object;
               ParsedS3Uri.key := S3Object.key s3Object;
               ParsedS3Uri.region := S3Object.region s3Object;
               ParsedS3Uri.isValid := false;
               ParsedS3Uri.errorMessage :=
                 Some "S3 URI must point to a file, not a directory (URI ends with /)" |}
       else
         Ok {| ParsedS3Uri.bucket := S3Object.bucket s3Object;
               ParsedS3Uri.key := S3Object.key s3Object;
               ParsedS3Uri.region := S3Object.region s3Object;
               ParsedS3Uri.isValid := true;
               ParsedS3Uri.errorMessage := None |})
    (fun error =>
       let errorMessage :=
         if instanceofError error then Js.interp (message error)
         else "Invalid S3 URI format" in
       Ok {| ParsedS3Uri.bucket := "";
             ParsedS3Uri.key := "";
             ParsedS3Uri.region := None;
             ParsedS3Uri.isValid := false;
             ParsedS3Uri.errorMessage :=
               Some ("Failed to parse S3 URI: " +:+ errorMessage) |}).

End UriParser.

(** An instance of the parameter for the examples; the general theorems
    hold for every [parseS3Url]. *)
Module GlobalPath.

Fixpoint splitSlash (s : string) : option (string * string) :=
  match s with
  | EmptyString => None
  | String c s' =>
      if Ascii.eqb c "/" then Some (EmptyString, s')
      else match splitSlash s' with
           | Some (b, k) => Some (String c b, k)
           | None => None
           end
  end.

(** A parser for the examples.  It reads the scheme-prefixed form
    [s3://bucket/key] and nothing else: the bucket runs up to the first [/]
    and is not empty, the key is the rest, no region is reported, and every
    other text throws an error worded here.  It is one value of the
    parameter, not [parseS3Url] of the [amazon-s3-url] package, which is
    outside the repository, also reads virtual-hosted-style and path-style
    URLs and reports the region they name.  No theorem is stated about it. *)
Definition parseS3Url (s3Url : string) : result S3Object.t :=
  match Js.stripPrefix "s3://" s3Url with
  | Some rest =>
      match splitSlash rest with
      | Some (String c b, k) =>
          Ok {| S3Object.bucket := String c b;
                S3Object.key := k;
                S3Object.region := None |}
      | _ => Throw (newError ("Invalid S3 URL: " +:+ s3Url))
      end
  | None => Throw (newError ("Invalid S3 URL: " +:+ s3Url))
  end.

End GlobalPath.

(** ** The endpoint pattern [/s3[.-]([a-z0-9-]+)\.amazonaws\.com/] *)

Module EndpointRegex.

(** [[.-]] *)
Definition isSeparator (c : ascii) : bool :=
  Ascii.eqb c "." || Ascii.eqb c "-".

(** [[a-z0-9-]] *)
Definition isRegionChar (c : ascii) : bool :=
  let n := nat_of_ascii c in
  ((97 <=? n)%nat && (n <=? 122)%nat)
  || ((48 <=? n)%nat && (n <=? 57)%nat)
  || Ascii.eqb c "-".

(** [([a-z0-9-]+)\.amazonaws\.com] at the head of [s]: the group is
    greedy, so the longer run is tried first and a shorter one only when
    the rest of the pattern fails after it. *)
Fixpoint matchGroup (s : string) : option string :=
  match s with
  | EmptyString => None
  | String c s' =>
      if isRegionChar c then
        match matchGroup s' with
        | Some g => Some (String c g)
        | None =>
            match Js.stripPrefix ".amazonaws.com" s' with
            | Some _ => Some (String c EmptyString)
            | None => None
            end
        end
      else None
  end.

(** The whole pattern anchored at the head of [s]; the result is group 1. *)
Definition matchHere (s : string) : option string :=
  match Js.stripPrefix "s3" s with
  | Some (String c rest) => if isSeparator c then matchGroup rest else None
  | _ => None
  end.

(** [s.match(re)] for a pattern without the [g] flag: the leftmost match;
    the result is [endpointMatch[1]], [None] when [match] returns [null]. *)
Fixpoint exec (s : string) : option string :=
  match matchHere s with
  | Some g => Some g
  | None =>
      match s with
      | String _ s' => exec s'
      | EmptyString => None
      end
  end.

End EndpointRegex.

(** [error?.name === 'PermanentRedirect' ||
     error?.$metadata?.httpStatusCode === 301] *)
Definition isPermanentRedirect (error : JsError) : bool :=
  bool_decide (name error = Some "PermanentRedirect")
  || bool_decide (httpStatusCode error = Some 301%Z).

(** [error?.message?.match(/s3[.-]([a-z0-9-]+)\.amazonaws\.com/)], reduced
    to its first group. *)
Definition endpointMatch (error : JsError) : option string :=
  match message error with
  | Some m => EndpointRegex.exec m
  | None => None
  end.

(** [`${error}`], that is [String(error)], for a thrown value: the string
    form of a value that is not an [Error], and [Error.prototype.toString]
    for an [Error]. *)
Definition errorToString (error : JsError) : string :=
  let n := match name error with Some s => s | None => "Error" end in
  let m := match message error with Some s => s | None => "" end in
  if negb (instanceofError error) then stringForm error
  else if String.eqb n "" then m
  else if String.eqb m "" then n
  else n +:+ ": " +:+ m.

(** ** The world the asynchronous functions run in *)

(** [LogLevel] of [logger.ts]. *)
Inductive LogLevel := INFO | WARNING | ERROR | DEBUG.

(** The [Logger] class wraps one output channel. *)
Record Logger := mkLogger { outputChannel : string }.

(** The two commands the sources send to the store. *)
Inductive Command :=
| GetBucketLocationCommand (Bucket : string)
| GetObjectCommand (Bucket Key : string).

(** One [client.send(command)], with the region the client is bound to. *)
Record Call := mkCall { clientRegion : string; command : Command }.

(** A [Readable]: the bytes it yields and the error, if any, it ends with;
    for a stream that ends with an error, [delivered] is the number of its
    bytes that had been written when the pipeline it feeds was torn down. *)
Record Readable := mkReadable {
  chunks : string;
  failure : option JsError;
  delivered : nat
}.

Record GetBucketLocationOutput := mkLocation { LocationConstraint : option string }.

Record GetObjectOutput := mkObject {
  Body : option Readable;
  ContentLength : option N;
  ContentType : option string;
  Metadata : option (list (string * string))
}.

Module S3Config.
Record t := mk { region : option string; bucket : string; key : string }.
End S3Config.

Module S3DownloadResult.
Record t := mk {
  stream : Readable;
  contentLength : option N;
  contentType : option string;
  metadata : option (list (string * string))
}.
End S3DownloadResult.

(** An entry of the local file system. *)
Inductive Entry := Directory | File (content : string).

Record World := mkWorld {
  files : gmap string Entry;          (* the paths that exist *)
  log : list (LogLevel * string);     (* lines written to the output channel *)
  calls : list Call                   (* requests sent to the store, oldest first *)
}.

(** [S3DownloaderSettings]; [downloadLocation] is kept as the raw string, the
    [switch] in [getConfiguredDownloadFolder] has a [default] arm. *)
Record S3DownloaderSettings := mkSettings {
  downloadLocation : string;
  customDownloadPath : string;
  alwaysPromptForLocation : bool
}.

(** Read-only inputs.  The store answers each request as a function of the
    requests sent before it, so a retry may be answered differently. *)
Record Host := mkHost {
  platform : string;                              (* os.platform() *)
  homedir : string;                               (* os.homedir() *)
  tmpdir : string;                                (* os.tmpdir() *)
  env : string -> option string;                  (* process.env *)
  configuration : S3DownloaderSettings;           (* getConfiguration('s3Downloader') *)
  workspaceFolders : option (list string);        (* uri.fsPath of each folder *)
  showOpenDialog : string -> string -> option (list string);
                                                  (* defaultUri, title -> chosen fsPaths *)
  getBucketLocation : list Call -> string -> string -> result GetBucketLocationOutput;
  getObject : list Call -> string -> string -> string -> result GetObjectOutput;
  mkdirFault : string -> option JsError;          (* the OS refuses to create the folder *)
  openFault : string -> option JsError            (* the OS refuses to open the file *)
}.

(** The functions of [node:path] the sources call. *)
Class PathApi := {
  path_join : string -> string -> string;
  path_extname : string -> string;
  path_basename : string -> string -> string;
  path_isAbsolute : string -> bool;
  path_dirname : string -> string
}.

(** State and exceptions: an [async] function awaited step by step.  A run
    yields how the call ended and the world it left, or [None] when the
    fuel given to a [while] loop is used up before the call ends. *)
Definition M (A : Type) : Type := World -> option (result A * World).

#[global] Instance M_ret : MRet M := fun A a w => Some (Ok a, w).
#[global] Instance M_bind : MBind M := fun A B f m w =>
  match m w with
  | Some (Ok a, w') => f a w'
  | Some (Throw e, w') => Some (Throw e, w')
  | None => None
  end.

Definition throw {A} (error : JsError) : M A := fun w => Some (Throw error, w).

(** [try { body } catch (error) { handler }] around awaited code. *)
Definition try_catchM {A} (body : M A) (handler : JsError -> M A) : M A :=
  fun w =>
    match body w with
    | Some (Throw e, w') => handler e w'
    | r => r
    end.

Definition when (b : bool) (m : M unit) : M unit :=
  if b then m else mret tt.

(** [logger?.level(msg)]: nothing happens without a logger. *)
Definition logAt (level : LogLevel) (logger : option Logger) (msg : string) : M unit :=
  fun w =>
    match logger with
    | Some _ =>
        Some (Ok tt, {| files := files w; log := log w ++ [(level, msg)]; calls := calls w |})
    | None => Some (Ok tt, w)
    end.

Definition log_info := logAt INFO.
Definition log_warn := logAt WARNING.
Definition log_error := logAt ERROR.
Definition log_debug := logAt DEBUG.

(** ** [detectBucketRegion] and [getS3Object] *)

Section ObjectRetriever.

Variable host : Host.

(** [new S3Client({ region }).send(new GetBucketLocationCommand(...))] *)
Definition sendGetBucketLocation (region Bucket : string) : M GetBucketLocationOutput :=
  fun w =>
    Some (getBucketLocation host (calls w) region Bucket,
          {| files := files w; log := log w;
             calls := calls w ++ [mkCall region (GetBucketLocationCommand Bucket)] |}).

(** [new S3Client({ region }).send(new GetObjectCommand(...))] *)
Definition sendGetObject (region Bucket Key : string) : M GetObjectOutput :=
  fun w =>
    Some (getObject host (calls w) region Bucket Key,
          {| files := files w; log := log w;
             calls := calls w ++ [mkCall region (GetObjectCommand Bucket Key)] |}).

Definition detectBucketRegion (bucketName : string) (logger : option Logger) : M string :=
  (* GetBucketLocation must be called from us-east-1 for all buckets *)
  let client := "us-east-1" in
  log_debug logger ("Detecting region for bucket: " +:+ bucketName);;
  try_catchM
    (response ← sendGetBucketLocation client bucketName;
     let region := Js.or_else (LocationConstraint response) "us-east-1" in
     if String.eqb region "EU" then
       log_debug logger "Found legacy EU region, mapping to eu-west-1";;
       mret "eu-west-1"
     else
       log_info logger ("Detected bucket region: " +:+ region);;
       mret region)
    (fun error =>
       let undetermined : M string :=
         throw (newError ("Could not determine bucket region: "
                          +:+ Js.or_else (message error) "Unknown error")) in
       log_error logger ("Error detecting bucket region: " +:+ Js.interp (message error));;
       if isPermanentRedirect error then
         match endpointMatch error with
         | Some group1 =>
             if negb (String.eqb group1 "s3") then
               log_info logger ("Extracted region from error message: " +:+ group1);;
               mret group1
             else undetermined
         | None => undetermined
         end
       else undetermined).

(** The record both [return] statements of [getS3Object] build. *)
Definition downloadResult (Body : Readable) (response : GetObjectOutput) : S3DownloadResult.t :=
  {| S3DownloadResult.stream := Body;
     S3DownloadResult.contentLength := ContentLength response;
     S3DownloadResult.contentType := ContentType response;
     S3DownloadResult.metadata := Metadata response |}.

(** Lines 97-112: the region the first client is bound to. *)
Definition resolveRegion (config : S3Config.t) (logger : option Logger) : M string :=
  let region := S3Config.region config in
  (* Auto-detect region if not provided *)
  if negb (Js.truthy_opt region) then
    log_info logger "Region not specified, attempting auto-detection...";;
    try_catchM (detectBucketRegion (S3Config.bucket config) logger)
      (fun error =>
         (* Fall back to default region or environment variable *)
         let region := Js.or_else (env host "AWS_REGION") "us-east-1" in
         log_warn logger ("Could not detect region, using default: " +:+ region);;
         log_debug logger ("Region detection error: " +:+ errorToString error);;
         mret region)
  else
    log_info logger ("Using specified region: " +:+ Js.interp region);;
    mret (Js.interp region).

(** Lines 114-184: the fetch with [region], and the retry after a
    redirect. *)
Definition fetchObject (region : string) (config : S3Config.t)
    (logger : option Logger) : M S3DownloadResult.t :=
  log_debug logger ("Creating S3 client with region: " +:+ region);;
  let s3Client := region in
  let Bucket := S3Config.bucket config in
  let Key := S3Config.key config in
  log_info logger ("Downloading object from S3: s3://" +:+ Bucket +:+ "/" +:+ Key);;
  try_catchM
    (response ← sendGetObject s3Client Bucket Key;
     log_info logger "Successfully received response from S3";;
     match Body response with
     | None => throw (newError "No file content received from S3")
     | Some body =>
         when (match ContentLength response with Some n => negb (n =? 0)%N | None => false end)
           (log_debug logger
              ("File size: " +:+ pretty (default 0%N (ContentLength response)) +:+ " bytes"));;
         when (Js.truthy_opt (ContentType response))
           (log_debug logger ("Content type: " +:+ Js.interp (ContentType response)));;
         mret (downloadResult body response)
     end)
    (fun error =>
       (* Handle redirect errors by retrying with correct region *)
       if isPermanentRedirect error then
         match endpointMatch error with
         | Some group1 =>
             if negb (String.eqb group1 "s3") then
               let correctRegion := group1 in
               log_warn logger
                 ("Received redirect to region: " +:+ correctRegion +:+ ", retrying...");;
               (* Retry with correct region *)
               let correctClient := correctRegion in
               response ← sendGetObject correctClient Bucket Key;
               log_info logger "Successfully downloaded after redirect";;
               match Body response with
               | None => throw (newError "No file content received from S3")
               | Some body => mret (downloadResult body response)
               end
             else throw error
         | None => throw error
         end
       else throw error).

Definition getS3Object (config : S3Config.t) (logger : option Logger) : M S3DownloadResult.t :=
  region ← resolveRegion config logger;
  fetchObject region config logger.

End ObjectRetriever.

(** ** [settings.ts]: where downloads go *)

Section LocationPolicy.

Context {node_path : PathApi}.
Variable host : Host.

(** [getSettings] reads the three settings. *)
Definition getSettings : S3DownloaderSettings := configuration host.

Definition getSystemDownloadsFolder : string :=
  let homeDir := homedir host in
  if String.eqb (platform host) "win32" then
    match env host "USERPROFILE" with
    | Some userProfile =>
        if Js.truthy userProfile then path_join userProfile "Downloads"
        else path_join homeDir "Downloads"
    | None => path_join homeDir "Downloads"
    end
  else if String.eqb (platform host) "darwin" then
    path_join homeDir "Downloads"
  else if String.eqb (platform host) "linux" then
    Js.or_else (env host "XDG_DOWNLOAD_DIR") (path_join homeDir "Downloads")
  else
    path_join homeDir "Downloads".

Definition getSystemTempFolder (logger : option Logger) : M string :=
  let tempDir := tmpdir host in
  let s3TempPath := path_join tempDir "s3Downloader" in
  log_debug logger ("Using temp folder: " +:+ s3TempPath);;
  mret s3TempPath.

Definition getWorkspaceDownloadFolder (logger : option Logger) : M (option string) :=
  match workspaceFolders host with
  | None | Some [] =>
      log_warn logger "No workspace folder available, falling back to Downloads folder";;
      mret (Some getSystemDownloadsFolder)
  | Some (workspaceRoot :: _) =>
      log_debug logger ("Using workspace root: " +:+ workspaceRoot);;
      mret (Some workspaceRoot)
  end.

(** [fs.existsSync] *)
Definition existsSync (p : string) : M bool :=
  fun w => Some (Ok (bool_decide (is_Some (files w !! p))), w).

Definition getCustomDownloadFolder (customPath : string) (logger : option Logger) : M string :=
  if negb (Js.truthy customPath) || String.eqb (Js.trim customPath) "" then
    log_warn logger "Custom download path is empty, falling back to Downloads folder";;
    mret getSystemDownloadsFolder
  else if negb (path_isAbsolute customPath) then
    (* Expect an absolute path *)
    log_error logger ("Custom download path must be absolute: " +:+ customPath);;
    log_warn logger "Falling back to Downloads folder";;
    mret getSystemDownloadsFolder
  else
    log_debug logger ("Using custom download path: " +:+ customPath);;
    (* Check if the parent directory exists *)
    let parentDir := path_dirname customPath in
    parentExists ← existsSync parentDir;
    if negb parentExists then
      log_error logger ("Parent directory does not exist: " +:+ parentDir);;
      log_warn logger "Falling back to Downloads folder";;
      mret getSystemDownloadsFolder
    else
      mret customPath.

(** The result is [string | null]; [None] asks the caller to prompt. *)
Definition getConfiguredDownloadFolder (logger : option Logger) : M (option string) :=
  let settings := getSettings in
  if alwaysPromptForLocation settings then
    log_debug logger "Always prompt for location is enabled";;
    mret None
  else if String.eqb (downloadLocation settings) "downloads" then
    mret (Some getSystemDownloadsFolder)
  else if String.eqb (downloadLocation settings) "workspace" then
    getWorkspaceDownloadFolder logger
  else if String.eqb (downloadLocation settings) "temp" then
    folder ← getSystemTempFolder logger; mret (Some folder)
  else if String.eqb (downloadLocation settings) "custom" then
    folder ← getCustomDownloadFolder (customDownloadPath settings) logger;
    mret (Some folder)
  else
    log_warn logger ("Unknown download location setting: " +:+ downloadLocation settings);;
    mret (Some getSystemDownloadsFolder).

Definition promptForDownloadLocation (defaultFolder filename : string) : M (option string) :=
  let title := "Select download location for " +:+ filename in
  let folderUri := showOpenDialog host defaultFolder title in
  match folderUri with
  | Some (fsPath :: _) => mret (Some fsPath)
  | Some [] | None => mret None
  end.

End LocationPolicy.

(** ** [download.ts]: writing the stream to a file *)

Module DownloadConfig.
Record t := mk {
  stream : Readable;
  fileName : string;
  folder : option string;
  overwrite : option bool
}.
End DownloadConfig.

Module DownloadResult.
Record t := mk {
  fileName : string;
  filePath : string;
  size : option N;
  folder : string
}.
End DownloadResult.

Section FileMaterializer.

Context {node_path : PathApi}.
Variable host : Host.

(** The chain of parent directories of [p], nearest first. *)
Fixpoint ancestors (fuel : nat) (p : string) : list string :=
  match fuel with
  | 0 => []
  | S fuel' =>
      let d := path_dirname p in
      if String.eqb d p then [] else d :: ancestors fuel' d
  end.

(** The directories of [l] are created one after the other.  A directory
    that exists is passed over; the creation stops at a file that stands
    where a directory is needed, and at the first directory the operating
    system refuses to create; what was created until then stays. *)
Fixpoint mkdirs (p : string) (l : list string) (fs : gmap string Entry)
    : result unit * gmap string Entry :=
  match l with
  | [] => (Ok tt, fs)
  | d :: rest =>
      match fs !! d with
      | Some Directory => mkdirs p rest fs
      | Some (File _) =>
          (Throw (newError ("ENOTDIR: not a directory, mkdir '" +:+ p +:+ "'")), fs)
      | None =>
          match mkdirFault host d with
          | Some e => (Throw e, fs)
          | None => mkdirs p rest (<[d := Directory]> fs)
          end
      end
  end.

(** [fs.mkdirSync(p, { recursive: true })]: the missing ancestors of [p] and
    then [p] itself are created, outermost first. *)
Definition mkdirSync_recursive (p : string) : M unit :=
  fun w =>
    let result := mkdirs p (reverse (p :: ancestors (String.length p) p)) (files w) in
    Some (fst result, {| files := snd result; log := log w; calls := calls w |}).

Definition ensureDownloadFolderExists (folderPath : string) : M unit :=
  present ← existsSync folderPath;
  when (negb present) (mkdirSync_recursive folderPath).

(** The [while (fs.existsSync(uniquePath))] loop of [getUniqueFilePath];
    [fuel] bounds the number of tests of the condition. *)
Fixpoint uniqueLoop (fuel counter : nat) (folderPath nameWithoutExt ext uniquePath : string)
    : M string :=
  match fuel with
  | 0 => fun _ => None
  | S fuel' =>
      taken ← existsSync uniquePath;
      if (taken : bool) then
        uniqueLoop fuel' (S counter) folderPath nameWithoutExt ext
          (path_join folderPath (nameWithoutExt +:+ "_" +:+ pretty counter +:+ ext))
      else mret uniquePath
  end.

Definition getUniqueFilePath (fuel : nat) (folderPath filename : string) : M string :=
  let filePath := path_join folderPath filename in
  taken ← existsSync filePath;
  (* If file doesn't exist, return the original path *)
  if negb taken then mret filePath
  else
    (* Generate unique filename with counter *)
    let ext := path_extname filename in
    let nameWithoutExt := path_basename filename ext in
    uniqueLoop fuel 1 folderPath nameWithoutExt ext filePath.

(** [fs.createWriteStream(finalPath)] followed by
    [await pipeline(stream, writeStream)]: the file is opened (created or
    truncated), then receives the bytes of the stream.  An error of the
    stream rejects the pipeline after the file was opened; the write stream
    is destroyed, and the file keeps the bytes that had reached it, the
    first [delivered stream] of them. *)
Definition pipeline (stream : Readable) (finalPath : string) : M unit :=
  fun w =>
    match openFault host finalPath, files w !! finalPath with
    | Some e, _ => Some (Throw e, w)
    | None, Some Directory =>
        Some (Throw (newError ("EISDIR: illegal operation on a directory, open '"
                               +:+ finalPath +:+ "'")), w)
    | None, _ =>
        match failure stream with
        | Some e =>
            Some (Throw e,
                  {| files := <[finalPath :=
                                  File (substring 0 (delivered stream) (chunks stream))]>
                                (files w);
                     log := log w; calls := calls w |})
        | None =>
            Some (Ok tt,
                  {| files := <[finalPath := File (chunks stream)]> (files w);
                     log := log w; calls := calls w |})
        end
    end.

(** [fs.statSync(finalPath).size] *)
Definition statSync_size (p : string) : M N :=
  fun w =>
    match files w !! p with
    | Some (File content) => Some (Ok (N.of_nat (String.length content)), w)
    | Some Directory => Some (Ok 0%N, w)
    | None =>
        Some (Throw (newError ("ENOENT: no such file or directory, stat '" +:+ p +:+ "'")), w)
    end.

Definition downloadToFile (fuel : nat) (config : DownloadConfig.t)
    (logger : option Logger) : M DownloadResult.t :=
  (* Determine download folder - use provided folder or get from settings *)
  downloadFolder ←
    (if Js.truthy_opt (DownloadConfig.folder config) then
       (* Use explicitly provided folder *)
       mret (Js.interp (DownloadConfig.folder config))
     else
       (* Get folder from settings *)
       configuredFolder ← getConfiguredDownloadFolder host logger;
       if negb (Js.truthy_opt configuredFolder) then
         (* Settings indicate to prompt user *)
         let defaultFolder := getSystemDownloadsFolder host in
         selectedFolder ←
           promptForDownloadLocation host defaultFolder (DownloadConfig.fileName config);
         if negb (Js.truthy_opt selectedFolder) then
           throw (newError "Download cancelled - no folder selected")
         else
           let downloadFolder := Js.interp selectedFolder in
           log_info logger ("User selected download folder: " +:+ downloadFolder);;
           mret downloadFolder
       else
         let downloadFolder := Js.interp configuredFolder in
         log_debug logger ("Using configured download folder: " +:+ downloadFolder);;
         mret downloadFolder);
  ensureDownloadFolderExists downloadFolder;;
  (* Get the final file path *)
  finalPath ←
    (if bool_decide (DownloadConfig.overwrite config = Some true) then
       mret (path_join downloadFolder (DownloadConfig.fileName config))
     else getUniqueFilePath fuel downloadFolder (DownloadConfig.fileName config));
  log_info logger ("Saving file to: " +:+ finalPath);;
  (* Create write stream *)
  let writeStream := finalPath in
  (* Download the file *)
  log_debug logger "Writing file to disk...";;
  pipeline (DownloadConfig.stream config) writeStream;;
  (* Get file stats *)
  stats_size ← statSync_size finalPath;
  log_info logger ("File saved successfully (" +:+ pretty stats_size +:+ " bytes)");;
  mret {| DownloadResult.fileName := DownloadConfig.fileName config;
          DownloadResult.filePath := finalPath;
          DownloadResult.size := Some stats_size;
          DownloadResult.folder := downloadFolder |}.

Definition extractFilename (keyOrPath : string) : string :=
  let parts := Js.split "/" keyOrPath in
  let lastPart := List.last parts "" in
  if Js.truthy lastPart then lastPart else keyOrPath.

(** [downloadWithProgress] of [download-with-progress.ts], without the
    progress notifications. *)
Definition downloadWithProgress (fuel : nat) (parsedUri : ParsedS3Uri.t)
    (logger : option Logger) : M DownloadResult.t :=
  let filename := extractFilename (ParsedS3Uri.key parsedUri) in
  s3Result ← getS3Object host
    {| S3Config.bucket := ParsedS3Uri.bucket parsedUri;
       S3Config.key := ParsedS3Uri.key parsedUri;
       S3Config.region := ParsedS3Uri.region parsedUri |} logger;
  result ← downloadToFile fuel
    {| DownloadConfig.stream := S3DownloadResult.stream s3Result;
       DownloadConfig.fileName := filename;
       DownloadConfig.folder := None;
       DownloadConfig.overwrite := None |} logger;
  log_info logger ("Downloaded: " +:+ filename);;
  log_info logger ("Location: " +:+ DownloadResult.filePath result);;
  log_info logger ("Size: " +:+ pretty (default 0%N (DownloadResult.size result)) +:+ " bytes");;
  mret result.

End FileMaterializer.

(** ** [node:path] on POSIX hosts

    The instance of [PathApi] used by the examples; it follows the
    algorithms of Node's [path.posix]. *)

Module Posix.

Definition isSlash (c : ascii) : bool := Ascii.eqb c "/".

Fixpoint joinSegments (l : list string) : string :=
  match l with
  | [] => ""
  | [x] => x
  | x :: rest => x +:+ "/" +:+ joinSegments rest
  end.

(** [normalizeString]: drop empty and [.] segments, resolve [..]. *)
Definition pushSegment (allowAboveRoot : bool) (acc : list string) (seg : string)
    : list string :=
  if String.eqb seg "" || String.eqb seg "." then acc
  else if String.eqb seg ".." then
    match acc with
    | top :: rest => if String.eqb top ".." then seg :: acc else rest
    | [] => if allowAboveRoot then [seg] else []
    end
  else seg :: acc.

Definition normalize (p : string) : string :=
  if String.eqb p "" then "."
  else
    let isAbsolute := match p with String c _ => isSlash c | EmptyString => false end in
    let trailingSeparator := Js.endsWith p "/" in
    let body :=
      joinSegments (rev (fold_left (pushSegment (negb isAbsolute)) (Js.split "/" p) [])) in
    if String.eqb body "" then
      if isAbsolute then "/" else if trailingSeparator then "./" else "."
    else
      (if isAbsolute then "/" else "") +:+ body +:+ (if trailingSeparator then "/" else "").

Definition join (a b : string) : string :=
  if String.eqb a "" then (if String.eqb b "" then "." else normalize b)
  else if String.eqb b "" then normalize a
  else normalize (a +:+ "/" +:+ b).

(** The last non-empty component of a path. *)
Definition lastComponent (p : string) : string :=
  List.last (filter (fun seg => seg ≠ "") (Js.split "/" p)) "".

Fixpoint splitLastDot (s : string) : option (string * string) :=
  match s with
  | EmptyString => None
  | String c s' =>
      match splitLastDot s' with
      | Some (pre, ext) => Some (String c pre, ext)
      | None => if Ascii.eqb c "." then Some (EmptyString, s) else None
      end
  end.

Definition extname (p : string) : string :=
  let c := lastComponent p in
  match splitLastDot c with
  | Some (pre, ext) => if String.eqb pre "" || String.eqb c ".." then "" else ext
  | None => ""
  end.

Definition basename (p ext : string) : string :=
  let c := lastComponent p in
  if Js.truthy ext && (String.length ext <=? String.length p)%nat then
    if String.eqb ext p then ""
    else if Js.endsWith c ext && negb (String.eqb c ext)
    then substring 0 (String.length c - String.length ext) c
    else c
  else c.

Definition isAbsolute (p : string) : bool :=
  match p with String c _ => isSlash c | EmptyString => false end.

Fixpoint dropWhile (f : ascii -> bool) (l : list ascii) : list ascii :=
  match l with
  | c :: l' => if f c then dropWhile f l' else l
  | [] => []
  end.

Definition dirname (p : string) : string :=
  match p with
  | EmptyString => "."
  | String c0 rest =>
      let hasRoot := isSlash c0 in
      let scanned :=
        dropWhile (fun c => negb (isSlash c))
          (dropWhile isSlash (rev (list_ascii_of_string rest))) in
      match scanned with
      | [] => if hasRoot then "/" else "."
      | _ :: before =>
          if hasRoot && bool_decide (before = []) then "//"
          else String c0 (string_of_list_ascii (rev before))
      end
  end.

#[export] Instance api : PathApi := {|
  path_join := join;
  path_extname := extname;
  path_basename := basename;
  path_isAbsolute := isAbsolute;
  path_dirname := dirname
|}.

End Posix.

(** ** Concrete hosts and worlds used by the examples *)

Module Scenario.

Definition emptyWorld : World := {| files := ∅; log := []; calls := [] |}.

Definition outputLogger : Logger := {| outputChannel := "S3 Downloader" |}.

(** A permanent redirect whose message cites [eu-central-1]. *)
Definition redirectError : JsError :=
  {| instanceofError := true;
     name := Some "PermanentRedirect";
     message := Some ("The bucket you are attempting to access must be addressed using "
                      +:+ "the specified endpoint: logs.s3.eu-central-1.amazonaws.com");
     httpStatusCode := Some 301%Z;
     stringForm := "PermanentRedirect: The bucket you are attempting to access must be "
                   +:+ "addressed using the specified endpoint: "
                   +:+ "logs.s3.eu-central-1.amazonaws.com" |}.

(** A redirect whose first endpoint match has the group [s3]. *)
Definition globalEndpointError : JsError :=
  {| instanceofError := true;
     name := Some "PermanentRedirect";
     message := Some "Please send all future requests to s3.s3.amazonaws.com";
     httpStatusCode := Some 301%Z;
     stringForm := "PermanentRedirect: Please send all future requests to s3.s3.amazonaws.com" |}.

Definition accessDenied : JsError :=
  {| instanceofError := true;
     name := Some "AccessDenied";
     message := Some "Access Denied";
     httpStatusCode := Some 403%Z;
     stringForm := "AccessDenied: Access Denied" |}.

Definition report : Readable :=
  {| chunks := "q1 figures"; failure := None; delivered := 10 |}.

Definition reportObject : GetObjectOutput :=
  {| Body := Some report; ContentLength := Some 10%N;
     ContentType := Some "text/plain"; Metadata := None |}.

Definition settingsOf (location customPath : string) (alwaysPrompt : bool)
    : S3DownloaderSettings :=
  {| downloadLocation := location;
     customDownloadPath := customPath;
     alwaysPromptForLocation := alwaysPrompt |}.

(** A Linux host; the store, the settings and the answer to the folder
    dialog vary between examples. *)
Definition linuxHost
    (locate : list Call -> string -> string -> result GetBucketLocationOutput)
    (fetch : list Call -> string -> string -> string -> result GetObjectOutput)
    (settings : S3DownloaderSettings)
    (dialog : option (list string)) : Host :=
  {| platform := "linux";
     homedir := "/home/ada";
     tmpdir := "/tmp";
     env := fun _ => None;
     configuration := settings;
     workspaceFolders := None;
     showOpenDialog := fun _ _ => dialog;
     getBucketLocation := locate;
     getObject := fetch;
     mkdirFault := fun _ => None;
     openFault := fun _ => None |}.

Definition defaultSettings : S3DownloaderSettings := settingsOf "downloads" "" false.

(** Every request is answered with the same redirect to [eu-central-1]. *)
Definition loopingStore : Host :=
  linuxHost (fun _ _ _ => Throw redirectError) (fun _ _ _ _ => Throw redirectError)
    defaultSettings None.

(** The object lives in [eu-central-1]; other regions redirect there. *)
Definition frankfurtStore : Host :=
  linuxHost
    (fun _ _ _ => Ok {| LocationConstraint := Some "eu-central-1" |})
    (fun _ region _ _ =>
       if String.eqb region "eu-central-1" then Ok reportObject else Throw redirectError)
    defaultSettings None.

(** Discovery is refused; fetches succeed wherever they are sent. *)
Definition deniedDiscovery : Host :=
  linuxHost (fun _ _ _ => Throw accessDenied) (fun _ _ _ _ => Ok reportObject)
    defaultSettings None.

(** Every request is answered with a redirect naming the global endpoint. *)
Definition globalEndpointStore : Host :=
  linuxHost (fun _ _ _ => Throw globalEndpointError)
    (fun _ _ _ _ => Throw globalEndpointError) defaultSettings None.

(** A store whose discovery reports the location constraint [lc]. *)
Definition storeIn (lc : option string) : Host :=
  linuxHost (fun _ _ _ => Ok {| LocationConstraint := lc |})
    (fun _ _ _ _ => Ok reportObject) defaultSettings None.

(** The temp strategy; discovery is refused and the object lives in
    [eu-central-1]. *)
Definition tempHost : Host :=
  linuxHost
    (fun _ _ _ => Throw accessDenied)
    (fun _ region _ _ =>
       if String.eqb region "eu-central-1" then Ok reportObject else Throw redirectError)
    (settingsOf "temp" "" false) None.

(** The custom strategy with the path [customPath]. *)
Definition customHost (customPath : string) (alwaysPrompt : bool) : Host :=
  linuxHost (fun _ _ _ => Throw accessDenied) (fun _ _ _ _ => Ok reportObject)
    (settingsOf "custom" customPath alwaysPrompt) None.

(** The user is always asked for a folder and dismisses the dialog. *)
Definition cancellingUser : Host :=
  linuxHost (fun _ _ _ => Ok {| LocationConstraint := None |})
    (fun _ _ _ _ => Ok reportObject) (settingsOf "downloads" "" true) None.

Definition reportConfig : S3Config.t :=
  {| S3Config.region := Some "us-east-1";
     S3Config.bucket := "logs";
     S3Config.key := "reports/q1.txt" |}.

Definition reportConfigNoRegion : S3Config.t :=
  {| S3Config.region := None;
     S3Config.bucket := "logs";
     S3Config.key := "reports/q1.txt" |}.

(** A folder [/d] holding the files named in [names]. *)
Definition folderWith (names : list string) : World :=
  {| files := foldr (fun n fs => <[("/d/" +:+ n) := File "old"]> fs)
                    (<["/d" := Directory]> ∅) names;
     log := []; calls := [] |}.

Definition saveAs (fileName : string) : DownloadConfig.t :=
  {| DownloadConfig.stream := report;
     DownloadConfig.fileName := fileName;
     DownloadConfig.folder := Some "/d";
     DownloadConfig.overwrite := None |}.

Definition saveAnywhere (fileName : string) : DownloadConfig.t :=
  {| DownloadConfig.stream := report;
     DownloadConfig.fileName := fileName;
     DownloadConfig.folder := None;
     DownloadConfig.overwrite := None |}.

End Scenario.

(** ** Vocabulary of the statements *)

(** The region the two [catch] blocks (lines 65-73 and 152-159 of [s3.ts])
    take from a caught error: the first group of the endpoint match of a
    permanent redirect, unless that group is [s3]. *)
Definition redirectRegion (error : JsError) : option string :=
  if isPermanentRedirect error then
    match endpointMatch error with
    | Some group1 => if negb (String.eqb group1 "s3") then Some group1 else None
    | None => None
    end
  else None.

(** What [getS3Object] makes of the store's answer to a fetch. *)
Definition fetched (answer : result GetObjectOutput) : result S3DownloadResult.t :=
  match answer with
  | Ok response =>
      match Body response with
      | Some body => Ok (downloadResult body response)
      | None => Throw (newError "No file content received from S3")
      end
  | Throw error => Throw error
  end.

(** Discovery sends one request, through a client bound to [us-east-1]. *)
Definition discoveryCall (bucketName : string) : Call :=
  mkCall "us-east-1" (GetBucketLocationCommand bucketName).

(** The request [getS3Object] sends through a client bound to [region]. *)
Definition fetchCall (region : string) (config : S3Config.t) : Call :=
  mkCall region (GetObjectCommand (S3Config.bucket config) (S3Config.key config)).

(** The candidate name with suffix [_n] that [getUniqueFilePath] tries. *)
Definition candidate `{PathApi} (folderPath filename : string) (n : nat) : string :=
  path_join folderPath
    (path_basename filename (path_extname filename) +:+ "_" +:+ pretty n
     +:+ path_extname filename).

(** Every character of [s] passes the test [f]. *)
Fixpoint allChars (f : ascii -> bool) (s : string) : bool :=
  match s with
  | EmptyString => true
  | String c s' => f c && allChars f s'
  end.

(** ** Further vocabulary and hosts *)

(** No character of [s] is the path separator. *)
Definition noSlash (s : string) : bool :=
  allChars (fun c => negb (Ascii.eqb c "/")) s.

(** The requests of a trace that are fetches of the object of [config]. *)
Definition fetchesOf (config : S3Config.t) (trace : list Call) : Prop :=
  Forall (fun c => command c
                   = GetObjectCommand (S3Config.bucket config) (S3Config.key config)) trace.

(** Every path that exists in [w] exists in [w'], with the same entry. *)
Definition preserves (w w' : World) : Prop :=
  forall p e, files w !! p = Some e -> files w' !! p = Some e.

(** Lines 93-120 of [download.ts]: the folder [downloadToFile] writes to. *)
Definition chooseFolder {node_path : PathApi} (host : Host) (config : DownloadConfig.t)
    (logger : option Logger) : M string :=
  if Js.truthy_opt (DownloadConfig.folder config) then
    mret (Js.interp (DownloadConfig.folder config))
  else
    configuredFolder ← getConfiguredDownloadFolder host logger;
    if negb (Js.truthy_opt configuredFolder) then
      let defaultFolder := getSystemDownloadsFolder host in
      selectedFolder ←
        promptForDownloadLocation host defaultFolder (DownloadConfig.fileName config);
      if negb (Js.truthy_opt selectedFolder) then
        throw (newError "Download cancelled - no folder selected")
      else
        let downloadFolder := Js.interp selectedFolder in
        log_info logger ("User selected download folder: " +:+ downloadFolder);;
        mret downloadFolder
    else
      let downloadFolder := Js.interp configuredFolder in
      log_debug logger ("Using configured download folder: " +:+ downloadFolder);;
      mret downloadFolder.

(** Lines 124-127: the path the file is written to, once the folder is
    there. *)
Definition choosePath {node_path : PathApi} (fuel : nat) (config : DownloadConfig.t)
    (downloadFolder : string) : M string :=
  if bool_decide (DownloadConfig.overwrite config = Some true) then
    mret (path_join downloadFolder (DownloadConfig.fileName config))
  else getUniqueFilePath fuel downloadFolder (DownloadConfig.fileName config).

Module Cases.

(** The store answers a fetch with a response that has no body. *)
Definition emptyBodyStore : Host :=
  Scenario.linuxHost (fun _ _ _ => Ok {| LocationConstraint := None |})
    (fun _ _ _ _ => Ok {| Body := None; ContentLength := None;
                          ContentType := None; Metadata := None |})
    Scenario.defaultSettings None.

(** The store refuses every fetch. *)
Definition deniedStore : Host :=
  Scenario.linuxHost (fun _ _ _ => Ok {| LocationConstraint := None |})
    (fun _ _ _ _ => Throw Scenario.accessDenied)
    Scenario.defaultSettings None.

(** The store sends the object without a length or a type. *)
Definition bareStore : Host :=
  Scenario.linuxHost (fun _ _ _ => Throw Scenario.accessDenied)
    (fun _ _ _ _ => Ok {| Body := Some Scenario.report; ContentLength := None;
                          ContentType := None; Metadata := None |})
    Scenario.defaultSettings None.

(** A host with the given settings, workspace folders and dialog answer. *)
Definition desk (settings : S3DownloaderSettings) (folders : option (list string))
    (dialog : option (list string)) : Host :=
  {| platform := "linux";
     homedir := "/home/ada";
     tmpdir := "/tmp";
     env := fun _ => None;
     configuration := settings;
     workspaceFolders := folders;
     showOpenDialog := fun _ _ => dialog;
     getBucketLocation := fun _ _ _ => Ok {| LocationConstraint := None |};
     getObject := fun _ _ _ _ => Ok Scenario.reportObject;
     mkdirFault := fun _ => None;
     openFault := fun _ => None |}.

(** A host whose operating system refuses to create the directory
    [locked]. *)
Definition guarded (locked : string) : Host :=
  {| platform := "linux";
     homedir := "/home/ada";
     tmpdir := "/tmp";
     env := fun _ => None;
     configuration := Scenario.defaultSettings;
     workspaceFolders := None;
     showOpenDialog := fun _ _ => None;
     getBucketLocation := fun _ _ _ => Ok {| LocationConstraint := None |};
     getObject := fun _ _ _ _ => Ok Scenario.reportObject;
     mkdirFault := fun p => if String.eqb p locked then Some Scenario.accessDenied else None;
     openFault := fun _ => None |}.


(** U+00A0, U+2028 and U+FEFF in UTF-8. *)
Definition nbsp : string := String "194" (String "160" "").
Definition lineSeparator : string := String "226" (String "128" (String "168" "")).
Definition byteOrderMark : string := String "239" (String "187" (String "191" "")).

(** The folder [/d], just created in an empty file system. *)
Definition freshFolder : World :=
  {| files := {[ "/" := Directory; "/d" := Directory ]}; log := []; calls := [] |}.

(** A stream that breaks after its first bytes, none of which was written
    when the pipeline was torn down. *)
Definition brokenStream : Readable :=
  {| chunks := "q1 fi";
     failure := Some (newError "aborted");
     delivered := 0 |}.

(** A value that is thrown but is not an [Error]: the string
    [socket hang up]. *)
Definition thrownText : JsError :=
  {| instanceofError := false;
     name := None;
     message := None;
     httpStatusCode := None;
     stringForm := "socket hang up" |}.

(** The client rejects every fetch with that string. *)
Definition textThrowingStore : Host :=
  Scenario.linuxHost (fun _ _ _ => Ok {| LocationConstraint := None |})
    (fun _ _ _ _ => Throw thrownText)
    Scenario.defaultSettings None.

End Cases.

(** ** The commands and what the user sees *)

(** [validateInput] of [promptForS3Uri]: the message shown under the input
    box, or nothing ([null] or [undefined]) when the value is accepted. *)
Definition validateInput (parseS3Url : string -> result S3Object.t) (value : string)
    : result (option string) :=
  if negb (Js.truthy value) then Ok (Some "Please enter an S3 URI")
  else
    parsed ← parseAndValidateS3Uri parseS3Url value;
    if negb (ParsedS3Uri.isValid parsed) then Ok (ParsedS3Uri.errorMessage parsed)
    else Ok None.

(** What the user and the editor answer: the text submitted at the input
    box, the button clicked on a notification, and the error, if any, with
    which a service of the editor rejects a path. *)
Record Ui := mkUi {
  showInputBox : option string;                         (* [undefined] when dismissed *)
  clickedItem : string -> list string -> option string; (* message, items -> item *)
  openTextDocumentFault : string -> option JsError;
  showTextDocumentFault : string -> option JsError;
  openExternalFault : string -> option JsError;
  writeTextFault : string -> option JsError
}.

(** What the commands leave on the screen, oldest first. *)
Record Screen := mkScreen {
  errorMessages : list string;            (* showErrorMessage *)
  informationMessages : list string;      (* showInformationMessage *)
  shownDocuments : list string;           (* showTextDocument *)
  openedExternally : list string;         (* env.openExternal *)
  clipboard : option string;              (* env.clipboard *)
  consoleErrors : list (string * JsError) (* console.error *)
}.

(** A command runs in the world and on the screen. *)
Definition Cmd (A : Type) : Type :=
  World * Screen -> option (result A * (World * Screen)).

#[global] Instance Cmd_ret : MRet Cmd := fun A a s => Some (Ok a, s).
#[global] Instance Cmd_bind : MBind Cmd := fun A B f m s =>
  match m s with
  | Some (Ok a, s') => f a s'
  | Some (Throw e, s') => Some (Throw e, s')
  | None => None
  end.

(** An awaited call of the utilities, which do not touch the screen. *)
Definition liftM {A} (m : M A) : Cmd A :=
  fun s =>
    match m (fst s) with
    | Some (r, w') => Some (r, (w', snd s))
    | None => None
    end.

Definition throwC {A} (error : JsError) : Cmd A := fun s => Some (Throw error, s).

(** [try { body } catch (error) { handler }] in a command. *)
Definition try_catchC {A} (body : Cmd A) (handler : JsError -> Cmd A) : Cmd A :=
  fun s =>
    match body s with
    | Some (Throw e, s') => handler e s'
    | r => r
    end.

(** [try { body } finally { finalizer }]: the finalizer runs however the
    body ends; the body's outcome stands unless the finalizer throws. *)
Definition try_finally {A} (body : Cmd A) (finalizer : Cmd unit) : Cmd A :=
  fun s =>
    match body s with
    | Some (r, s') =>
        match finalizer s' with
        | Some (Ok _, s'') => Some (r, s'')
        | Some (Throw e, s'') => Some (Throw e, s'')
        | None => None
        end
    | None => None
    end.

Definition showErrorMessage (msg : string) : Cmd unit :=
  fun s =>
    Some (Ok tt, (fst s,
      {| errorMessages := errorMessages (snd s) ++ [msg];
         informationMessages := informationMessages (snd s);
         shownDocuments := shownDocuments (snd s);
         openedExternally := openedExternally (snd s);
         clipboard := clipboard (snd s);
         consoleErrors := consoleErrors (snd s) |})).

Definition showInformationMessage (msg : string) : Cmd unit :=
  fun s =>
    Some (Ok tt, (fst s,
      {| errorMessages := errorMessages (snd s);
         informationMessages := informationMessages (snd s) ++ [msg];
         shownDocuments := shownDocuments (snd s);
         openedExternally := openedExternally (snd s);
         clipboard := clipboard (snd s);
         consoleErrors := consoleErrors (snd s) |})).

Definition console_error (label : string) (error : JsError) : Cmd unit :=
  fun s =>
    Some (Ok tt, (fst s,
      {| errorMessages := errorMessages (snd s);
         informationMessages := informationMessages (snd s);
         shownDocuments := shownDocuments (snd s);
         openedExternally := openedExternally (snd s);
         clipboard := clipboard (snd s);
         consoleErrors := consoleErrors (snd s) ++ [(label, error)] |})).

(** [Logger.error] on a string: the line is written and returned. *)
Definition Logger_error_text (logger : Logger) (input : string) : Cmd string :=
  liftM (log_error (Some logger) input);;
  mret input.

(** [Logger.error] on a caught value: the message of an [Error];
    [String(input)] for anything else, which is the text itself for a thrown
    string.  The channel's rendering of an [Error] is recorded as its string
    form. *)
Definition Logger_error (logger : Logger) (input : JsError) : Cmd string :=
  if instanceofError input then
    liftM (log_error (Some logger) (errorToString input));;
    mret (Js.interp (message input))
  else
    let message := errorToString input in
    liftM (log_error (Some logger) message);;
    mret message.

Section Commands.

Context {node_path : PathApi}.

Variable host : Host.
Variable ui : Ui.

(** [parseS3Url] of the [amazon-s3-url] package and
    [JSON.stringify(parsedUri, null, 2)], both outside the repository. *)
Variable parseS3Url : string -> result S3Object.t.
Variable stringify : ParsedS3Uri.t -> string.

(** The bound on the iterations of the loop in [getUniqueFilePath]. *)
Variable fuel : nat.

(** [promptForS3Uri] of [prompt-s3-uri.ts]: what the input box resolves to. *)
Definition promptForS3Uri : Cmd (option string) :=
  fun s => Some (Ok (showInputBox ui), s).

(** [await vscode.window.showInformationMessage(msg, ...items)] *)
Definition showInformationMessage_items (msg : string) (items : list string)
    : Cmd (option string) :=
  showInformationMessage msg;;
  mret (clickedItem ui msg items).

(** [await vscode.env.openExternal(vscode.Uri.file(fsPath))] *)
Definition openExternal (fsPath : string) : Cmd unit :=
  fun s =>
    match openExternalFault ui fsPath with
    | Some error => Some (Throw error, s)
    | None =>
        Some (Ok tt, (fst s,
          {| errorMessages := errorMessages (snd s);
             informationMessages := informationMessages (snd s);
             shownDocuments := shownDocuments (snd s);
             openedExternally := openedExternally (snd s) ++ [fsPath];
             clipboard := clipboard (snd s);
             consoleErrors := consoleErrors (snd s) |}))
    end.

(** [await vscode.env.clipboard.writeText(text)] *)
Definition clipboard_writeText (text : string) : Cmd unit :=
  fun s =>
    match writeTextFault ui text with
    | Some error => Some (Throw error, s)
    | None =>
        Some (Ok tt, (fst s,
          {| errorMessages := errorMessages (snd s);
             informationMessages := informationMessages (snd s);
             shownDocuments := shownDocuments (snd s);
             openedExternally := openedExternally (snd s);
             clipboard := Some text;
             consoleErrors := consoleErrors (snd s) |}))
    end.

(** [await vscode.workspace.openTextDocument(filePath)]; the document is
    known by its path. *)
Definition openTextDocument (filePath : string) : Cmd string :=
  fun s =>
    match openTextDocumentFault ui filePath with
    | Some error => Some (Throw error, s)
    | None => Some (Ok filePath, s)
    end.

(** [await vscode.window.showTextDocument(document)] *)
Definition showTextDocument (document : string) : Cmd unit :=
  fun s =>
    match showTextDocumentFault ui document with
    | Some error => Some (Throw error, s)
    | None =>
        Some (Ok tt, (fst s,
          {| errorMessages := errorMessages (snd s);
             informationMessages := informationMessages (snd s);
             shownDocuments := shownDocuments (snd s) ++ [document];
             openedExternally := openedExternally (snd s);
             clipboard := clipboard (snd s);
             consoleErrors := consoleErrors (snd s) |}))
    end.

(** [action === item] *)
Definition clicked (action : option string) (item : string) : bool :=
  match action with
  | Some a => String.eqb a item
  | None => false
  end.

(** [downloadS3File] of [download-file.ts]. *)
Definition downloadS3File (logger : Logger) : Cmd unit :=
  try_finally
    (try_catchC
       (liftM (log_info (Some logger) "S3 download command started");;
        liftM (log_info (Some logger) "Prompting user for S3 URI input");;
        (* Prompt user for S3 URI *)
        s3Uri ← promptForS3Uri;
        if negb (Js.truthy_opt s3Uri) then
          liftM (log_info (Some logger) "User cancelled the S3 URI input dialog")
        else
          liftM (log_info (Some logger) ("Input URI: " +:+ Js.interp s3Uri));;
          (* Parse and validate the S3 URI *)
          parsedUri ← (fun s => Some (parseAndValidateS3Uri parseS3Url (Js.interp s3Uri), s));
          if negb (ParsedS3Uri.isValid parsedUri) then
            Logger_error_text logger
              ("Invalid S3 URI: " +:+ Js.interp (ParsedS3Uri.errorMessage parsedUri));;
            showErrorMessage
              ("Invalid S3 URI: " +:+ Js.interp (ParsedS3Uri.errorMessage parsedUri))
          else
            liftM (log_info (Some logger) "Parsed URI successfully");;
            liftM (log_info (Some logger) (stringify parsedUri));;
            downloadResult ← liftM (downloadWithProgress host fuel parsedUri (Some logger));
            let filename := DownloadResult.fileName downloadResult in
            (* Show information message with options after progress completes *)
            action ← showInformationMessage_items
                       ("Successfully downloaded: " +:+ filename)
                       ["Open Folder"; "Copy Path"];
            if clicked action "Open Folder" then
              (* Open the download folder in system explorer *)
              openExternal (DownloadResult.folder downloadResult)
            else if clicked action "Copy Path" then
              (* Copy the file path to clipboard *)
              clipboard_writeText (DownloadResult.filePath downloadResult);;
              showInformationMessage "File path copied to clipboard"
            else mret tt)
       (fun error =>
          errorMessage ← Logger_error logger error;
          showErrorMessage ("Failed to download S3 file: " +:+ errorMessage);;
          console_error "S3 download error:" error))
    (liftM (log_info (Some logger) "S3 download command ended")).

(** [openFileInVSCode] of [open-file.ts] in [utils/vscode]. *)
Definition openFileInVSCode (filePath : string) (logger : option Logger) : Cmd string :=
  liftM (log_debug logger ("Opening file in VSCode: " +:+ filePath));;
  (* Check if file exists *)
  found ← liftM (existsSync filePath);
  if negb found then throwC (newError ("File not found: " +:+ filePath))
  else
    try_catchC
      ((* Open the text document *)
       document ← openTextDocument filePath;
       (* Show the document in the editor *)
       showTextDocument document;;
       liftM (log_info logger "File opened successfully in VSCode");;
       mret document)
      (fun error =>
         liftM (log_error logger ("Failed to open file: " +:+ errorToString error));;
         throwC error).

(** [openWithProgress], without the progress notifications. *)
Definition openWithProgress (downloadResult : DownloadResult.t) (logger : Logger)
    : Cmd unit :=
  let filename := DownloadResult.fileName downloadResult in
  let filePath := DownloadResult.filePath downloadResult in
  (* Open the file *)
  openFileInVSCode filePath (Some logger);;
  (* Show success message *)
  liftM (log_info (Some logger) ("Downloaded: " +:+ filename));;
  liftM (log_info (Some logger) ("Location: " +:+ filePath));;
  showInformationMessage ("Successfully opened: " +:+ filename).

(** [openS3File] of [commands/open-file.ts]. *)
Definition openS3File (logger : Logger) : Cmd unit :=
  try_finally
    (try_catchC
       (liftM (log_info (Some logger) "S3 open file command started");;
        liftM (log_info (Some logger) "Prompting user for S3 URI input");;
        (* Prompt user for S3 URI *)
        s3Uri ← promptForS3Uri;
        if negb (Js.truthy_opt s3Uri) then
          liftM (log_info (Some logger) "User cancelled the S3 URI input dialog")
        else
          liftM (log_info (Some logger) ("Input URI: " +:+ Js.interp s3Uri));;
          (* Parse and validate the S3 URI *)
          parsedUri ← (fun s => Some (parseAndValidateS3Uri parseS3Url (Js.interp s3Uri), s));
          if negb (ParsedS3Uri.isValid parsedUri) then
            Logger_error_text logger
              ("Invalid S3 URI: " +:+ Js.interp (ParsedS3Uri.errorMessage parsedUri));;
            showErrorMessage
              ("Invalid S3 URI: " +:+ Js.interp (ParsedS3Uri.errorMessage parsedUri))
          else
            liftM (log_info (Some logger) "Parsed URI successfully");;
            liftM (log_info (Some logger) (stringify parsedUri));;
            downloadResult ← liftM (downloadWithProgress host fuel parsedUri (Some logger));
            openWithProgress downloadResult logger)
       (fun error =>
          errorMessage ← Logger_error logger error;
          showErrorMessage ("Failed to open S3 file: " +:+ errorMessage);;
          console_error "S3 open file error:" error))
    (liftM (log_info (Some logger) "S3 open file command ended")).

End Commands.

(** The world in which a command awaits [downloadWithProgress], after the
    user submitted [value] and it was parsed to [parsedUri]: the five lines
    written until then are in the log, [started] being the first line of the
    command. *)
Definition readyToDownload (started : string) (stringify : ParsedS3Uri.t -> string)
    (value : string) (parsedUri : ParsedS3Uri.t) (w : World) : World :=
  {| files := files w;
     log := (log w
             ++ [(INFO, started);
                 (INFO, "Prompting user for S3 URI input");
                 (INFO, "Input URI: " +:+ value);
                 (INFO, "Parsed URI successfully");
                 (INFO, stringify parsedUri)])%list;
     calls := calls w |}.

(** ** Users at the input box *)

Module Users.

Definition blankScreen : Screen :=
  {| errorMessages := []; informationMessages := []; shownDocuments := [];
     openedExternally := []; clipboard := None; consoleErrors := [] |}.

(** A user who submits [input] (or dismisses the box), clicks [button] on
    the notification, and an editor that opens everything. *)
Definition user (input : option string) (button : option string) : Ui :=
  {| showInputBox := input;
     clickedItem := fun _ _ => button;
     openTextDocumentFault := fun _ => None;
     showTextDocumentFault := fun _ => None;
     openExternalFault := fun _ => None;
     writeTextFault := fun _ => None |}.

(** The layout of [JSON.stringify] does not matter to the examples. *)
Definition stringify (parsedUri : ParsedS3Uri.t) : string :=
  "{ bucket: " +:+ ParsedS3Uri.bucket parsedUri +:+ ", key: "
  +:+ ParsedS3Uri.key parsedUri +:+ " }".

End Users.

(** * Properties *)

(** ** Strings *)

Lemma endsWith_spec (s suffix : string) :
  Js.endsWith s suffix = true <-> exists p, s = p +:+ suffix.
Proof.
  induction s as [|c s IH]; cbn [Js.endsWith].
  - rewrite orb_false_r, String.eqb_eq. split.
    + intros <-. now exists "".
    + intros [[|a p] Hp]; simpl in Hp; [now symmetry | discriminate].
  - rewrite orb_true_iff, String.eqb_eq, IH. split.
    + intros [<-|[p ->]]; [now exists "" | now exists (String c p)].
    + intros [[|a p] Hp]; simpl in Hp; [now left|].
      injection Hp as -> ->. right. now exists p.
Qed.

Lemma truthy_spec (s : string) : Js.truthy s = true <-> s <> "".
Proof.
  unfold Js.truthy. rewrite negb_true_iff. split.
  - intros H ->. now rewrite String.eqb_refl in H.
  - intros H. now apply String.eqb_neq.
Qed.

(** *** [trim] on UTF-8 text *)

Lemma trimStart_step (s : string) :
  Js.trimStart s = match Js.skipWhiteSpace s with
                   | Some s' => Js.trimStart s'
                   | None => s
                   end.
Proof.
  destruct s as [|c s1]; [reflexivity|]. unfold Js.skipWhiteSpace.
  change (Js.trimStart (String c s1))
    with (if Js.isWhiteSpace c then Js.trimStart s1
          else match s1 with
               | String d s2 =>
                   if Js.isWhiteSpace2 c d then Js.trimStart s2
                   else match s2 with
                        | String e s3 =>
                            if Js.isWhiteSpace3 c d e then Js.trimStart s3 else String c s1
                        | EmptyString => String c s1
                        end
               | EmptyString => String c s1
               end).
  destruct (Js.isWhiteSpace c); [reflexivity|].
  destruct s1 as [|d s2]; [reflexivity|].
  destruct (Js.isWhiteSpace2 c d); [reflexivity|].
  destruct s2 as [|e s3]; [reflexivity|].
  now destruct (Js.isWhiteSpace3 c d e).
Qed.

Lemma blank_step (s : string) :
  Js.blank s = match Js.skipWhiteSpace s with
               | Some s' => Js.blank s'
               | None => String.eqb s ""
               end.
Proof.
  destruct s as [|c s1]; [reflexivity|]. unfold Js.skipWhiteSpace.
  change (Js.blank (String c s1))
    with (if Js.isWhiteSpace c then Js.blank s1
          else match s1 with
               | String d s2 =>
                   if Js.isWhiteSpace2 c d then Js.blank s2
                   else match s2 with
                        | String e s3 =>
                            if Js.isWhiteSpace3 c d e then Js.blank s3 else false
                        | EmptyString => false
                        end
               | EmptyString => false
               end).
  destruct (Js.isWhiteSpace c); [reflexivity|].
  destruct s1 as [|d s2]; [reflexivity|].
  destruct (Js.isWhiteSpace2 c d); [reflexivity|].
  destruct s2 as [|e s3]; [reflexivity|].
  now destruct (Js.isWhiteSpace3 c d e).
Qed.

Lemma skip_length (s s' : string) :
  Js.skipWhiteSpace s = Some s' -> String.length s' < String.length s.
Proof.
  unfold Js.skipWhiteSpace.
  destruct s as [|c s1]; [discriminate|].
  destruct (Js.isWhiteSpace c); [intros [= <-]; cbn; lia|].
  destruct s1 as [|d s2]; [discriminate|].
  destruct (Js.isWhiteSpace2 c d); [intros [= <-]; cbn; lia|].
  destruct s2 as [|e s3]; [discriminate|].
  destruct (Js.isWhiteSpace3 c d e); [intros [= <-]; cbn; lia | discriminate].
Qed.

Lemma skip_ind (P : string -> Prop) :
  (forall s, Js.skipWhiteSpace s = None -> P s) ->
  (forall s s', Js.skipWhiteSpace s = Some s' -> P s' -> P s) ->
  forall s, P s.
Proof.
  intros Hstop Hstep s.
  remember (String.length s) as n eqn:Hn. revert s Hn.
  induction n as [n IH] using lt_wf_ind. intros s ->.
  destruct (Js.skipWhiteSpace s) as [s'|] eqn:Hskip; [|now apply Hstop].
  apply (Hstep _ _ Hskip). apply (IH (String.length s')); [|reflexivity].
  now apply skip_length.
Qed.

Ltac to_prop H :=
  repeat first [ rewrite andb_true_iff in H | rewrite orb_true_iff in H
               | rewrite Nat.eqb_eq in H | rewrite Nat.leb_le in H
               | rewrite Nat.ltb_lt in H ].

(** The second and third bytes of a white-space character are continuation
    bytes (128 to 191); the first byte is not. *)
Ltac byte_arith H :=
  let Hc := fresh "Hc" in
  apply not_true_is_false; intro Hc;
  unfold Js.isWhiteSpace, Js.isWhiteSpace2, Js.isWhiteSpace3 in *;
  cbv zeta in *; to_prop Hc; lia.

Lemma not_second (c a : ascii) :
  nat_of_ascii a < 128 \/ 192 <= nat_of_ascii a -> Js.isWhiteSpace2 c a = false.
Proof. intros H. byte_arith H. Qed.

Lemma not_middle (c a e : ascii) :
  nat_of_ascii a < 128 \/ 192 <= nat_of_ascii a -> Js.isWhiteSpace3 c a e = false.
Proof. intros H. byte_arith H. Qed.

Lemma not_last (c d a : ascii) :
  nat_of_ascii a < 128 \/ 192 <= nat_of_ascii a -> Js.isWhiteSpace3 c d a = false.
Proof. intros H. byte_arith H. Qed.

(** A text starts at a character boundary: its first byte, if any, is not a
    continuation byte. *)
Lemma blank_starts_clean (pad : string) (a : ascii) (rest : string) :
  Js.blank pad = true -> pad = String a rest ->
  nat_of_ascii a < 128 \/ 192 <= nat_of_ascii a.
Proof.
  intros Hblank ->. cbn [Js.blank] in Hblank.
  destruct (Js.isWhiteSpace a) eqn:H1.
  { unfold Js.isWhiteSpace in H1. cbv zeta in H1. to_prop H1. lia. }
  destruct rest as [|d rest]; [discriminate|].
  destruct (Js.isWhiteSpace2 a d) eqn:H2.
  { unfold Js.isWhiteSpace2 in H2. to_prop H2. lia. }
  destruct rest as [|e rest]; [discriminate|].
  destruct (Js.isWhiteSpace3 a d e) eqn:H3; [|discriminate].
  unfold Js.isWhiteSpace3 in H3. cbv zeta in H3. to_prop H3. lia.
Qed.

Lemma skip_app_Some (a a' b : string) :
  Js.skipWhiteSpace a = Some a' -> Js.skipWhiteSpace (a +:+ b) = Some (a' +:+ b).
Proof.
  unfold Js.skipWhiteSpace.
  destruct a as [|c s1]; [discriminate|].
  change (String c s1 +:+ b) with (String c (s1 +:+ b)). cbv beta iota.
  destruct (Js.isWhiteSpace c); [intros [= <-]; reflexivity|].
  destruct s1 as [|d s2]; [discriminate|].
  change (String d s2 +:+ b) with (String d (s2 +:+ b)). cbv beta iota.
  destruct (Js.isWhiteSpace2 c d); [intros [= <-]; reflexivity|].
  destruct s2 as [|e s3]; [discriminate|].
  change (String e s3 +:+ b) with (String e (s3 +:+ b)). cbv beta iota.
  destruct (Js.isWhiteSpace3 c d e); [intros [= <-]; reflexivity | discriminate].
Qed.

(** What follows a text that does not start with white space cannot make it
    start with white space, when it starts at a character boundary. *)
Lemma skip_app_None (s pad : string) :
  Js.skipWhiteSpace s = None -> s <> "" ->
  (forall a rest, pad = String a rest -> nat_of_ascii a < 128 \/ 192 <= nat_of_ascii a) ->
  Js.skipWhiteSpace (s +:+ pad) = None.
Proof.
  unfold Js.skipWhiteSpace. intros Hskip Hs Hpad.
  destruct s as [|c s1]; [contradiction|].
  change (String c s1 +:+ pad) with (String c (s1 +:+ pad)). cbv beta iota.
  destruct (Js.isWhiteSpace c); [discriminate|].
  destruct s1 as [|d s2].
  - change ("" +:+ pad) with pad. destruct pad as [|a pad]; [reflexivity|].
    specialize (Hpad a pad eq_refl).
    rewrite (not_second _ _ Hpad). destruct pad as [|a2 pad]; [reflexivity|].
    now rewrite (not_middle _ _ _ Hpad).
  - change (String d s2 +:+ pad) with (String d (s2 +:+ pad)). cbv beta iota.
    destruct (Js.isWhiteSpace2 c d); [discriminate|].
    destruct s2 as [|e s3].
    + change ("" +:+ pad) with pad. destruct pad as [|a pad]; [reflexivity|].
      specialize (Hpad a pad eq_refl). now rewrite (not_last _ _ _ Hpad).
    + change (String e s3 +:+ pad) with (String e (s3 +:+ pad)). cbv beta iota.
      now destruct (Js.isWhiteSpace3 c d e).
Qed.

Lemma blank_trimStart (s : string) : Js.blank s = true <-> Js.trimStart s = "".
Proof.
  induction s as [s Hskip|s s' Hskip IH] using skip_ind;
    rewrite blank_step, trimStart_step, Hskip; [|exact IH].
  apply String.eqb_eq.
Qed.

Lemma trimStart_fixed (s : string) : Js.trimStart (Js.trimStart s) = Js.trimStart s.
Proof.
  induction s as [s Hskip|s s' Hskip IH] using skip_ind.
  - rewrite (trimStart_step s), Hskip. rewrite (trimStart_step s), Hskip. reflexivity.
  - rewrite (trimStart_step s), Hskip. exact IH.
Qed.

Lemma trimEnd_empty_iff (s : string) : Js.trimEnd s = "" <-> Js.blank s = true.
Proof.
  destruct s as [|c s]; [easy|]. cbn [Js.trimEnd].
  destruct (Js.blank (String c s)); split; intros H; try discriminate; auto.
Qed.

Lemma trim_empty_iff (s : string) : Js.trim s = "" <-> Js.blank s = true.
Proof.
  unfold Js.trim. rewrite trimEnd_empty_iff, !blank_trimStart. now rewrite trimStart_fixed.
Qed.

Lemma blank_app (a b : string) : Js.blank a = true -> Js.blank (a +:+ b) = Js.blank b.
Proof.
  induction a as [a Hskip|a a' Hskip IH] using skip_ind; rewrite (blank_step a), Hskip.
  - intros ->%String.eqb_eq. reflexivity.
  - intros Ha. rewrite (blank_step (a +:+ b)), (skip_app_Some _ _ _ Hskip). auto.
Qed.

(** [trimEnd] cuts a blank end off. *)
Lemma trimEnd_decomposition (s : string) :
  exists b, s = Js.trimEnd s +:+ b /\ Js.blank b = true.
Proof.
  induction s as [|c s (b & IH & Hb)]; [now exists ""|]. cbn [Js.trimEnd].
  destruct (Js.blank (String c s)) eqn:Hblank.
  - now exists (String c s).
  - exists b. split; [|exact Hb].
    change (String c (Js.trimEnd s) +:+ b) with (String c (Js.trimEnd s +:+ b)).
    now rewrite <- IH.
Qed.

Lemma blank_trimEnd (s : string) : Js.blank (Js.trimEnd s) = Js.blank s.
Proof.
  destruct (trimEnd_decomposition s) as (b & Hs & Hb).
  destruct (Js.blank (Js.trimEnd s)) eqn:Hp.
  - symmetry. rewrite Hs, (blank_app _ _ Hp). exact Hb.
  - destruct (Js.blank s) eqn:Hblank; [|reflexivity].
    apply trimEnd_empty_iff in Hblank. rewrite Hblank in Hp. discriminate.
Qed.

Lemma trimEnd_idempotent (s : string) : Js.trimEnd (Js.trimEnd s) = Js.trimEnd s.
Proof.
  induction s as [|c s IH]; [reflexivity|].
  assert (Hsame := blank_trimEnd (String c s)). cbn [Js.trimEnd] in *.
  destruct (Js.blank (String c s)) eqn:Hblank; [reflexivity|].
  cbn [Js.trimEnd]. now rewrite Hsame, IH.
Qed.

(** A text that does not start with white space. *)
Lemma trimStart_id (s : string) :
  Js.trimStart s = s <-> s = "" \/ Js.skipWhiteSpace s = None.
Proof.
  assert (Hlen : forall t, String.length (Js.trimStart t) <= String.length t).
  { induction t as [t Hskip|t t' Hskip IH] using skip_ind;
      rewrite trimStart_step, Hskip; [lia|]. apply skip_length in Hskip. lia. }
  rewrite trimStart_step. destruct (Js.skipWhiteSpace s) as [s'|] eqn:Hskip.
  - split.
    + intros Heq. apply skip_length in Hskip. specialize (Hlen s'). rewrite Heq in Hlen. lia.
    + intros [->|]; [discriminate Hskip | discriminate].
  - split; auto.
Qed.

Lemma trimEnd_keeps_start (s : string) :
  Js.trimStart s = s -> Js.trimStart (Js.trimEnd s) = Js.trimEnd s.
Proof.
  intros [->|Hskip]%trimStart_id; [reflexivity|]. apply trimStart_id.
  destruct (Js.trimEnd s) as [|c t] eqn:Ht; [now left|]. right.
  destruct (trimEnd_decomposition s) as (b & Hs & _). rewrite Ht in Hs.
  destruct (Js.skipWhiteSpace (String c t)) as [t'|] eqn:Hp; [|reflexivity].
  rewrite Hs, (skip_app_Some _ _ b Hp) in Hskip. discriminate.
Qed.

Lemma trim_idempotent (s : string) : Js.trim (Js.trim s) = Js.trim s.
Proof.
  unfold Js.trim.
  rewrite (trimEnd_keeps_start _ (trimStart_fixed s)). apply trimEnd_idempotent.
Qed.

(** White space of one byte is white space. *)
Lemma blank_allChars (s : string) : allChars Js.isWhiteSpace s = true -> Js.blank s = true.
Proof.
  induction s as [|c s IH]; [reflexivity|]. cbn [allChars Js.blank].
  intros [Hc Hs]%andb_true_iff. rewrite Hc. auto.
Qed.

Lemma trimStart_padding (pad s : string) :
  Js.blank pad = true -> Js.trimStart (pad +:+ s) = Js.trimStart s.
Proof.
  induction pad as [pad Hskip|pad pad' Hskip IH] using skip_ind;
    rewrite (blank_step pad), Hskip.
  - intros ->%String.eqb_eq. reflexivity.
  - intros Hpad. rewrite trimStart_step, (skip_app_Some _ _ _ Hskip). auto.
Qed.

(** White space after a text does not change what the text starts with. *)
Lemma blank_app_padding (s pad : string) :
  Js.blank pad = true -> Js.blank (s +:+ pad) = Js.blank s.
Proof.
  intros Hpad.
  induction s as [s Hskip|s s' Hskip IH] using skip_ind.
  - destruct s as [|c s]; [exact Hpad|].
    rewrite (blank_step (String c s)), Hskip.
    rewrite blank_step, (skip_app_None _ _ Hskip)
      by (discriminate || (intros a rest; now apply blank_starts_clean)).
    reflexivity.
  - now rewrite (blank_step s), Hskip, blank_step, (skip_app_Some _ _ _ Hskip).
Qed.

Lemma trimEnd_padding (s pad : string) :
  Js.blank pad = true -> Js.trimEnd (s +:+ pad) = Js.trimEnd s.
Proof.
  intros Hpad. induction s as [|c s IH].
  - change ("" +:+ pad) with pad. now apply trimEnd_empty_iff.
  - assert (Hsame := blank_app_padding (String c s) pad Hpad).
    change (String c s +:+ pad) with (String c (s +:+ pad)) in *.
    cbn [Js.trimEnd]. now rewrite Hsame, IH.
Qed.

Lemma trimStart_app (s pad : string) :
  Js.blank pad = true ->
  Js.trimEnd (Js.trimStart (s +:+ pad)) = Js.trimEnd (Js.trimStart s).
Proof.
  intros Hpad.
  induction s as [s Hskip|s s' Hskip IH] using skip_ind.
  - destruct s as [|c s].
    + change ("" +:+ pad) with pad.
      now rewrite (proj1 (blank_trimStart pad) Hpad).
    + rewrite (trimStart_step (String c s)), Hskip.
      rewrite trimStart_step, (skip_app_None _ _ Hskip)
        by (discriminate || (intros a rest; now apply blank_starts_clean)).
      now apply trimEnd_padding.
  - now rewrite (trimStart_step s), Hskip, trimStart_step, (skip_app_Some _ _ _ Hskip).
Qed.

Lemma trim_padding (before s after : string) :
  Js.blank before = true ->
  Js.blank after = true ->
  Js.trim (before +:+ s +:+ after) = Js.trim s.
Proof.
  intros Hbefore Hafter. unfold Js.trim.
  rewrite (trimStart_padding _ _ Hbefore). now apply trimStart_app.
Qed.

Lemma trimStart_suffix (p : string) :
  exists q, Js.trimStart (p +:+ "/") = q +:+ "/".
Proof.
  induction p as [p Hskip|p p' Hskip IH] using skip_ind.
  - destruct p as [|c p]; [now exists ""|].
    rewrite trimStart_step, (skip_app_None _ _ Hskip)
      by (discriminate || (intros a rest [= <- _]; left; now apply Nat.ltb_lt)).
    now exists (String c p).
  - now rewrite trimStart_step, (skip_app_Some _ _ _ Hskip).
Qed.

Lemma trimEnd_slash (q : string) : Js.trimEnd (q +:+ "/") <> "".
Proof.
  intros Hblank%trimEnd_empty_iff%blank_trimStart.
  destruct (trimStart_suffix q) as [q' Hq]. rewrite Hq in Hblank.
  destruct q'; discriminate.
Qed.

(** A key that ends with [/] is not blank. *)
Lemma trim_directory_key (key : string) :
  Js.endsWith key "/" = true -> Js.truthy key = true /\ String.eqb (Js.trim key) "" = false.
Proof.
  intros [p ->]%endsWith_spec. split.
  - apply truthy_spec. destruct p; discriminate.
  - apply String.eqb_neq. unfold Js.trim.
    destruct (trimStart_suffix p) as [q ->]. apply trimEnd_slash.
Qed.

(** ** The URI parser *)

Section UriParserFacts.

Variable parseS3Url : string -> result S3Object.t.

(** The three outcomes of [parseAndValidateS3Uri] once the package has
    returned an [S3Object]. *)
Lemma parse_after_success (uri : string) (s3Object : S3Object.t) :
  Js.trim uri <> "" ->
  parseS3Url (Js.trim uri) = Ok s3Object ->
  parseAndValidateS3Uri parseS3Url uri =
    Ok (if negb (Js.truthy (S3Object.key s3Object))
           || String.eqb (Js.trim (S3Object.key s3Object)) ""
        then {| ParsedS3Uri.bucket := S3Object.bucket s3Object;
                ParsedS3Uri.key := "";
                ParsedS3Uri.region := S3Object.region s3Object;
                ParsedS3Uri.isValid := false;
                ParsedS3Uri.errorMessage :=
                  Some "S3 URI must include a file key (not just a bucket or directory)" |}
        else if Js.endsWith (S3Object.key s3Object) "/"
        then {| ParsedS3Uri.bucket := S3Object.bucket s3Object;
                ParsedS3Uri.key := S3Object.key s3Object;
                ParsedS3Uri.region := S3Object.region s3Object;
                ParsedS3Uri.isValid := false;
                ParsedS3Uri.errorMessage :=
                  Some "S3 URI must point to a file, not a directory (URI ends with /)" |}
        else {| ParsedS3Uri.bucket := S3Object.bucket s3Object;
                ParsedS3Uri.key := S3Object.key s3Object;
                ParsedS3Uri.region := S3Object.region s3Object;
                ParsedS3Uri.isValid := true;
                ParsedS3Uri.errorMessage := None |}).
Proof.
  intros Hne Hparse. unfold parseAndValidateS3Uri.
  apply truthy_spec in Hne. rewrite Hne, Hparse. simpl.
  destruct (negb (Js.truthy (S3Object.key s3Object))
            || String.eqb (Js.trim (S3Object.key s3Object)) ""); [reflexivity|].
  destruct (Js.endsWith (S3Object.key s3Object) "/"); reflexivity.
Qed.

(** A valid locator comes from a successful call of the package on the
    trimmed input, and repeats its bucket, key and region. *)
Lemma valid_locator_origin (uri : string) (r : ParsedS3Uri.t) :
  parseAndValidateS3Uri parseS3Url uri = Ok r ->
  ParsedS3Uri.isValid r = true ->
  exists s3Object,
    parseS3Url (Js.trim uri) = Ok s3Object
    /\ ParsedS3Uri.bucket r = S3Object.bucket s3Object
    /\ ParsedS3Uri.key r = S3Object.key s3Object
    /\ ParsedS3Uri.region r = S3Object.region s3Object
    /\ Js.truthy (S3Object.key s3Object) = true
    /\ Js.endsWith (S3Object.key s3Object) "/" = false.
Proof.
  unfold parseAndValidateS3Uri. intros Hr Hvalid.
  destruct (negb (Js.truthy (Js.trim uri))).
  { simpl in Hr. injection Hr as <-. discriminate. }
  destruct (parseS3Url (Js.trim uri)) as [o|e]; simpl in Hr.
  2: { injection Hr as <-. discriminate. }
  destruct (Js.truthy (S3Object.key o)) eqn:Hkey; simpl in Hr.
  2: { injection Hr as <-. discriminate. }
  destruct (String.eqb (Js.trim (S3Object.key o)) ""); simpl in Hr.
  { injection Hr as <-. discriminate. }
  destruct (Js.endsWith (S3Object.key o) "/") eqn:Hdir; simpl in Hr.
  { injection Hr as <-. discriminate. }
  injection Hr as <-. exists o. simpl. repeat split; first [reflexivity | assumption].
Qed.

(** The handler's record, when the package throws. *)
Lemma parse_after_throw (uri : string) (error : JsError) :
  Js.trim uri <> "" ->
  parseS3Url (Js.trim uri) = Throw error ->
  parseAndValidateS3Uri parseS3Url uri =
    Ok {| ParsedS3Uri.bucket := "";
          ParsedS3Uri.key := "";
          ParsedS3Uri.region := None;
          ParsedS3Uri.isValid := false;
          ParsedS3Uri.errorMessage :=
            Some ("Failed to parse S3 URI: "
                  +:+ (if instanceofError error then Js.interp (message error)
                       else "Invalid S3 URI format")) |}.
Proof.
  intros Hne Hthrow. unfold parseAndValidateS3Uri.
  apply truthy_spec in Hne. now rewrite Hne, Hthrow.
Qed.

End UriParserFacts.




(** C4.  [parseAndValidateS3Uri] returns a record on every input, whatever
    [parseS3Url] does; when [parseS3Url] throws on the trimmed input the
    record is invalid and carries a message, which for a non-empty input is
    the thrown error's message (or a fixed text for a value that is not an
    [Error]) behind the prefix "Failed to parse S3 URI: ". *)
Theorem parse_never_raises
    (parseS3Url : string -> result S3Object.t) (uri : string) :
  (exists r, parseAndValidateS3Uri parseS3Url uri = Ok r)
  /\ (forall error,
        parseS3Url (Js.trim uri) = Throw error ->
        exists r msg,
          parseAndValidateS3Uri parseS3Url uri = Ok r
          /\ ParsedS3Uri.isValid r = false
          /\ ParsedS3Uri.errorMessage r = Some msg
          /\ msg <> ""
          /\ (Js.trim uri <> "" ->
              msg = "Failed to parse S3 URI: "
                    +:+ (if instanceofError error then Js.interp (message error)
                         else "Invalid S3 URI format"))).
Proof.
  unfold parseAndValidateS3Uri. split.
  - destruct (negb (Js.truthy (Js.trim uri))); [simpl; eauto|].
    destruct (parseS3Url (Js.trim uri)) as [o|e]; simpl; [|eauto].
    destruct (negb (Js.truthy (S3Object.key o)) || String.eqb (Js.trim (S3Object.key o)) "");
      [simpl; eauto|].
    destruct (Js.endsWith (S3Object.key o) "/"); simpl; eauto.
  - intros error Hthrow. rewrite Hthrow.
    destruct (Js.truthy (Js.trim uri)) eqn:Hne; simpl.
    + do 2 eexists. split; [reflexivity|]. simpl.
      split; [reflexivity|]. split; [reflexivity|]. split; [discriminate|reflexivity].
    + do 2 eexists. split; [reflexivity|]. simpl.
      split; [reflexivity|]. split; [reflexivity|]. split; [discriminate|].
      intros Hne'%truthy_spec. congruence.
Qed.

Lemma parse_never_raises_witness :
  exists r msg,
    parseAndValidateS3Uri GlobalPath.parseS3Url "https://example.org/nothing" = Ok r
    /\ ParsedS3Uri.isValid r = false
    /\ ParsedS3Uri.errorMessage r = Some msg
    /\ msg <> ""
    /\ ("https://example.org/nothing" <> "" ->
        msg = "Failed to parse S3 URI: Invalid S3 URL: https://example.org/nothing").
Proof.
  exact (proj2 (parse_never_raises GlobalPath.parseS3Url "https://example.org/nothing")
           (newError "Invalid S3 URL: https://example.org/nothing") eq_refl).
Defined.

(** C7.  When [parseS3Url] succeeds on the trimmed input and the key it
    returns ends with [/], the locator is invalid with the "must point to a
    file, not a directory" message and keeps the parsed bucket, key and
    region.  In particular ["s3://bucket/dir/"], parsed with key ["dir/"],
    is invalid. *)
Theorem directory_key_is_invalid (parseS3Url : string -> result S3Object.t) :
  (forall uri s3Object,
      Js.trim uri <> "" ->
      parseS3Url (Js.trim uri) = Ok s3Object ->
      Js.endsWith (S3Object.key s3Object) "/" = true ->
      parseAndValidateS3Uri parseS3Url uri =
        Ok {| ParsedS3Uri.bucket := S3Object.bucket s3Object;
              ParsedS3Uri.key := S3Object.key s3Object;
              ParsedS3Uri.region := S3Object.region s3Object;
              ParsedS3Uri.isValid := false;
              ParsedS3Uri.errorMessage :=
                Some "S3 URI must point to a file, not a directory (URI ends with /)" |})
  /\ ((forall s3Object, parseS3Url "s3://bucket/dir/" = Ok s3Object ->
                        S3Object.key s3Object = "dir/") ->
      exists r, parseAndValidateS3Uri parseS3Url "s3://bucket/dir/" = Ok r
                /\ ParsedS3Uri.isValid r = false).
Proof.
  assert (Hgeneral : forall uri s3Object,
      Js.trim uri <> "" ->
      parseS3Url (Js.trim uri) = Ok s3Object ->
      Js.endsWith (S3Object.key s3Object) "/" = true ->
      parseAndValidateS3Uri parseS3Url uri =
        Ok {| ParsedS3Uri.bucket := S3Object.bucket s3Object;
              ParsedS3Uri.key := S3Object.key s3Object;
              ParsedS3Uri.region := S3Object.region s3Object;
              ParsedS3Uri.isValid := false;
              ParsedS3Uri.errorMessage :=
                Some "S3 URI must point to a file, not a directory (URI ends with /)" |}).
  { intros uri o Hne Hparse Hdir.
    rewrite (parse_after_success _ _ _ Hne Hparse).
    destruct (trim_directory_key _ Hdir) as [-> ->]. now rewrite Hdir. }
  split; [exact Hgeneral|].
  intros Hkey.
  destruct (parseS3Url "s3://bucket/dir/") as [o|e] eqn:Hparse.
  - eexists. split.
    + apply (Hgeneral "s3://bucket/dir/" o); [discriminate | exact Hparse |].
      now rewrite (Hkey o eq_refl).
    + reflexivity.
  - eexists. split.
    + apply (parse_after_throw parseS3Url "s3://bucket/dir/" e); [discriminate | exact Hparse].
    + reflexivity.
Qed.

Lemma directory_key_is_invalid_witness :
  parseAndValidateS3Uri GlobalPath.parseS3Url " s3://my-bucket/reports/2024/ " =
    Ok {| ParsedS3Uri.bucket := "my-bucket";
          ParsedS3Uri.key := "reports/2024/";
          ParsedS3Uri.region := None;
          ParsedS3Uri.isValid := false;
          ParsedS3Uri.errorMessage :=
            Some "S3 URI must point to a file, not a directory (URI ends with /)" |}
  /\ exists r, parseAndValidateS3Uri GlobalPath.parseS3Url "s3://bucket/dir/" = Ok r
               /\ ParsedS3Uri.isValid r = false.
Proof.
  split.
  - apply (proj1 (directory_key_is_invalid GlobalPath.parseS3Url)
             " s3://my-bucket/reports/2024/ "
             {| S3Object.bucket := "my-bucket"; S3Object.key := "reports/2024/";
                S3Object.region := None |});
      [discriminate | reflexivity | reflexivity].
  - apply (proj2 (directory_key_is_invalid GlobalPath.parseS3Url)).
    intros o. vm_compute. intros [= <-]. reflexivity.
Defined.

(** ** Running monadic code *)

(** Unfold the monad and the logger, and compute up to the next answer of
    the host. *)
Ltac run :=
  unfold mbind, M_bind, mret, M_ret, throw, try_catchM, when,
    log_debug, log_info, log_warn, log_error, logAt;
  cbn -[Js.or_else Js.truthy Js.truthy_opt Js.interp Js.trim String.eqb String.append
        isPermanentRedirect endpointMatch errorToString pretty].

(** Close a goal [exists w', run = Some (r, w') /\ files w' = _ /\ calls w' = _]
    once the run has been computed. *)
Ltac settle :=
  solve [ eauto
        | eexists; split;
          [ reflexivity
          | split; [reflexivity | cbn; rewrite <- ?app_assoc; reflexivity] ] ].

(** ** Region discovery *)

Lemma redirectRegion_Some (error : JsError) (r : string) :
  redirectRegion error = Some r <->
  isPermanentRedirect error = true /\ endpointMatch error = Some r /\ r <> "s3".
Proof.
  unfold redirectRegion. split.
  - destruct (isPermanentRedirect error); [|discriminate].
    destruct (endpointMatch error) as [g|]; [|discriminate].
    destruct (String.eqb g "s3") eqn:Hg; simpl; [discriminate|].
    intros [= ->]. apply String.eqb_neq in Hg. auto.
  - intros (-> & -> & Hr). apply String.eqb_neq in Hr. now rewrite Hr.
Qed.

Section DiscoveryFacts.

Variable host : Host.

Lemma detect_on_response bucketName logger w response :
  getBucketLocation host (calls w) "us-east-1" bucketName = Ok response ->
  exists w',
    detectBucketRegion host bucketName logger w =
      Some (Ok (let region := Js.or_else (LocationConstraint response) "us-east-1" in
                if String.eqb region "EU" then "eu-west-1" else region), w')
    /\ files w' = files w
    /\ calls w' = (calls w ++ [discoveryCall bucketName])%list.
Proof.
  intros Hanswer. unfold detectBucketRegion, sendGetBucketLocation.
  destruct logger; run; rewrite Hanswer; run;
    destruct (String.eqb (Js.or_else (LocationConstraint response) "us-east-1") "EU");
    run; eauto.
Qed.

Lemma detect_on_failure bucketName logger w error :
  getBucketLocation host (calls w) "us-east-1" bucketName = Throw error ->
  exists w',
    detectBucketRegion host bucketName logger w =
      Some (match redirectRegion error with
            | Some r => Ok r
            | None => Throw (newError ("Could not determine bucket region: "
                                       +:+ Js.or_else (message error) "Unknown error"))
            end, w')
    /\ files w' = files w
    /\ calls w' = (calls w ++ [discoveryCall bucketName])%list.
Proof.
  intros Hanswer. unfold detectBucketRegion, sendGetBucketLocation, redirectRegion.
  destruct logger; run; rewrite Hanswer; run;
    destruct (isPermanentRedirect error); run; eauto;
    destruct (endpointMatch error) as [g|]; run; eauto;
    destruct (String.eqb g "s3"); run; eauto.
Qed.

End DiscoveryFacts.

(** C8.  When the store answers the discovery request, [detectBucketRegion]
    returns [us-east-1] for an absent location constraint (undefined, or the
    empty string the store sends for that region), [eu-west-1] for the legacy
    constraint [EU], and any other constraint unchanged. *)
Theorem location_constraint_mapping
    (host : Host) (bucketName : string) (logger : option Logger) (w : World)
    (lc : option string) :
  getBucketLocation host (calls w) "us-east-1" bucketName = Ok {| LocationConstraint := lc |} ->
  exists region w',
    detectBucketRegion host bucketName logger w = Some (Ok region, w')
    /\ (lc = None -> region = "us-east-1")
    /\ (lc = Some "" -> region = "us-east-1")
    /\ (lc = Some "EU" -> region = "eu-west-1")
    /\ (forall marker, lc = Some marker -> marker <> "" -> marker <> "EU" -> region = marker).
Proof.
  intros Hanswer.
  destruct (detect_on_response host bucketName logger w _ Hanswer) as (w' & Hrun & _).
  do 2 eexists. split; [exact Hrun|]. simpl LocationConstraint.
  split; [now intros ->|]. split; [now intros ->|]. split; [now intros ->|].
  intros marker -> Hne HEU. unfold Js.or_else.
  apply truthy_spec in Hne. rewrite Hne.
  apply String.eqb_neq in HEU. now rewrite HEU.
Qed.

Lemma location_constraint_mapping_witness :
  exists region w',
    detectBucketRegion (Scenario.storeIn (Some "ap-south-1")) "logs"
      (Some Scenario.outputLogger) Scenario.emptyWorld = Some (Ok region, w')
    /\ (Some "ap-south-1" = None -> region = "us-east-1")
    /\ (Some "ap-south-1" = Some "" -> region = "us-east-1")
    /\ (Some "ap-south-1" = Some "EU" -> region = "eu-west-1")
    /\ (forall marker, Some "ap-south-1" = Some marker -> marker <> "" -> marker <> "EU" ->
                       region = marker).
Proof.
  exact (location_constraint_mapping (Scenario.storeIn (Some "ap-south-1")) "logs"
           (Some Scenario.outputLogger) Scenario.emptyWorld (Some "ap-south-1") eq_refl).
Defined.

Example detect_absent_constraint :
  fst <$> detectBucketRegion (Scenario.storeIn None) "logs" None Scenario.emptyWorld
  = Some (Ok "us-east-1").
Proof. reflexivity. Qed.

Example detect_legacy_EU :
  fst <$> detectBucketRegion (Scenario.storeIn (Some "EU")) "logs" None Scenario.emptyWorld
  = Some (Ok "eu-west-1").
Proof. reflexivity. Qed.

Example detect_other_constraint :
  fst <$> detectBucketRegion (Scenario.storeIn (Some "ap-south-1")) "logs" None
            Scenario.emptyWorld
  = Some (Ok "ap-south-1").
Proof. reflexivity. Qed.

(** ** Retrieval *)

Lemma newError_not_redirect (msg : string) : redirectRegion (newError msg) = None.
Proof. reflexivity. Qed.

Section RetrievalFacts.

Variable host : Host.

(** A region given with the locator is used as it is; no request is sent. *)
Lemma resolve_specified config logger w :
  Js.truthy_opt (S3Config.region config) = true ->
  exists w1,
    resolveRegion host config logger w = Some (Ok (Js.interp (S3Config.region config)), w1)
    /\ files w1 = files w
    /\ calls w1 = calls w.
Proof.
  intros Hset. unfold resolveRegion. rewrite Hset.
  destruct logger; run; eauto.
Qed.

(** Without a region, a failed discovery still yields a region: the one
    extracted from the error, else [AWS_REGION], else [us-east-1]. *)
Lemma resolve_after_failed_discovery config logger w error :
  Js.truthy_opt (S3Config.region config) = false ->
  getBucketLocation host (calls w) "us-east-1" (S3Config.bucket config) = Throw error ->
  exists w1,
    resolveRegion host config logger w =
      Some (Ok (match redirectRegion error with
                | Some r => r
                | None => Js.or_else (env host "AWS_REGION") "us-east-1"
                end), w1)
    /\ files w1 = files w
    /\ calls w1 = (calls w ++ [discoveryCall (S3Config.bucket config)])%list.
Proof.
  intros Hunset Hanswer.
  unfold resolveRegion, detectBucketRegion, sendGetBucketLocation, redirectRegion.
  rewrite Hunset.
  destruct logger; run; rewrite Hanswer; run;
    destruct (isPermanentRedirect error); run; eauto;
    destruct (endpointMatch error) as [g|]; run; eauto;
    destruct (String.eqb g "s3"); run; eauto.
Qed.

(** The fetch phase in full: one request; after a redirect that names a
    region, exactly one more, whose outcome is the outcome of the call. *)
Lemma fetch_run region config logger w :
  exists w',
    fetchObject host region config logger w =
      Some (match getObject host (calls w) region (S3Config.bucket config)
                    (S3Config.key config) with
            | Ok response => fetched (Ok response)
            | Throw error =>
                match redirectRegion error with
                | Some r =>
                    fetched (getObject host (calls w ++ [fetchCall region config]) r
                               (S3Config.bucket config) (S3Config.key config))
                | None => Throw error
                end
            end, w')
    /\ files w' = files w
    /\ calls w' =
       (calls w ++ fetchCall region config ::
          match getObject host (calls w) region (S3Config.bucket config)
                  (S3Config.key config) with
          | Ok _ => []
          | Throw error =>
              match redirectRegion error with
              | Some r => [fetchCall r config]
              | None => []
              end
          end)%list.
Proof.
  unfold fetchObject, sendGetObject, fetchCall, redirectRegion, fetched.
  destruct logger; run;
    (destruct (getObject host (calls w) region (S3Config.bucket config)
                 (S3Config.key config)) as [response|error]; run;
     [ destruct (Body response) as [body|]; run;
       [ destruct (ContentLength response) as [n|]; run;
         [destruct (negb (n =? 0)%N); run|];
         destruct (Js.truthy_opt (ContentType response)); run; settle
       | settle ]
     | destruct (isPermanentRedirect error); run; try settle;
       destruct (endpointMatch error) as [g|]; run; try settle;
       destruct (String.eqb g "s3"); run; try settle;
       destruct (getObject host _ g _ _) as [response2|error2]; run;
       [destruct (Body response2); run; settle | settle] ]).
Qed.

End RetrievalFacts.

Lemma getS3Object_run host config logger w region w1 :
  resolveRegion host config logger w = Some (Ok region, w1) ->
  getS3Object host config logger w = fetchObject host region config logger w1.
Proof. intros Hregion. unfold getS3Object, mbind, M_bind. now rewrite Hregion. Qed.

Lemma or_else_cases (o : option string) (d : string) :
  (forall s, o = Some s -> s <> "" -> Js.or_else o d = s)
  /\ (o = None \/ o = Some "" -> Js.or_else o d = d).
Proof.
  split.
  - intros s -> Hs%truthy_spec. unfold Js.or_else. now rewrite Hs.
  - intros [->| ->]; reflexivity.
Qed.

(** C1, as the code has it.  When the first fetch fails with a permanent
    redirect (name [PermanentRedirect] or status 301) whose message yields a
    region other than [s3], [getS3Object] sends exactly one more request,
    through a client bound to that region, and ends as that request ends: with
    the object, or with the error the retry threw, unchanged.  A second
    redirect is therefore not retried; it reaches the caller as the redirect
    error itself. *)
Theorem redirect_retried_once
    (host : Host) (config : S3Config.t) (logger : option Logger) (w w1 : World)
    (region r : string) (error : JsError) :
  resolveRegion host config logger w = Some (Ok region, w1) ->
  getObject host (calls w1) region (S3Config.bucket config) (S3Config.key config)
    = Throw error ->
  isPermanentRedirect error = true ->
  endpointMatch error = Some r ->
  r <> "s3" ->
  exists w',
    getS3Object host config logger w =
      Some (fetched (getObject host (calls w1 ++ [fetchCall region config]) r
                       (S3Config.bucket config) (S3Config.key config)), w')
    /\ calls w' = (calls w1 ++ [fetchCall region config; fetchCall r config])%list
    /\ forall error2,
         getObject host (calls w1 ++ [fetchCall region config]) r
           (S3Config.bucket config) (S3Config.key config) = Throw error2 ->
         getS3Object host config logger w = Some (Throw error2, w').
Proof.
  intros Hregion Hfirst Hredirect Hmatch Hr.
  assert (Hextract : redirectRegion error = Some r) by now apply redirectRegion_Some.
  rewrite (getS3Object_run _ _ _ _ _ _ Hregion).
  destruct (fetch_run host region config logger w1) as (w' & Hrun & _ & Hcalls).
  rewrite Hfirst, Hextract in Hrun, Hcalls.
  exists w'. split; [exact Hrun|]. split; [exact Hcalls|].
  intros error2 Hsecond. now rewrite Hrun, Hsecond.
Qed.

Lemma redirect_retried_once_witness :
  exists w',
    getS3Object Scenario.frankfurtStore Scenario.reportConfig None Scenario.emptyWorld =
      Some (Ok (downloadResult Scenario.report Scenario.reportObject), w')
    /\ calls w' = [fetchCall "us-east-1" Scenario.reportConfig;
                   fetchCall "eu-central-1" Scenario.reportConfig].
Proof.
  destruct (redirect_retried_once Scenario.frankfurtStore Scenario.reportConfig None
              Scenario.emptyWorld Scenario.emptyWorld "us-east-1" "eu-central-1"
              Scenario.redirectError eq_refl eq_refl eq_refl eq_refl)
    as (w' & Hrun & Hcalls & _); [discriminate|].
  exists w'. split; [exact Hrun | exact Hcalls].
Defined.

(** C1, as the claim has it, fails: when the retry is answered with a second
    redirect, the caller receives that [PermanentRedirect] error; no
    [RedirectLoop] error exists. *)
Lemma second_redirect_is_not_RedirectLoop :
  getObject Scenario.loopingStore [] "us-east-1" "logs" "reports/q1.txt"
    = Throw Scenario.redirectError
  /\ redirectRegion Scenario.redirectError = Some "eu-central-1"
  /\ getObject Scenario.loopingStore [fetchCall "us-east-1" Scenario.reportConfig]
       "eu-central-1" "logs" "reports/q1.txt" = Throw Scenario.redirectError
  /\ (exists w',
        getS3Object Scenario.loopingStore Scenario.reportConfig None Scenario.emptyWorld
          = Some (Throw Scenario.redirectError, w')
        /\ calls w' = [fetchCall "us-east-1" Scenario.reportConfig;
                       fetchCall "eu-central-1" Scenario.reportConfig])
  /\ name Scenario.redirectError = Some "PermanentRedirect"
  /\ ~ (exists error w',
          getS3Object Scenario.loopingStore Scenario.reportConfig None Scenario.emptyWorld
            = Some (Throw error, w')
          /\ name error = Some "RedirectLoop").
Proof.
  split; [reflexivity|]. split; [reflexivity|]. split; [reflexivity|].
  split; [eexists; split; [vm_compute; reflexivity | reflexivity]|].
  split; [reflexivity|].
  intros (error & w' & Hrun & Hname).
  vm_compute in Hrun. injection Hrun as <- _. discriminate.
Qed.

(** C3.  With no region on the locator, when the discovery request fails and
    the error yields no region, [getS3Object] goes on: the region is
    [AWS_REGION] if that is set and non-empty, else [us-east-1], the fetch
    is sent through a client bound to it right after the discovery request,
    and the call ends as the fetch phase ends. *)
Theorem discovery_failure_falls_back
    (host : Host) (config : S3Config.t) (logger : option Logger) (w : World)
    (error : JsError) :
  Js.truthy_opt (S3Config.region config) = false ->
  getBucketLocation host (calls w) "us-east-1" (S3Config.bucket config) = Throw error ->
  redirectRegion error = None ->
  let fallback := Js.or_else (env host "AWS_REGION") "us-east-1" in
  (forall r, env host "AWS_REGION" = Some r -> r <> "" -> fallback = r)
  /\ (env host "AWS_REGION" = None \/ env host "AWS_REGION" = Some "" ->
      fallback = "us-east-1")
  /\ exists w1 outcome w' rest,
       resolveRegion host config logger w = Some (Ok fallback, w1)
       /\ getS3Object host config logger w = fetchObject host fallback config logger w1
       /\ getS3Object host config logger w = Some (outcome, w')
       /\ calls w' = (calls w ++ discoveryCall (S3Config.bucket config)
                              :: fetchCall fallback config :: rest)%list
       /\ (forall response,
             getObject host (calls w ++ [discoveryCall (S3Config.bucket config)]) fallback
               (S3Config.bucket config) (S3Config.key config) = Ok response ->
             outcome = fetched (Ok response)).
Proof.
  intros Hunset Hanswer Hnone fallback.
  destruct (or_else_cases (env host "AWS_REGION") "us-east-1") as [Henv Hdefault].
  split; [exact Henv|]. split; [exact Hdefault|].
  destruct (resolve_after_failed_discovery host config logger w error Hunset Hanswer)
    as (w1 & Hregion & _ & Hcalls1).
  rewrite Hnone in Hregion. fold fallback in Hregion.
  destruct (fetch_run host fallback config logger w1) as (w' & Hrun & _ & Hcalls).
  rewrite Hcalls1 in Hrun, Hcalls.
  do 4 eexists. split; [exact Hregion|].
  split; [exact (getS3Object_run _ _ _ _ _ _ Hregion)|].
  split; [rewrite (getS3Object_run _ _ _ _ _ _ Hregion); exact Hrun|].
  split; [rewrite Hcalls, <- app_assoc; reflexivity|].
  intros response Hfetch. now rewrite Hfetch.
Qed.

Lemma discovery_failure_falls_back_witness :
  exists w' rest,
    getS3Object Scenario.deniedDiscovery Scenario.reportConfigNoRegion None
      Scenario.emptyWorld
      = Some (Ok (downloadResult Scenario.report Scenario.reportObject), w')
    /\ calls w' = discoveryCall "logs"
                  :: fetchCall "us-east-1" Scenario.reportConfigNoRegion :: rest.
Proof.
  destruct (discovery_failure_falls_back Scenario.deniedDiscovery
              Scenario.reportConfigNoRegion None Scenario.emptyWorld Scenario.accessDenied
              eq_refl eq_refl eq_refl)
    as (_ & _ & w1 & outcome & w' & rest & _ & _ & Hrun & Hcalls & Hok).
  rewrite (Hok Scenario.reportObject eq_refl) in Hrun.
  exists w', rest. split; [exact Hrun | exact Hcalls].
Defined.

(** C10.  An error whose endpoint match has the group [s3] yields no region
    in either place: [detectBucketRegion] throws "Could not determine bucket
    region", so that [getS3Object] falls back to [AWS_REGION] or
    [us-east-1]; and a fetch that fails with such an error is not retried,
    the error reaches the caller. *)
Theorem global_endpoint_is_no_region (error : JsError) :
  endpointMatch error = Some "s3" ->
  redirectRegion error = None
  /\ (forall host bucketName logger w,
        getBucketLocation host (calls w) "us-east-1" bucketName = Throw error ->
        exists w',
          detectBucketRegion host bucketName logger w =
            Some (Throw (newError ("Could not determine bucket region: "
                                   +:+ Js.or_else (message error) "Unknown error")), w')
          /\ calls w' = (calls w ++ [discoveryCall bucketName])%list)
  /\ (forall host config logger w,
        Js.truthy_opt (S3Config.region config) = false ->
        getBucketLocation host (calls w) "us-east-1" (S3Config.bucket config)
          = Throw error ->
        exists w1,
          resolveRegion host config logger w =
            Some (Ok (Js.or_else (env host "AWS_REGION") "us-east-1"), w1))
  /\ (forall host region config logger w,
        getObject host (calls w) region (S3Config.bucket config) (S3Config.key config)
          = Throw error ->
        exists w',
          fetchObject host region config logger w = Some (Throw error, w')
          /\ calls w' = (calls w ++ [fetchCall region config])%list).
Proof.
  intros Hmatch.
  assert (Hnone : redirectRegion error = None).
  { unfold redirectRegion. rewrite Hmatch. now destruct (isPermanentRedirect error). }
  split; [exact Hnone|]. split; [|split].
  - intros host bucketName logger w Hanswer.
    destruct (detect_on_failure host bucketName logger w error Hanswer)
      as (w' & Hrun & _ & Hcalls).
    rewrite Hnone in Hrun. eauto.
  - intros host config logger w Hunset Hanswer.
    destruct (resolve_after_failed_discovery host config logger w error Hunset Hanswer)
      as (w1 & Hregion & _).
    rewrite Hnone in Hregion. eauto.
  - intros host region config logger w Hfetch.
    destruct (fetch_run host region config logger w) as (w' & Hrun & _ & Hcalls).
    rewrite Hfetch, Hnone in Hrun, Hcalls. eauto.
Qed.

Lemma global_endpoint_is_no_region_witness :
  endpointMatch Scenario.globalEndpointError = Some "s3"
  /\ isPermanentRedirect Scenario.globalEndpointError = true
  /\ redirectRegion Scenario.globalEndpointError = None
  /\ (exists w1,
        resolveRegion Scenario.globalEndpointStore Scenario.reportConfigNoRegion None
          Scenario.emptyWorld = Some (Ok "us-east-1", w1))
  /\ (exists w',
        fetchObject Scenario.globalEndpointStore "us-west-2" Scenario.reportConfig None
          Scenario.emptyWorld = Some (Throw Scenario.globalEndpointError, w')
        /\ calls w' = [fetchCall "us-west-2" Scenario.reportConfig]).
Proof.
  destruct (global_endpoint_is_no_region Scenario.globalEndpointError eq_refl)
    as (Hnone & _ & Hresolve & Hfetch).
  split; [reflexivity|]. split; [reflexivity|]. split; [exact Hnone|]. split.
  - exact (Hresolve Scenario.globalEndpointStore Scenario.reportConfigNoRegion None
             Scenario.emptyWorld eq_refl eq_refl).
  - exact (Hfetch Scenario.globalEndpointStore "us-west-2" Scenario.reportConfig None
             Scenario.emptyWorld eq_refl).
Defined.

(** ** Destination folder *)

Lemma blank_test (p : string) :
  negb (Js.truthy p) || String.eqb (Js.trim p) "" = String.eqb (Js.trim p) "".
Proof.
  destruct (Js.truthy p) eqn:Hp; [reflexivity|].
  unfold Js.truthy in Hp. apply negb_false_iff, String.eqb_eq in Hp. now subst p.
Qed.

Section LocationFacts.

Context {node_path : PathApi}.
Variable host : Host.

(** The lines [getCustomDownloadFolder] logs before it falls back. *)
Lemma custom_folder_fallback customPath logger w :
  Js.trim customPath = ""
  \/ path_isAbsolute customPath = false
  \/ files w !! path_dirname customPath = None ->
  exists w',
    getCustomDownloadFolder host customPath logger w
      = Some (Ok (getSystemDownloadsFolder host), w')
    /\ files w' = files w
    /\ calls w' = calls w
    /\ log w' =
       (log w ++
          match logger with
          | None => []
          | Some _ =>
              if String.eqb (Js.trim customPath) "" then
                [(WARNING, "Custom download path is empty, falling back to Downloads folder")]
              else if negb (path_isAbsolute customPath) then
                [(ERROR, "Custom download path must be absolute: " +:+ customPath);
                 (WARNING, "Falling back to Downloads folder")]
              else
                [(DEBUG, "Using custom download path: " +:+ customPath);
                 (ERROR, "Parent directory does not exist: " +:+ path_dirname customPath);
                 (WARNING, "Falling back to Downloads folder")]
          end)%list.
Proof.
  intros Hbad. unfold getCustomDownloadFolder, existsSync. rewrite blank_test.
  destruct (String.eqb (Js.trim customPath) "") eqn:Hblank.
  { destruct logger; run; eexists; repeat split; cbn; now rewrite ?app_nil_r. }
  destruct (path_isAbsolute customPath) eqn:Habs; simpl negb; cbv iota.
  2: { destruct logger; run; eexists; repeat split; cbn;
       now rewrite <- ?app_assoc, ?app_nil_r. }
  destruct Hbad as [Hbad|[Hbad|Hbad]].
  - apply String.eqb_neq in Hblank. contradiction.
  - discriminate.
  - destruct logger; run; rewrite Hbad; run; eexists; repeat split; cbn;
      now rewrite <- ?app_assoc, ?app_nil_r.
Qed.

Lemma configured_custom_folder logger w :
  downloadLocation (configuration host) = "custom" ->
  getConfiguredDownloadFolder host logger w =
    if alwaysPromptForLocation (configuration host) then
      (log_debug logger "Always prompt for location is enabled";; mret None) w
    else
      (folder ← getCustomDownloadFolder host (customDownloadPath (configuration host)) logger;
       mret (Some folder)) w.
Proof.
  intros Hcustom. unfold getConfiguredDownloadFolder, getSettings.
  rewrite Hcustom. now destruct (alwaysPromptForLocation (configuration host)).
Qed.

End LocationFacts.

(** C6.  With the custom strategy and a custom path that is empty (or
    blank), not absolute, or whose parent directory does not exist,
    [getCustomDownloadFolder] returns the downloads folder and, given a
    logger, logs a warning last (after an error line in the last two
    cases); the lines are the ones listed.  [getConfiguredDownloadFolder]
    does not throw: when the "always prompt" setting lets the strategy be
    consulted it returns the downloads folder and leaves the very world
    [getCustomDownloadFolder] leaves, with these lines in the log;
    otherwise it returns [null]. *)
Theorem bad_custom_path_falls_back
    {node_path : PathApi} (host : Host) (logger : option Logger) (w : World) :
  downloadLocation (configuration host) = "custom" ->
  Js.trim (customDownloadPath (configuration host)) = ""
  \/ path_isAbsolute (customDownloadPath (configuration host)) = false
  \/ files w !! path_dirname (customDownloadPath (configuration host)) = None ->
  exists w',
    getCustomDownloadFolder host (customDownloadPath (configuration host)) logger w
      = Some (Ok (getSystemDownloadsFolder host), w')
    /\ files w' = files w
    /\ calls w' = calls w
    /\ (forall l, logger = Some l ->
          exists lines text,
            log w' = (log w ++ lines ++ [(WARNING, text)])%list
            /\ (Js.trim (customDownloadPath (configuration host)) <> "" ->
                exists text', (ERROR, text') ∈ lines))
    /\ log w' =
       (log w ++
          match logger with
          | None => []
          | Some _ =>
              if String.eqb (Js.trim (customDownloadPath (configuration host))) "" then
                [(WARNING, "Custom download path is empty, falling back to Downloads folder")]
              else if negb (path_isAbsolute (customDownloadPath (configuration host))) then
                [(ERROR, "Custom download path must be absolute: "
                         +:+ customDownloadPath (configuration host));
                 (WARNING, "Falling back to Downloads folder")]
              else
                [(DEBUG, "Using custom download path: "
                         +:+ customDownloadPath (configuration host));
                 (ERROR, "Parent directory does not exist: "
                         +:+ path_dirname (customDownloadPath (configuration host)));
                 (WARNING, "Falling back to Downloads folder")]
          end)%list
    /\ (alwaysPromptForLocation (configuration host) = false ->
        getConfiguredDownloadFolder host logger w
          = Some (Ok (Some (getSystemDownloadsFolder host)), w'))
    /\ (alwaysPromptForLocation (configuration host) = true ->
        exists w'',
          getConfiguredDownloadFolder host logger w = Some (Ok None, w'')
          /\ files w'' = files w /\ calls w'' = calls w).
Proof.
  set (customPath := customDownloadPath (configuration host)).
  intros Hcustom Hbad.
  destruct (custom_folder_fallback host customPath logger w Hbad)
    as (w' & Hrun & Hfiles & Hcalls & Hlog).
  exists w'. split; [exact Hrun|]. split; [exact Hfiles|]. split; [exact Hcalls|].
  split; [|split; [exact Hlog|]].
  - intros l ->. rewrite Hlog.
    destruct (String.eqb (Js.trim customPath) "") eqn:Hblank.
    + exists [], "Custom download path is empty, falling back to Downloads folder".
      split; [reflexivity|]. apply String.eqb_eq in Hblank. contradiction.
    + destruct (negb (path_isAbsolute customPath)).
      * eexists [_], _. split; [reflexivity|]. intros _. eexists. apply list_elem_of_here.
      * eexists [_; _], _. split; [reflexivity|]. intros _. eexists.
        apply list_elem_of_further, list_elem_of_here.
  - rewrite (configured_custom_folder host logger w Hcustom).
    split; intros ->.
    + fold customPath. unfold mbind, M_bind. rewrite Hrun. reflexivity.
    + destruct logger; run; eexists; (split; [reflexivity|]); split; reflexivity.
Qed.

Lemma bad_custom_path_falls_back_witness :
  exists w',
    getConfiguredDownloadFolder (node_path := Posix.api)
      (Scenario.customHost "downloads/s3" false) (Some Scenario.outputLogger)
      Scenario.emptyWorld = Some (Ok (Some "/home/ada/Downloads"), w')
    /\ files w' = ∅
    /\ log w' = [(ERROR, "Custom download path must be absolute: downloads/s3");
                 (WARNING, "Falling back to Downloads folder")].
Proof.
  destruct (bad_custom_path_falls_back (node_path := Posix.api)
              (Scenario.customHost "downloads/s3" false) (Some Scenario.outputLogger)
              Scenario.emptyWorld eq_refl (or_intror (or_introl eq_refl)))
    as (w' & _ & Hfiles & _ & _ & Hlog & Hrun & _).
  exists w'. split; [exact (Hrun eq_refl)|]. split; [exact Hfiles | exact Hlog].
Defined.

(** The empty custom path: the downloads folder, and one warning. *)
Example empty_custom_path :
  getConfiguredDownloadFolder (node_path := Posix.api)
    (Scenario.customHost "" false) (Some Scenario.outputLogger) Scenario.emptyWorld
  = Some (Ok (Some "/home/ada/Downloads"),
          {| files := ∅;
             log := [(WARNING,
                      "Custom download path is empty, falling back to Downloads folder")];
             calls := [] |}).
Proof. reflexivity. Qed.

(** A custom path under a directory that does not exist. *)
Example orphan_custom_path :
  getConfiguredDownloadFolder (node_path := Posix.api)
    (Scenario.customHost "/srv/missing/s3" false) (Some Scenario.outputLogger)
    Scenario.emptyWorld
  = Some (Ok (Some "/home/ada/Downloads"),
          {| files := ∅;
             log := [(DEBUG, "Using custom download path: /srv/missing/s3");
                     (ERROR, "Parent directory does not exist: /srv/missing");
                     (WARNING, "Falling back to Downloads folder")];
             calls := [] |}).
Proof. reflexivity. Qed.

(** With "always prompt" set the custom path is not consulted. *)
Example always_prompt_before_custom_path :
  fst <$> getConfiguredDownloadFolder (node_path := Posix.api)
            (Scenario.customHost "" true) None Scenario.emptyWorld
  = Some (Ok None).
Proof. reflexivity. Qed.

(** Case analysis on the tests a run is stuck on. *)
Ltac split_run :=
  repeat (match goal with
          | |- context [if ?b then _ else _] => destruct b eqn:?
          | |- context [match ?x with Some _ => _ | None => _ end] => destruct x eqn:?
          | |- context [match ?x with [] => _ | _ :: _ => _ end] => destruct x eqn:?
          end; run).

Section PromptFacts.

Context {node_path : PathApi}.
Variable host : Host.

(** Folder resolution returns for every setting, and neither writes to the
    file system nor talks to the store. *)
Lemma configured_folder_total logger w :
  exists folder w1,
    getConfiguredDownloadFolder host logger w = Some (Ok folder, w1)
    /\ files w1 = files w
    /\ calls w1 = calls w.
Proof.
  unfold getConfiguredDownloadFolder, getSettings, getWorkspaceDownloadFolder,
    getSystemTempFolder, getCustomDownloadFolder, existsSync.
  destruct logger; run; split_run; eauto.
Qed.

(** "Always prompt" makes the prompt necessary. *)
Lemma always_prompt_requires_prompt logger w :
  alwaysPromptForLocation (configuration host) = true ->
  exists w1, getConfiguredDownloadFolder host logger w = Some (Ok None, w1).
Proof.
  intros Halways. unfold getConfiguredDownloadFolder, getSettings. rewrite Halways.
  destruct logger; run; eauto.
Qed.

(** Region resolution returns a region whatever the store answers. *)
Lemma resolve_total config logger w :
  exists region w1,
    resolveRegion host config logger w = Some (Ok region, w1)
    /\ files w1 = files w.
Proof.
  destruct (Js.truthy_opt (S3Config.region config)) eqn:Hregion.
  - destruct (resolve_specified host config logger w Hregion) as (w1 & H & Hf & _). eauto.
  - destruct (getBucketLocation host (calls w) "us-east-1" (S3Config.bucket config))
      as [response|error] eqn:Hanswer.
    + unfold resolveRegion, detectBucketRegion, sendGetBucketLocation. rewrite Hregion.
      destruct logger; run; rewrite Hanswer; run; split_run; eauto.
    + destruct (resolve_after_failed_discovery host config logger w error Hregion Hanswer)
        as (w1 & H & Hf & _). eauto.
Qed.

Lemma getS3Object_files config logger w :
  exists outcome w', getS3Object host config logger w = Some (outcome, w')
                     /\ files w' = files w.
Proof.
  destruct (resolve_total config logger w) as (region & w1 & Hregion & Hfiles1).
  rewrite (getS3Object_run _ _ _ _ _ _ Hregion).
  destruct (fetch_run host region config logger w1) as (w' & Hrun & Hfiles & _).
  do 2 eexists. split; [exact Hrun | congruence].
Qed.

End PromptFacts.

(** The run of [downloadToFile] up to the dismissed dialog. *)
Lemma cancelled_prompt_run
    {node_path : PathApi} (host : Host) (fuel : nat) (config : DownloadConfig.t)
    (logger : option Logger) (w w1 : World) (configuredFolder : option string) :
  Js.truthy_opt (DownloadConfig.folder config) = false ->
  getConfiguredDownloadFolder host logger w = Some (Ok configuredFolder, w1) ->
  Js.truthy_opt configuredFolder = false ->
  showOpenDialog host (getSystemDownloadsFolder host)
    ("Select download location for " +:+ DownloadConfig.fileName config) = None
  \/ showOpenDialog host (getSystemDownloadsFolder host)
       ("Select download location for " +:+ DownloadConfig.fileName config) = Some [] ->
  downloadToFile host fuel config logger w
    = Some (Throw (newError "Download cancelled - no folder selected"), w1).
Proof.
  intros Hfolder Hconfigured Hnone Hcancel.
  unfold downloadToFile, promptForDownloadLocation.
  rewrite Hfolder. unfold mbind at 1, M_bind. unfold mbind at 1, M_bind.
  rewrite Hconfigured, Hnone.
  destruct Hcancel as [-> | ->]; run; reflexivity.
Qed.

(** C9.  When no folder is passed, the settings yield none, and the user
    dismisses the folder dialog, [downloadToFile] throws "Download cancelled -
    no folder selected" and leaves the file system as it was: no folder is
    created and no file is written. *)
Theorem cancelled_prompt_writes_nothing
    {node_path : PathApi} (host : Host) (fuel : nat) (config : DownloadConfig.t)
    (logger : option Logger) (w w1 : World) (configuredFolder : option string) :
  Js.truthy_opt (DownloadConfig.folder config) = false ->
  getConfiguredDownloadFolder host logger w = Some (Ok configuredFolder, w1) ->
  Js.truthy_opt configuredFolder = false ->
  showOpenDialog host (getSystemDownloadsFolder host)
    ("Select download location for " +:+ DownloadConfig.fileName config) = None
  \/ showOpenDialog host (getSystemDownloadsFolder host)
       ("Select download location for " +:+ DownloadConfig.fileName config) = Some [] ->
  exists w',
    downloadToFile host fuel config logger w
      = Some (Throw (newError "Download cancelled - no folder selected"), w')
    /\ files w' = files w
    /\ calls w' = calls w.
Proof.
  intros Hfolder Hconfigured Hnone Hcancel.
  destruct (configured_folder_total host logger w) as (o & w0 & Hrun & Hfiles & Hcalls).
  rewrite Hconfigured in Hrun. injection Hrun as <- <-.
  exists w1. split; [|split; assumption].
  now apply cancelled_prompt_run with (configuredFolder := configuredFolder).
Qed.

Lemma cancelled_prompt_writes_nothing_witness :
  exists w',
    downloadToFile (node_path := Posix.api) Scenario.cancellingUser 8
      (Scenario.saveAnywhere "q1.txt") (Some Scenario.outputLogger) (Scenario.folderWith [])
      = Some (Throw (newError "Download cancelled - no folder selected"), w')
    /\ files w' = files (Scenario.folderWith [])
    /\ calls w' = [].
Proof.
  refine (cancelled_prompt_writes_nothing (node_path := Posix.api) Scenario.cancellingUser 8
            (Scenario.saveAnywhere "q1.txt") (Some Scenario.outputLogger)
            (Scenario.folderWith []) _ None eq_refl eq_refl eq_refl (or_introl eq_refl)).
Defined.

(** The same for the whole download: the object is fetched first, and the
    cancelled dialog leaves nothing on disk. *)
Lemma cancelled_download_writes_nothing
    {node_path : PathApi} (host : Host) (fuel : nat) (parsedUri : ParsedS3Uri.t)
    (logger : option Logger) (w : World) :
  alwaysPromptForLocation (configuration host) = true ->
  (forall defaultUri title, showOpenDialog host defaultUri title = None
                            \/ showOpenDialog host defaultUri title = Some []) ->
  exists error w',
    downloadWithProgress host fuel parsedUri logger w = Some (Throw error, w')
    /\ files w' = files w.
Proof.
  intros Halways Hcancel. unfold downloadWithProgress.
  match goal with |- context [getS3Object host ?c logger] => set (config := c) end.
  destruct (getS3Object_files host config logger w) as (outcome & w1 & Hfetch & Hfiles1).
  unfold mbind at 1, M_bind. rewrite Hfetch.
  destruct outcome as [s3Result|error]; [|eauto].
  match goal with |- context [downloadToFile host fuel ?c logger] => set (save := c) end.
  destruct (always_prompt_requires_prompt host logger w1 Halways) as (w2 & Hconfigured).
  destruct (configured_folder_total host logger w1) as (o & w0 & Hrun & Hfiles & _).
  rewrite Hconfigured in Hrun. injection Hrun as <- <-.
  unfold mbind, M_bind.
  rewrite (cancelled_prompt_run host fuel save logger w1 w2 None
             eq_refl Hconfigured eq_refl (Hcancel _ _)).
  do 2 eexists. split; [reflexivity | congruence].
Qed.

(** ** Collision-free names *)

Section UniquePathFacts.

Context {node_path : PathApi}.

Lemma existsSync_run p w :
  existsSync p w = Some (Ok (bool_decide (is_Some (files w !! p))), w).
Proof. reflexivity. Qed.

(** The loop only reads the file system. *)
Lemma uniqueLoop_world fuel : forall counter folderPath nameWithoutExt ext uniquePath w r w',
  uniqueLoop fuel counter folderPath nameWithoutExt ext uniquePath w = Some (r, w') ->
  w' = w.
Proof.
  induction fuel as [|fuel IH]; intros counter folderPath nameWithoutExt ext uniquePath w r w';
    cbn [uniqueLoop]; [discriminate|].
  unfold mbind, M_bind. rewrite existsSync_run.
  destruct (bool_decide (is_Some (files w !! uniquePath))); [apply IH|].
  now intros [= _ <-].
Qed.

(** A path that does not exist ends the loop at once. *)
Lemma uniqueLoop_free fuel counter folderPath nameWithoutExt ext uniquePath w :
  files w !! uniquePath = None ->
  uniqueLoop (S fuel) counter folderPath nameWithoutExt ext uniquePath w
    = Some (Ok uniquePath, w).
Proof.
  intros Hfree. cbn [uniqueLoop]. unfold mbind, M_bind.
  rewrite existsSync_run, Hfree. reflexivity.
Qed.

(** From counter [c] on, the loop returns the first candidate [c], [c+1],
    ... that does not exist, provided the fuel reaches it. *)
Lemma uniqueLoop_scan folderPath filename w n :
  files w !! candidate folderPath filename n = None ->
  forall fuel c uniquePath,
    c <= n ->
    n - c + 2 <= fuel ->
    is_Some (files w !! uniquePath) ->
    (forall k, c <= k < n -> is_Some (files w !! candidate folderPath filename k)) ->
    uniqueLoop fuel c folderPath (path_basename filename (path_extname filename))
      (path_extname filename) uniquePath w
      = Some (Ok (candidate folderPath filename n), w).
Proof.
  intros Hfree. induction fuel as [|fuel IH]; intros c uniquePath Hc Hfuel Htaken Hbelow;
    [lia|].
  cbn [uniqueLoop]. unfold mbind, M_bind.
  rewrite existsSync_run, (bool_decide_eq_true_2 _ Htaken).
  fold (candidate folderPath filename c).
  destruct (decide (c = n)) as [->|Hne].
  - destruct fuel as [|fuel]; [lia|]. now apply uniqueLoop_free.
  - apply IH; [lia | lia | apply Hbelow; lia | intros k Hk; apply Hbelow; lia].
Qed.

Lemma getUniqueFilePath_world fuel folderPath filename w r w' :
  getUniqueFilePath fuel folderPath filename w = Some (r, w') -> w' = w.
Proof.
  unfold getUniqueFilePath, mbind, M_bind. rewrite existsSync_run.
  destruct (bool_decide (is_Some (files w !! path_join folderPath filename))); simpl.
  - apply uniqueLoop_world.
  - now intros [= _ <-].
Qed.

Lemma getUniqueFilePath_free fuel folderPath filename w :
  files w !! path_join folderPath filename = None ->
  getUniqueFilePath fuel folderPath filename w
    = Some (Ok (path_join folderPath filename), w).
Proof.
  intros Hfree. unfold getUniqueFilePath, mbind, M_bind.
  rewrite existsSync_run, Hfree. reflexivity.
Qed.

Lemma getUniqueFilePath_scan fuel folderPath filename w n :
  is_Some (files w !! path_join folderPath filename) ->
  1 <= n < fuel ->
  (forall k, 1 <= k < n -> is_Some (files w !! candidate folderPath filename k)) ->
  files w !! candidate folderPath filename n = None ->
  getUniqueFilePath fuel folderPath filename w
    = Some (Ok (candidate folderPath filename n), w).
Proof.
  intros Htaken [Hn Hfuel] Hbelow Hfree.
  unfold getUniqueFilePath, mbind, M_bind.
  rewrite existsSync_run, (bool_decide_eq_true_2 _ Htaken). simpl negb. cbv iota.
  apply uniqueLoop_scan; [exact Hfree | exact Hn | lia | exact Htaken | exact Hbelow].
Qed.

End UniquePathFacts.

(** C5.  [getUniqueFilePath] returns [folder/fileName] when nothing exists
    there; otherwise it returns the candidate [name_n.ext] with the lowest
    [n >= 1] that does not exist, as soon as the fuel allows [n + 1] tests of
    the loop condition.  Through [downloadToFile] with [overwrite] unset, a
    folder holding [a.txt] receives [a_1.txt], and one holding [a.txt] and
    [a_1.txt] receives [a_2.txt]. *)
Theorem lowest_free_suffix_wins
    {node_path : PathApi} (fuel : nat) (folderPath filename : string) (w : World) :
  (files w !! path_join folderPath filename = None ->
   getUniqueFilePath fuel folderPath filename w
     = Some (Ok (path_join folderPath filename), w))
  /\ (forall n,
        is_Some (files w !! path_join folderPath filename) ->
        1 <= n < fuel ->
        (forall k, 1 <= k < n -> is_Some (files w !! candidate folderPath filename k)) ->
        files w !! candidate folderPath filename n = None ->
        getUniqueFilePath fuel folderPath filename w
          = Some (Ok (candidate folderPath filename n), w))
  /\ (exists r w',
        downloadToFile (node_path := Posix.api) (Scenario.storeIn None) 2
          (Scenario.saveAs "a.txt") None (Scenario.folderWith ["a.txt"]) = Some (Ok r, w')
        /\ DownloadResult.filePath r = "/d/a_1.txt"
        /\ files w' !! "/d/a_1.txt" = Some (File "q1 figures")
        /\ files w' !! "/d/a.txt" = Some (File "old"))
  /\ (exists r w',
        downloadToFile (node_path := Posix.api) (Scenario.storeIn None) 3
          (Scenario.saveAs "a.txt") None (Scenario.folderWith ["a.txt"; "a_1.txt"])
          = Some (Ok r, w')
        /\ DownloadResult.filePath r = "/d/a_2.txt"
        /\ files w' !! "/d/a_2.txt" = Some (File "q1 figures")).
Proof.
  split; [|split; [|split]].
  - apply getUniqueFilePath_free.
  - intros n. apply getUniqueFilePath_scan.
  - do 2 eexists. split; [vm_compute; reflexivity|].
    split; [reflexivity|]. split; reflexivity.
  - do 2 eexists. split; [vm_compute; reflexivity|].
    split; reflexivity.
Qed.

Lemma lowest_free_suffix_wins_witness :
  getUniqueFilePath (node_path := Posix.api) 5 "/d" "a.txt"
    (Scenario.folderWith ["a.txt"; "a_1.txt"])
  = Some (Ok "/d/a_2.txt", Scenario.folderWith ["a.txt"; "a_1.txt"]).
Proof.
  apply (proj1 (proj2 (lowest_free_suffix_wins (node_path := Posix.api) 5 "/d" "a.txt"
                         (Scenario.folderWith ["a.txt"; "a_1.txt"]))) 2).
  - vm_compute. eauto.
  - lia.
  - intros k Hk. assert (k = 1) as -> by lia. vm_compute. eauto.
  - vm_compute. reflexivity.
Defined.

(** The file that is already there is kept when [overwrite] is unset, and
    replaced when it is set. *)
Example overwrite_replaces :
  exists r w',
    downloadToFile (node_path := Posix.api) (Scenario.storeIn None) 0
      {| DownloadConfig.stream := Scenario.report;
         DownloadConfig.fileName := "a.txt";
         DownloadConfig.folder := Some "/d";
         DownloadConfig.overwrite := Some true |} None (Scenario.folderWith ["a.txt"])
      = Some (Ok r, w')
    /\ DownloadResult.filePath r = "/d/a.txt"
    /\ files w' !! "/d/a.txt" = Some (File "q1 figures").
Proof. do 2 eexists. split; [vm_compute; reflexivity|]. split; reflexivity. Qed.

(** ** The loop ends *)

Section Termination.

Context {node_path : PathApi}.

Variables folderPath filename : string.

(** Distinct counters give distinct candidate paths. *)
Hypothesis candidate_inj :
  forall m k, candidate folderPath filename m = candidate folderPath filename k -> m = k.

(** Candidates [1 .. b] cannot all exist once [b] exceeds the number of
    existing paths. *)
Lemma taken_candidates_bounded (w : World) (b : nat) :
  (forall k, 1 <= k <= b -> is_Some (files w !! candidate folderPath filename k)) ->
  b <= size (files w).
Proof.
  intros Htaken.
  set (l := candidate folderPath filename <$> seq 1 b).
  assert (Hnodup : NoDup l).
  { apply NoDup_fmap_2; [intros m k; apply candidate_inj | apply NoDup_seq]. }
  assert (Hsub : (list_to_set l : gset string) ⊆ dom (files w)).
  { intros p [k [-> Hk]]%elem_of_list_to_set%list_elem_of_fmap.
    apply elem_of_dom, Htaken. apply elem_of_seq in Hk. lia. }
  apply subseteq_size in Hsub.
  rewrite size_list_to_set, size_dom in Hsub by exact Hnodup.
  unfold l in Hsub. rewrite length_fmap, length_seq in Hsub. exact Hsub.
Qed.

(** Below any bound, either a lowest free candidate exists or all are taken. *)
Lemma lowest_free_or_all_taken (w : World) (b : nat) :
  (exists n, 1 <= n <= b
             /\ files w !! candidate folderPath filename n = None
             /\ forall k, 1 <= k < n -> is_Some (files w !! candidate folderPath filename k))
  \/ (forall k, 1 <= k <= b -> is_Some (files w !! candidate folderPath filename k)).
Proof.
  induction b as [|b [(n & Hn & Hfree & Hbelow)|Hall]].
  - right. intros k Hk. lia.
  - left. exists n. split; [lia | auto].
  - destruct (files w !! candidate folderPath filename (S b)) eqn:Hnext.
    + right. intros k Hk. destruct (decide (k = S b)) as [->|]; [eauto | apply Hall; lia].
    + left. exists (S b). split; [lia|]. split; [exact Hnext|].
      intros k Hk. apply Hall. lia.
Qed.

(** With one unit of fuel per existing path and two to spare,
    [getUniqueFilePath] returns a path that does not exist. *)
Lemma getUniqueFilePath_terminates (w : World) (fuel : nat) :
  size (files w) + 2 <= fuel ->
  exists p,
    getUniqueFilePath fuel folderPath filename w = Some (Ok p, w)
    /\ files w !! p = None.
Proof.
  intros Hfuel.
  destruct (files w !! path_join folderPath filename) eqn:Hfirst.
  - destruct (lowest_free_or_all_taken w (S (size (files w))))
      as [(n & Hn & Hfree & Hbelow)|Hall].
    + exists (candidate folderPath filename n). split; [|exact Hfree].
      apply getUniqueFilePath_scan;
        [rewrite Hfirst; eauto | lia | exact Hbelow | exact Hfree].
    + apply taken_candidates_bounded in Hall. lia.
  - exists (path_join folderPath filename). split; [|exact Hfirst].
    now apply getUniqueFilePath_free.
Qed.

End Termination.

(** ** The materializer writes where [getUniqueFilePath] says *)

Lemma bind_Ok_inv {A B} (m : M A) (f : A -> M B) w b w' :
  (m ≫= f) w = Some (Ok b, w') ->
  exists a w1, m w = Some (Ok a, w1) /\ f a w1 = Some (Ok b, w').
Proof.
  unfold mbind, M_bind. destruct (m w) as [[[a|e] w1]|]; [eauto | discriminate..].
Qed.

Lemma logAt_inv level logger msg w u w' :
  logAt level logger msg w = Some (Ok u, w') ->
  files w' = files w /\ calls w' = calls w.
Proof. unfold logAt. destruct logger; intros [= _ <-]; auto. Qed.

Section MaterializerFacts.

Context {node_path : PathApi}.
Variable host : Host.

(** A successful [pipeline] leaves the bytes of the stream at [finalPath]. *)
Lemma pipeline_inv stream finalPath w u w' :
  pipeline host stream finalPath w = Some (Ok u, w') ->
  files w' = <[finalPath := File (chunks stream)]> (files w).
Proof.
  unfold pipeline. destruct (openFault host finalPath); [discriminate|].
  destruct (files w !! finalPath) as [[|content]|];
    try discriminate; destruct (failure stream); try discriminate; now intros [= _ <-].
Qed.

Lemma statSync_size_inv p w n w' :
  statSync_size p w = Some (Ok n, w') -> w' = w.
Proof.
  unfold statSync_size. destruct (files w !! p) as [[|content]|];
    try discriminate; now intros [= _ <-].
Qed.

(** With [overwrite] unset, the file is written at the path
    [getUniqueFilePath] returns in the world left by
    [ensureDownloadFolderExists]; nothing else on disk changes after that. *)
Lemma materialized_path fuel config logger w r w' :
  downloadToFile host fuel config logger w = Some (Ok r, w') ->
  DownloadConfig.overwrite config <> Some true ->
  exists w0 w1,
    files w0 = files w
    /\ ensureDownloadFolderExists host (DownloadResult.folder r) w0 = Some (Ok tt, w1)
    /\ getUniqueFilePath fuel (DownloadResult.folder r) (DownloadConfig.fileName config) w1
       = Some (Ok (DownloadResult.filePath r), w1)
    /\ files w' =
       <[DownloadResult.filePath r := File (chunks (DownloadConfig.stream config))]>
         (files w1).
Proof.
  unfold downloadToFile. intros Hrun Hunset.
  apply bind_Ok_inv in Hrun as (downloadFolder & w0 & Hfolder & Hrun).
  apply bind_Ok_inv in Hrun as ([] & w1 & Hensure & Hrun).
  apply bind_Ok_inv in Hrun as (finalPath & w2 & Hpath & Hrun).
  apply bind_Ok_inv in Hrun as (u1 & w3 & Hlog1 & Hrun).
  apply bind_Ok_inv in Hrun as (u2 & w4 & Hlog2 & Hrun).
  apply bind_Ok_inv in Hrun as (u3 & w5 & Hwrite & Hrun).
  apply bind_Ok_inv in Hrun as (size & w6 & Hstat & Hrun).
  apply bind_Ok_inv in Hrun as (u4 & w7 & Hlog3 & Hrun).
  injection Hrun as <- <-. simpl.
  rewrite (bool_decide_eq_false_2 _ Hunset) in Hpath.
  pose proof (getUniqueFilePath_world _ _ _ _ _ _ Hpath) as ->.
  apply logAt_inv in Hlog1 as [Hf1 _], Hlog2 as [Hf2 _], Hlog3 as [Hf3 _].
  apply pipeline_inv in Hwrite. apply statSync_size_inv in Hstat as ->.
  exists w0, w1. split; [|split; [exact Hensure|split; [exact Hpath|congruence]]].
  clear - Hfolder.
  destruct (Js.truthy_opt (DownloadConfig.folder config)).
  { now injection Hfolder as _ <-. }
  apply bind_Ok_inv in Hfolder as (configured & wa & Hconfigured & Hfolder).
  destruct (configured_folder_total host logger w) as (o & wb & Hrun & Hfiles & _).
  rewrite Hconfigured in Hrun. injection Hrun as <- <-.
  destruct (negb (Js.truthy_opt configured)).
  - apply bind_Ok_inv in Hfolder as (selected & wc & Hprompt & Hfolder).
    assert (wc = wa) as ->.
    { unfold promptForDownloadLocation in Hprompt.
      destruct (showOpenDialog host _ _) as [[|fsPath rest]|];
        now injection Hprompt as _ <-. }
    destruct (negb (Js.truthy_opt selected)); [discriminate|].
    apply bind_Ok_inv in Hfolder as (u & wd & Hlog & Hret).
    injection Hret as _ <-. apply logAt_inv in Hlog as [Hf _]. congruence.
  - apply bind_Ok_inv in Hfolder as (u & wd & Hlog & Hret).
    injection Hret as _ <-. apply logAt_inv in Hlog as [Hf _]. congruence.
Qed.

End MaterializerFacts.

(** ** The endpoint pattern *)

Lemma stripPrefix_spec (p s r : string) :
  Js.stripPrefix p s = Some r <-> s = p +:+ r.
Proof.
  revert s. induction p as [|a p IH]; intros s; simpl.
  - split; [now intros [= ->] | now intros ->].
  - destruct s as [|b s]; [split; discriminate|].
    destruct (Ascii.eqb a b) eqn:Hab.
    + apply Ascii.eqb_eq in Hab as ->. rewrite IH. split; [now intros -> | now intros [= ->]].
    + apply Ascii.eqb_neq in Hab. split; [discriminate | intros [= <- _]; contradiction].
Qed.

(** What a group match means: a non-empty run of [[a-z0-9-]] followed by
    [.amazonaws.com]. *)
Lemma matchGroup_sound (s g : string) :
  EndpointRegex.matchGroup s = Some g ->
  g <> "" /\ allChars EndpointRegex.isRegionChar g = true
  /\ exists rest, s = g +:+ ".amazonaws.com" +:+ rest.
Proof.
  revert g. induction s as [|c s IH]; intros g; cbn [EndpointRegex.matchGroup]; [discriminate|].
  destruct (EndpointRegex.isRegionChar c) eqn:Hc; [|discriminate].
  destruct (EndpointRegex.matchGroup s) as [g'|].
  - intros [= <-]. destruct (IH g' eq_refl) as (_ & Hall & rest & ->).
    split; [discriminate|]. split; [cbn [allChars]; now rewrite Hc|]. now exists rest.
  - destruct (Js.stripPrefix ".amazonaws.com" s) as [rest|] eqn:Hrest; [|discriminate].
    intros [= <-]. apply stripPrefix_spec in Hrest as ->.
    split; [discriminate|]. split; [cbn [allChars]; now rewrite Hc|]. now exists rest.
Qed.

(** The run is maximal: the pattern continues with a dot, which is not in
    the class, so a match on such a text returns the whole run. *)
Lemma matchGroup_complete (g rest : string) :
  g <> "" -> allChars EndpointRegex.isRegionChar g = true ->
  EndpointRegex.matchGroup (g +:+ ".amazonaws.com" +:+ rest) = Some g.
Proof.
  induction g as [|c g IH]; [contradiction|]. intros _ Hall.
  cbn [allChars] in Hall. apply andb_true_iff in Hall as [Hc Hall].
  change (String c g +:+ ".amazonaws.com" +:+ rest)
    with (String c (g +:+ ".amazonaws.com" +:+ rest)).
  cbn [EndpointRegex.matchGroup]. rewrite Hc.
  destruct g as [|c' g].
  - reflexivity.
  - now rewrite IH.
Qed.

(** [exec] returns the group of a match of the whole pattern somewhere in
    the text. *)
Lemma exec_sound (s g : string) :
  EndpointRegex.exec s = Some g ->
  exists before sep rest,
    s = before +:+ "s3" +:+ String sep (g +:+ ".amazonaws.com" +:+ rest)
    /\ EndpointRegex.isSeparator sep = true
    /\ g <> ""
    /\ allChars EndpointRegex.isRegionChar g = true.
Proof.
  assert (Hhere : forall t, EndpointRegex.matchHere t = Some g ->
            exists sep rest,
              t = "s3" +:+ String sep (g +:+ ".amazonaws.com" +:+ rest)
              /\ EndpointRegex.isSeparator sep = true
              /\ g <> "" /\ allChars EndpointRegex.isRegionChar g = true).
  { intros t. unfold EndpointRegex.matchHere.
    destruct (Js.stripPrefix "s3" t) as [[|sep u]|] eqn:Ht; try discriminate.
    destruct (EndpointRegex.isSeparator sep) eqn:Hsep; [|discriminate].
    intros (Hg & Hall & rest & ->)%matchGroup_sound.
    apply stripPrefix_spec in Ht as ->. now exists sep, rest. }
  induction s as [|c s IH]; cbn [EndpointRegex.exec].
  - destruct (EndpointRegex.matchHere "") eqn:Hm; [|discriminate].
    intros [= ->]. destruct (Hhere _ Hm) as (sep & rest & Heq & H). now exists "", sep, rest.
  - destruct (EndpointRegex.matchHere (String c s)) eqn:Hm.
    + intros [= ->]. destruct (Hhere _ Hm) as (sep & rest & Heq & H).
      now exists "", sep, rest.
    + intros (before & sep & rest & -> & H)%IH. now exists (String c before), sep, rest.
Qed.

Lemma exec_unfold (s : string) :
  EndpointRegex.exec s =
    match EndpointRegex.matchHere s with
    | Some g => Some g
    | None =>
        match s with
        | String _ s' => EndpointRegex.exec s'
        | EmptyString => None
        end
    end.
Proof. destruct s; reflexivity. Qed.

(** A text that contains a match of the pattern is matched. *)
Lemma exec_complete (before rest g : string) (sep : ascii) :
  EndpointRegex.isSeparator sep = true ->
  g <> "" -> allChars EndpointRegex.isRegionChar g = true ->
  is_Some (EndpointRegex.exec
             (before +:+ "s3" +:+ String sep (g +:+ ".amazonaws.com" +:+ rest))).
Proof.
  intros Hsep Hg Hall.
  assert (Hhere : EndpointRegex.matchHere
                    ("s3" +:+ String sep (g +:+ ".amazonaws.com" +:+ rest)) = Some g).
  { unfold EndpointRegex.matchHere.
    change (Js.stripPrefix "s3" ("s3" +:+ String sep (g +:+ ".amazonaws.com" +:+ rest)))
      with (Some (String sep (g +:+ ".amazonaws.com" +:+ rest))).
    cbv beta iota. rewrite Hsep. now apply matchGroup_complete. }
  induction before as [|c before IH].
  - change ("" +:+ ?x) with x. rewrite exec_unfold, Hhere. eauto.
  - change (String c before +:+ ?x) with (String c (before +:+ x)).
    rewrite exec_unfold.
    destruct (EndpointRegex.matchHere (String c _)); [eauto | exact IH].
Qed.

Example endpoint_in_redirect_message :
  endpointMatch Scenario.redirectError = Some "eu-central-1".
Proof. reflexivity. Qed.

Example global_endpoint_has_no_match :
  EndpointRegex.exec "Please use the endpoint my-bucket.s3.amazonaws.com" = None.
Proof. reflexivity. Qed.

(** ** One download from end to end *)

Example download_after_redirect :
  exists r w',
    downloadWithProgress (node_path := Posix.api) Scenario.tempHost 4
      {| ParsedS3Uri.bucket := "logs"; ParsedS3Uri.key := "reports/q1.txt";
         ParsedS3Uri.region := None; ParsedS3Uri.isValid := true;
         ParsedS3Uri.errorMessage := None |} None Scenario.emptyWorld = Some (Ok r, w')
    /\ DownloadResult.fileName r = "q1.txt"
    /\ DownloadResult.folder r = "/tmp/s3Downloader"
    /\ DownloadResult.filePath r = "/tmp/s3Downloader/q1.txt"
    /\ DownloadResult.size r = Some 10%N
    /\ calls w' = [discoveryCall "logs";
                   mkCall "us-east-1" (GetObjectCommand "logs" "reports/q1.txt");
                   mkCall "eu-central-1" (GetObjectCommand "logs" "reports/q1.txt")]
    /\ files w' !! "/tmp/s3Downloader" = Some Directory
    /\ files w' !! "/tmp" = Some Directory
    /\ files w' !! "/tmp/s3Downloader/q1.txt" = Some (File "q1 figures").
Proof.
  do 2 eexists. split; [vm_compute; reflexivity|]. repeat split.
Qed.

(** * Further properties of the sources *)

(** ** More on [parseAndValidateS3Uri] *)

Section ParserOutcomes.

Variable parseS3Url : string -> result S3Object.t.

(** The result depends on the input only through its trimmed form. *)
Lemma parse_of_trim (a b : string) :
  Js.trim a = Js.trim b ->
  parseAndValidateS3Uri parseS3Url a = parseAndValidateS3Uri parseS3Url b.
Proof. intros Heq. unfold parseAndValidateS3Uri. now rewrite Heq. Qed.

Lemma parse_blank (uri : string) :
  Js.trim uri = "" ->
  parseAndValidateS3Uri parseS3Url uri =
    Ok {| ParsedS3Uri.bucket := "";
          ParsedS3Uri.key := "";
          ParsedS3Uri.region := None;
          ParsedS3Uri.isValid := false;
          ParsedS3Uri.errorMessage := Some "S3 URI cannot be empty" |}.
Proof. intros Hblank. unfold parseAndValidateS3Uri. now rewrite Hblank. Qed.

(** Every outcome of the function, by the branch that produces it. *)
Lemma parse_cases (uri : string) :
  (Js.trim uri = ""
   /\ parseAndValidateS3Uri parseS3Url uri =
        Ok {| ParsedS3Uri.bucket := "";
              ParsedS3Uri.key := "";
              ParsedS3Uri.region := None;
              ParsedS3Uri.isValid := false;
              ParsedS3Uri.errorMessage := Some "S3 URI cannot be empty" |})
  \/ (exists error,
        Js.trim uri <> "" /\ parseS3Url (Js.trim uri) = Throw error
        /\ parseAndValidateS3Uri parseS3Url uri =
             Ok {| ParsedS3Uri.bucket := "";
                   ParsedS3Uri.key := "";
                   ParsedS3Uri.region := None;
                   ParsedS3Uri.isValid := false;
                   ParsedS3Uri.errorMessage :=
                     Some ("Failed to parse S3 URI: "
                           +:+ (if instanceofError error then Js.interp (message error)
                                else "Invalid S3 URI format")) |})
  \/ (exists o,
        Js.trim uri <> "" /\ parseS3Url (Js.trim uri) = Ok o
        /\ Js.trim (S3Object.key o) = ""
        /\ parseAndValidateS3Uri parseS3Url uri =
             Ok {| ParsedS3Uri.bucket := S3Object.bucket o;
                   ParsedS3Uri.key := "";
                   ParsedS3Uri.region := S3Object.region o;
                   ParsedS3Uri.isValid := false;
                   ParsedS3Uri.errorMessage :=
                     Some "S3 URI must include a file key (not just a bucket or directory)" |})
  \/ (exists o,
        Js.trim uri <> "" /\ parseS3Url (Js.trim uri) = Ok o
        /\ Js.trim (S3Object.key o) <> "" /\ Js.endsWith (S3Object.key o) "/" = true
        /\ parseAndValidateS3Uri parseS3Url uri =
             Ok {| ParsedS3Uri.bucket := S3Object.bucket o;
                   ParsedS3Uri.key := S3Object.key o;
                   ParsedS3Uri.region := S3Object.region o;
                   ParsedS3Uri.isValid := false;
                   ParsedS3Uri.errorMessage :=
                     Some "S3 URI must point to a file, not a directory (URI ends with /)" |})
  \/ (exists o,
        Js.trim uri <> "" /\ parseS3Url (Js.trim uri) = Ok o
        /\ Js.trim (S3Object.key o) <> "" /\ Js.endsWith (S3Object.key o) "/" = false
        /\ parseAndValidateS3Uri parseS3Url uri =
             Ok {| ParsedS3Uri.bucket := S3Object.bucket o;
                   ParsedS3Uri.key := S3Object.key o;
                   ParsedS3Uri.region := S3Object.region o;
                   ParsedS3Uri.isValid := true;
                   ParsedS3Uri.errorMessage := None |}).
Proof.
  destruct (String.eqb_spec (Js.trim uri) "") as [Hblank|Hne].
  { left. split; [exact Hblank | now apply parse_blank]. }
  right. destruct (parseS3Url (Js.trim uri)) as [o|error] eqn:Hparse.
  2: { left. exists error. split; [exact Hne|]. split; [reflexivity|].
       now apply parse_after_throw. }
  right. rewrite (parse_after_success parseS3Url uri o Hne Hparse), blank_test.
  destruct (String.eqb_spec (Js.trim (S3Object.key o)) "") as [Hkey|Hkey].
  { left. exists o. auto. }
  right. destruct (Js.endsWith (S3Object.key o) "/") eqn:Hdir;
    [left | right]; exists o; auto.
Qed.

End ParserOutcomes.

(** X1.  An input made of white-space characters only (the empty string
    included), and no other input, is answered with "S3 URI cannot be
    empty"; for such an input [parseS3Url] is not consulted, the record is the
    same for every parser.  White space is what [String.prototype.trim]
    strips, U+00A0, U+FEFF and the Unicode spaces included. *)
Theorem blank_input_is_empty_uri
    (parseS3Url : string -> result S3Object.t) (uri : string) :
  exists r,
    parseAndValidateS3Uri parseS3Url uri = Ok r
    /\ (ParsedS3Uri.errorMessage r = Some "S3 URI cannot be empty"
        <-> Js.blank uri = true)
    /\ (Js.blank uri = true ->
        r = {| ParsedS3Uri.bucket := "";
               ParsedS3Uri.key := "";
               ParsedS3Uri.region := None;
               ParsedS3Uri.isValid := false;
               ParsedS3Uri.errorMessage := Some "S3 URI cannot be empty" |}).
Proof.
  destruct (parse_cases parseS3Url uri)
    as [[Hblank ->]|[(e & Hne & _ & ->)|[(o & Hne & _ & _ & ->)
       |[(o & Hne & _ & _ & _ & ->)|(o & Hne & _ & _ & _ & ->)]]]];
    eexists; (split; [reflexivity|]); cbn [ParsedS3Uri.errorMessage].
  - apply trim_empty_iff in Hblank. split; [split; auto | reflexivity].
  - split; [split|]; [intros [=] | |]; intros H%trim_empty_iff; contradiction.
  - split; [split|]; [intros [=] | |]; intros H%trim_empty_iff; contradiction.
  - split; [split|]; [intros [=] | |]; intros H%trim_empty_iff; contradiction.
  - split; [split|]; [intros [=] | |]; intros H%trim_empty_iff; contradiction.
Qed.

(** White space of more than one byte is stripped like a space. *)
Example trim_strips_unicode_white_space :
  Js.trim (Cases.nbsp +:+ " s3://b/k" +:+ Cases.lineSeparator +:+ Cases.byteOrderMark)
    = "s3://b/k"
  /\ Js.blank (Cases.nbsp +:+ Cases.byteOrderMark) = true
  /\ nat_of_ascii <$> list_ascii_of_string Cases.nbsp = [194; 160].
Proof. split; [reflexivity|]. split; reflexivity. Qed.

Example no_break_space_is_an_empty_uri :
  parseAndValidateS3Uri GlobalPath.parseS3Url Cases.nbsp
    = Ok {| ParsedS3Uri.bucket := "";
            ParsedS3Uri.key := "";
            ParsedS3Uri.region := None;
            ParsedS3Uri.isValid := false;
            ParsedS3Uri.errorMessage := Some "S3 URI cannot be empty" |}.
Proof. reflexivity. Qed.

Example no_break_space_is_an_empty_custom_path :
  getCustomDownloadFolder (node_path := Posix.api) (Scenario.storeIn None) Cases.nbsp
    (Some Scenario.outputLogger) Scenario.emptyWorld
  = Some (Ok "/home/ada/Downloads",
          {| files := ∅;
             log := [(WARNING,
                      "Custom download path is empty, falling back to Downloads folder")];
             calls := [] |}).
Proof. reflexivity. Qed.

(** X2.  When [parseS3Url] returns an object whose key is empty or blank
    (made of white space of any kind), the
    locator is invalid with the "must include a file key" message; it keeps
    the parsed bucket and region and carries the empty key. *)
Theorem missing_key_is_invalid
    (parseS3Url : string -> result S3Object.t) (uri : string) (s3Object : S3Object.t) :
  Js.trim uri <> "" ->
  parseS3Url (Js.trim uri) = Ok s3Object ->
  Js.blank (S3Object.key s3Object) = true ->
  parseAndValidateS3Uri parseS3Url uri =
    Ok {| ParsedS3Uri.bucket := S3Object.bucket s3Object;
          ParsedS3Uri.key := "";
          ParsedS3Uri.region := S3Object.region s3Object;
          ParsedS3Uri.isValid := false;
          ParsedS3Uri.errorMessage :=
            Some "S3 URI must include a file key (not just a bucket or directory)" |}.
Proof.
  intros Hne Hparse Hblank%trim_empty_iff.
  rewrite (parse_after_success parseS3Url uri s3Object Hne Hparse), blank_test, Hblank.
  reflexivity.
Qed.

Lemma missing_key_is_invalid_witness :
  parseAndValidateS3Uri GlobalPath.parseS3Url "s3://my-bucket/" =
    Ok {| ParsedS3Uri.bucket := "my-bucket";
          ParsedS3Uri.key := "";
          ParsedS3Uri.region := None;
          ParsedS3Uri.isValid := false;
          ParsedS3Uri.errorMessage :=
            Some "S3 URI must include a file key (not just a bucket or directory)" |}.
Proof.
  apply (missing_key_is_invalid GlobalPath.parseS3Url "s3://my-bucket/"
           {| S3Object.bucket := "my-bucket"; S3Object.key := "";
              S3Object.region := None |});
    [discriminate | reflexivity | reflexivity].
Defined.

(** X3.  The two status fields agree: a locator is valid exactly when it has
    no error message, and an invalid locator carries a non-empty message.  A
    locator is valid exactly when the trimmed input is not empty and
    [parseS3Url] returns for it an object whose key is not blank and does
    not end with [/]; the locator then repeats that object's bucket, key and
    region unchanged. *)
Theorem validity_characterised
    (parseS3Url : string -> result S3Object.t) (uri : string) :
  exists r,
    parseAndValidateS3Uri parseS3Url uri = Ok r
    /\ (ParsedS3Uri.isValid r = true <-> ParsedS3Uri.errorMessage r = None)
    /\ (ParsedS3Uri.isValid r = false ->
        exists msg, ParsedS3Uri.errorMessage r = Some msg /\ msg <> "")
    /\ (ParsedS3Uri.isValid r = true <->
        exists o,
          Js.trim uri <> ""
          /\ parseS3Url (Js.trim uri) = Ok o
          /\ Js.trim (S3Object.key o) <> ""
          /\ Js.endsWith (S3Object.key o) "/" = false
          /\ ParsedS3Uri.bucket r = S3Object.bucket o
          /\ ParsedS3Uri.key r = S3Object.key o
          /\ ParsedS3Uri.region r = S3Object.region o).
Proof.
  destruct (parse_cases parseS3Url uri)
    as [[Hblank ->]|[(e & Hne & Hp & ->)|[(o & Hne & Hp & Hk & ->)
       |[(o & Hne & Hp & Hk & Hd & ->)|(o & Hne & Hp & Hk & Hd & ->)]]]];
    eexists; (split; [reflexivity|]);
    cbn [ParsedS3Uri.isValid ParsedS3Uri.errorMessage ParsedS3Uri.bucket
         ParsedS3Uri.key ParsedS3Uri.region].
  - split; [easy|]. split; [intros _; eexists; split; [reflexivity | discriminate]|].
    split; [discriminate|]. intros (o & Hne & _). contradiction.
  - split; [easy|]. split.
    { intros _. eexists. split; [reflexivity | discriminate]. }
    split; [discriminate|]. intros (o & _ & Ho & _). congruence.
  - split; [easy|]. split; [intros _; eexists; split; [reflexivity | discriminate]|].
    split; [discriminate|]. intros (o' & _ & Ho & Hk' & _). congruence.
  - split; [easy|]. split; [intros _; eexists; split; [reflexivity | discriminate]|].
    split; [discriminate|]. intros (o' & _ & Ho & _ & Hd' & _). congruence.
  - split; [easy|]. split; [discriminate|].
    split; [intros _; exists o; auto 10 | reflexivity].
Qed.

(** X4.  White space before and after the URI does not matter, whichever
    of the characters [trim] strips it is made of: the padded input, the
    input and the trimmed input all give the same record. *)
Theorem surrounding_whitespace_is_ignored
    (parseS3Url : string -> result S3Object.t) (before uri after : string) :
  Js.blank before = true ->
  Js.blank after = true ->
  parseAndValidateS3Uri parseS3Url (before +:+ uri +:+ after)
    = parseAndValidateS3Uri parseS3Url uri
  /\ parseAndValidateS3Uri parseS3Url (Js.trim uri)
     = parseAndValidateS3Uri parseS3Url uri.
Proof.
  intros Hbefore Hafter. split; apply parse_of_trim.
  - now apply trim_padding.
  - apply trim_idempotent.
Qed.

Lemma surrounding_whitespace_is_ignored_witness :
  parseAndValidateS3Uri GlobalPath.parseS3Url ("  " +:+ "s3://my-bucket/a.txt" +:+ " ")
    = parseAndValidateS3Uri GlobalPath.parseS3Url "s3://my-bucket/a.txt"
  /\ parseAndValidateS3Uri GlobalPath.parseS3Url (Js.trim "s3://my-bucket/a.txt")
     = parseAndValidateS3Uri GlobalPath.parseS3Url "s3://my-bucket/a.txt".
Proof.
  apply (surrounding_whitespace_is_ignored GlobalPath.parseS3Url "  "
           "s3://my-bucket/a.txt" " "); reflexivity.
Defined.

(** ** More on [detectBucketRegion] and [getS3Object] *)

Section RetrievalOutcomes.

Variable host : Host.

(** Region resolution in full: the region a given configuration ends with,
    and the one request it may cost. *)
Lemma resolve_run config logger w :
  exists region w1,
    resolveRegion host config logger w = Some (Ok region, w1)
    /\ files w1 = files w
    /\ calls w1 =
       (calls w ++ if Js.truthy_opt (S3Config.region config) then []
                   else [discoveryCall (S3Config.bucket config)])%list
    /\ (Js.truthy_opt (S3Config.region config) = true ->
        region = Js.interp (S3Config.region config)).
Proof.
  destruct (Js.truthy_opt (S3Config.region config)) eqn:Hregion.
  - destruct (resolve_specified host config logger w Hregion) as (w1 & H & Hf & Hc).
    exists (Js.interp (S3Config.region config)), w1. rewrite app_nil_r. auto.
  - destruct (getBucketLocation host (calls w) "us-east-1" (S3Config.bucket config))
      as [response|error] eqn:Hanswer.
    + unfold resolveRegion, detectBucketRegion, sendGetBucketLocation. rewrite Hregion.
      destruct logger; run; rewrite Hanswer; run; split_run;
        (do 2 eexists; split; [reflexivity|]; split; [reflexivity|];
         split; [reflexivity | discriminate]).
    + destruct (resolve_after_failed_discovery host config logger w error Hregion Hanswer)
        as (w1 & H & Hf & Hc).
      do 2 eexists. split; [exact H|]. split; [exact Hf|]. split; [exact Hc | discriminate].
Qed.

End RetrievalOutcomes.

(** The extra request of the fetch phase, if any, is one fetch. *)
Lemma retry_shape (config : S3Config.t) (answer : result GetObjectOutput) :
  exists retry,
    match answer with
    | Ok _ => []
    | Throw error => match redirectRegion error with
                     | Some r => [fetchCall r config]
                     | None => []
                     end
    end = retry /\ fetchesOf config retry /\ length retry <= 1.
Proof.
  destruct answer as [?|e].
  - exists []. split; [reflexivity|]. split; [constructor | cbn; lia].
  - destruct (redirectRegion e) as [r|].
    + exists [fetchCall r config]. split; [reflexivity|].
      split; [now repeat constructor | cbn; lia].
    + exists []. split; [reflexivity|]. split; [constructor | cbn; lia].
Qed.

Lemma isPermanentRedirect_false_no_region (error : JsError) :
  isPermanentRedirect error = false -> redirectRegion error = None.
Proof. intros H. unfold redirectRegion. now rewrite H. Qed.

(** X5.  When the discovery request fails with a permanent redirect whose
    message yields a region other than [s3], [detectBucketRegion] returns
    that region instead of failing; for every other failure it throws a new
    [Error] "Could not determine bucket region: " followed by the message of
    the failure, or by "Unknown error" when there is none.  In both cases one
    request was sent, through a client bound to [us-east-1]. *)
Theorem discovery_recovers_region_from_redirect
    (host : Host) (bucketName : string) (logger : option Logger) (w : World)
    (error : JsError) :
  getBucketLocation host (calls w) "us-east-1" bucketName = Throw error ->
  exists outcome w',
    detectBucketRegion host bucketName logger w = Some (outcome, w')
    /\ calls w' = (calls w ++ [mkCall "us-east-1" (GetBucketLocationCommand bucketName)])%list
    /\ files w' = files w
    /\ (forall r, isPermanentRedirect error = true -> endpointMatch error = Some r ->
                  r <> "s3" -> outcome = Ok r)
    /\ (isPermanentRedirect error = false \/ endpointMatch error = None
        \/ endpointMatch error = Some "s3" ->
        outcome = Throw (newError ("Could not determine bucket region: "
                                   +:+ match message error with
                                       | Some m => if String.eqb m "" then "Unknown error" else m
                                       | None => "Unknown error"
                                       end))).
Proof.
  intros Hanswer.
  destruct (detect_on_failure host bucketName logger w error Hanswer)
    as (w' & Hrun & Hfiles & Hcalls).
  do 2 eexists. split; [exact Hrun|]. split; [exact Hcalls|]. split; [exact Hfiles|]. split.
  - intros r Hredirect Hmatch Hr.
    now rewrite (proj2 (redirectRegion_Some error r) (conj Hredirect (conj Hmatch Hr))).
  - intros Hno.
    assert (redirectRegion error = None) as ->.
    { unfold redirectRegion. destruct Hno as [-> | [-> | ->]]; [reflexivity | |];
        now destruct (isPermanentRedirect error). }
    unfold Js.or_else, Js.truthy. destruct (message error) as [m|]; [|reflexivity].
    now destruct (String.eqb m "").
Qed.

Lemma discovery_recovers_region_from_redirect_witness :
  exists w',
    detectBucketRegion Scenario.loopingStore "logs" None Scenario.emptyWorld
      = Some (Ok "eu-central-1", w')
    /\ calls w' = [mkCall "us-east-1" (GetBucketLocationCommand "logs")].
Proof.
  destruct (discovery_recovers_region_from_redirect Scenario.loopingStore "logs" None
              Scenario.emptyWorld Scenario.redirectError eq_refl)
    as (outcome & w' & Hrun & Hcalls & _ & Hregion & _).
  rewrite (Hregion "eu-central-1" eq_refl eq_refl) in Hrun by discriminate.
  exists w'. split; [exact Hrun | exact Hcalls].
Defined.

(** X6.  A region given with the configuration is used as it is: no
    discovery request is sent, the first request is the fetch through a
    client bound to that region, and every request of the call is a fetch of
    the configured bucket and key. *)
Theorem given_region_skips_discovery
    (host : Host) (config : S3Config.t) (logger : option Logger) (w : World)
    (region : string) :
  S3Config.region config = Some region ->
  region <> "" ->
  exists outcome w' retry,
    getS3Object host config logger w = Some (outcome, w')
    /\ calls w' = (calls w ++ fetchCall region config :: retry)%list
    /\ length retry <= 1
    /\ fetchesOf config (fetchCall region config :: retry).
Proof.
  intros Hregion Hne.
  assert (Hset : Js.truthy_opt (S3Config.region config) = true).
  { rewrite Hregion. now apply truthy_spec. }
  destruct (resolve_specified host config logger w Hset) as (w1 & Hresolve & _ & Hcalls1).
  rewrite Hregion in Hresolve. cbn [Js.interp] in Hresolve.
  destruct (fetch_run host region config logger w1) as (w' & Hrun & _ & Hcalls).
  destruct (retry_shape config (getObject host (calls w1) region (S3Config.bucket config)
                                  (S3Config.key config)))
    as (retry & Heq & Hfetches & Hlen).
  rewrite Heq, Hcalls1 in Hcalls.
  eexists _, w', retry.
  split; [rewrite (getS3Object_run _ _ _ _ _ _ Hresolve); exact Hrun|].
  split; [exact Hcalls|]. split; [exact Hlen|]. now constructor.
Qed.

Lemma given_region_skips_discovery_witness :
  exists outcome w' retry,
    getS3Object Scenario.frankfurtStore Scenario.reportConfig None Scenario.emptyWorld
      = Some (outcome, w')
    /\ calls w' = fetchCall "us-east-1" Scenario.reportConfig :: retry
    /\ length retry <= 1
    /\ fetchesOf Scenario.reportConfig (fetchCall "us-east-1" Scenario.reportConfig :: retry).
Proof.
  apply (given_region_skips_discovery Scenario.frankfurtStore Scenario.reportConfig None
           Scenario.emptyWorld "us-east-1" eq_refl).
  discriminate.
Defined.

(** X7.  [getS3Object] never touches the file system and sends between one
    and three requests: a discovery request through [us-east-1], first and
    only when the configuration has no region; then the fetch; then at most
    one more fetch.  Whatever discovery answers, the fetch is sent. *)
Theorem retrieval_request_budget
    (host : Host) (config : S3Config.t) (logger : option Logger) (w : World) :
  exists outcome w' region retry,
    getS3Object host config logger w = Some (outcome, w')
    /\ files w' = files w
    /\ calls w' =
       (calls w
        ++ (if Js.truthy_opt (S3Config.region config) then []
            else [mkCall "us-east-1" (GetBucketLocationCommand (S3Config.bucket config))])
        ++ fetchCall region config :: retry)%list
    /\ fetchesOf config retry
    /\ length retry <= 1
    /\ length (calls w') <= length (calls w) + 3.
Proof.
  destruct (resolve_run host config logger w) as (region & w1 & Hresolve & Hf1 & Hc1 & _).
  destruct (fetch_run host region config logger w1) as (w' & Hrun & Hf & Hcalls).
  destruct (retry_shape config (getObject host (calls w1) region (S3Config.bucket config)
                                  (S3Config.key config)))
    as (retry & Heq & Hfetches & Hlen).
  rewrite Heq, Hc1, <- app_assoc in Hcalls.
  eexists _, w', region, retry.
  split; [rewrite (getS3Object_run _ _ _ _ _ _ Hresolve); exact Hrun|].
  split; [congruence|]. split; [exact Hcalls|]. split; [exact Hfetches|].
  split; [exact Hlen|]. rewrite Hcalls, !length_app.
  destruct (Js.truthy_opt (S3Config.region config)); cbn [length]; lia.
Qed.

(** X8.  A response without a body is fatal: [getS3Object] throws a new
    [Error] "No file content received from S3" and does not send the
    request again. *)
Theorem missing_body_is_fatal
    (host : Host) (config : S3Config.t) (logger : option Logger) (w w1 : World)
    (region : string) (response : GetObjectOutput) :
  resolveRegion host config logger w = Some (Ok region, w1) ->
  getObject host (calls w1) region (S3Config.bucket config) (S3Config.key config)
    = Ok response ->
  Body response = None ->
  exists w',
    getS3Object host config logger w
      = Some (Throw (newError "No file content received from S3"), w')
    /\ calls w' = (calls w1 ++ [fetchCall region config])%list.
Proof.
  intros Hresolve Hanswer Hbody.
  rewrite (getS3Object_run _ _ _ _ _ _ Hresolve).
  destruct (fetch_run host region config logger w1) as (w' & Hrun & _ & Hcalls).
  rewrite Hanswer in Hrun, Hcalls. unfold fetched in Hrun. rewrite Hbody in Hrun. eauto.
Qed.

Lemma missing_body_is_fatal_witness :
  exists w',
    getS3Object Cases.emptyBodyStore Scenario.reportConfig None Scenario.emptyWorld
      = Some (Throw (newError "No file content received from S3"), w')
    /\ calls w' = [fetchCall "us-east-1" Scenario.reportConfig].
Proof.
  exact (missing_body_is_fatal Cases.emptyBodyStore Scenario.reportConfig None
           Scenario.emptyWorld Scenario.emptyWorld "us-east-1" _ eq_refl eq_refl eq_refl).
Defined.

(** X9.  Only permanent redirects are retried: when the fetch fails with an
    error that is neither named [PermanentRedirect] nor has status 301,
    [getS3Object] throws that very error after the one request. *)
Theorem other_errors_are_not_retried
    (host : Host) (config : S3Config.t) (logger : option Logger) (w w1 : World)
    (region : string) (error : JsError) :
  resolveRegion host config logger w = Some (Ok region, w1) ->
  getObject host (calls w1) region (S3Config.bucket config) (S3Config.key config)
    = Throw error ->
  name error <> Some "PermanentRedirect" ->
  httpStatusCode error <> Some 301%Z ->
  exists w',
    getS3Object host config logger w = Some (Throw error, w')
    /\ calls w' = (calls w1 ++ [fetchCall region config])%list.
Proof.
  intros Hresolve Hanswer Hname Hstatus.
  rewrite (getS3Object_run _ _ _ _ _ _ Hresolve).
  destruct (fetch_run host region config logger w1) as (w' & Hrun & _ & Hcalls).
  assert (Hno : redirectRegion error = None).
  { apply isPermanentRedirect_false_no_region. unfold isPermanentRedirect.
    now rewrite !bool_decide_eq_false_2. }
  rewrite Hanswer, Hno in Hrun, Hcalls. eauto.
Qed.

Lemma other_errors_are_not_retried_witness :
  exists w',
    getS3Object Cases.deniedStore Scenario.reportConfig None Scenario.emptyWorld
      = Some (Throw Scenario.accessDenied, w')
    /\ calls w' = [fetchCall "us-east-1" Scenario.reportConfig].
Proof.
  apply (other_errors_are_not_retried Cases.deniedStore Scenario.reportConfig None
           Scenario.emptyWorld Scenario.emptyWorld "us-east-1" Scenario.accessDenied
           eq_refl eq_refl); discriminate.
Defined.

(** X10.  The token the endpoint pattern extracts from a message is a
    non-empty run of lower-case letters, digits and hyphens that stands in
    the message between [s3.] or [s3-] and [.amazonaws.com]; and every
    message that contains such an occurrence yields a token. *)
Theorem endpoint_token_shape (error : JsError) :
  (forall token,
      endpointMatch error = Some token ->
      exists text before sep rest,
        message error = Some text
        /\ text = before +:+ "s3" +:+ String sep (token +:+ ".amazonaws.com" +:+ rest)
        /\ (sep = "."%char \/ sep = "-"%char)
        /\ token <> ""
        /\ allChars EndpointRegex.isRegionChar token = true)
  /\ (forall before sep token rest,
        message error
          = Some (before +:+ "s3" +:+ String sep (token +:+ ".amazonaws.com" +:+ rest)) ->
        sep = "."%char \/ sep = "-"%char ->
        token <> "" ->
        allChars EndpointRegex.isRegionChar token = true ->
        is_Some (endpointMatch error)).
Proof.
  assert (Hsep : forall sep, EndpointRegex.isSeparator sep = true
                             <-> sep = "."%char \/ sep = "-"%char).
  { intros sep. unfold EndpointRegex.isSeparator.
    rewrite orb_true_iff, !Ascii.eqb_eq. split; intros [?|?]; auto. }
  unfold endpointMatch. split.
  - intros token Hmatch. destruct (message error) as [text|]; [|discriminate].
    destruct (exec_sound text token Hmatch) as (before & sep & rest & Htext & Hs & Hne & Hall).
    exists text, before, sep, rest. rewrite <- Hsep. auto.
  - intros before sep token rest -> Hs%Hsep Hne Hall. now apply exec_complete.
Qed.

(** X11.  A first answer that has a body is returned as it is: the stream,
    the content length, the content type and the metadata of the response,
    after exactly one fetch, whether or not a content length or a content
    type was sent. *)
Theorem first_answer_is_returned
    (host : Host) (config : S3Config.t) (logger : option Logger) (w w1 : World)
    (region : string) (response : GetObjectOutput) (body : Readable) :
  resolveRegion host config logger w = Some (Ok region, w1) ->
  getObject host (calls w1) region (S3Config.bucket config) (S3Config.key config)
    = Ok response ->
  Body response = Some body ->
  exists w',
    getS3Object host config logger w =
      Some (Ok {| S3DownloadResult.stream := body;
                  S3DownloadResult.contentLength := ContentLength response;
                  S3DownloadResult.contentType := ContentType response;
                  S3DownloadResult.metadata := Metadata response |}, w')
    /\ calls w' = (calls w1 ++ [fetchCall region config])%list.
Proof.
  intros Hresolve Hanswer Hbody.
  rewrite (getS3Object_run _ _ _ _ _ _ Hresolve).
  destruct (fetch_run host region config logger w1) as (w' & Hrun & _ & Hcalls).
  rewrite Hanswer in Hrun, Hcalls. unfold fetched in Hrun. rewrite Hbody in Hrun. eauto.
Qed.

Lemma first_answer_is_returned_witness :
  exists w',
    getS3Object Cases.bareStore Scenario.reportConfig None Scenario.emptyWorld =
      Some (Ok {| S3DownloadResult.stream := Scenario.report;
                  S3DownloadResult.contentLength := None;
                  S3DownloadResult.contentType := None;
                  S3DownloadResult.metadata := None |}, w')
    /\ calls w' = [fetchCall "us-east-1" Scenario.reportConfig].
Proof.
  exact (first_answer_is_returned Cases.bareStore Scenario.reportConfig None
           Scenario.emptyWorld Scenario.emptyWorld "us-east-1" _ Scenario.report
           eq_refl eq_refl eq_refl).
Defined.

(** ** More on the destination folder *)

(** X12.  [getConfiguredDownloadFolder] returns for every setting: it does
    not throw, write to the file system or talk to the store.  It returns
    [null] exactly when "always prompt" is set; otherwise the folder is the
    downloads folder, the first workspace folder, the [s3Downloader] folder
    under the temporary directory, or the custom path. *)
Theorem folder_resolution_never_fails
    {node_path : PathApi} (host : Host) (logger : option Logger) (w : World) :
  exists folder w1,
    getConfiguredDownloadFolder host logger w = Some (Ok folder, w1)
    /\ files w1 = files w
    /\ calls w1 = calls w
    /\ (folder = None <-> alwaysPromptForLocation (configuration host) = true)
    /\ (forall path, folder = Some path ->
          path = getSystemDownloadsFolder host
          \/ (exists others, workspaceFolders host = Some (path :: others))
          \/ path = path_join (tmpdir host) "s3Downloader"
          \/ path = customDownloadPath (configuration host)).
Proof.
  unfold getConfiguredDownloadFolder, getSettings, getWorkspaceDownloadFolder,
    getSystemTempFolder, getCustomDownloadFolder, existsSync.
  destruct logger; run; split_run;
    (do 2 eexists; split; [reflexivity|]; split; [reflexivity|]; split; [reflexivity|];
     split; [split; intros; congruence|]; intros path [= <-]; eauto 6).
Qed.

(** X13.  With the workspace strategy, the folder is the root of the first
    workspace folder, whatever the other folders are; when no workspace is
    open it is the downloads folder, and a warning is logged. *)
Theorem workspace_strategy
    {node_path : PathApi} (host : Host) (l : Logger) (w : World) :
  alwaysPromptForLocation (configuration host) = false ->
  downloadLocation (configuration host) = "workspace" ->
  exists folder w1,
    getConfiguredDownloadFolder host (Some l) w = Some (Ok (Some folder), w1)
    /\ (forall root others, workspaceFolders host = Some (root :: others) ->
          folder = root
          /\ log w1 = (log w ++ [(DEBUG, "Using workspace root: " +:+ root)])%list)
    /\ (workspaceFolders host = None \/ workspaceFolders host = Some [] ->
        folder = getSystemDownloadsFolder host
        /\ log w1 = (log w ++ [(WARNING,
             "No workspace folder available, falling back to Downloads folder")])%list).
Proof.
  intros Halways Hworkspace.
  unfold getConfiguredDownloadFolder, getSettings, getWorkspaceDownloadFolder.
  rewrite Halways, Hworkspace. cbn [String.eqb Ascii.eqb Bool.eqb].
  destruct (workspaceFolders host) as [[|root others]|]; run;
    do 2 eexists; (split; [reflexivity|]); cbn [log]; split;
    try (intros ? ? [= <- <-]; auto); try discriminate;
    try (intros [[=]|[=]]); auto.
Qed.

Lemma workspace_strategy_witness :
  exists folder w1,
    getConfiguredDownloadFolder (node_path := Posix.api)
      (Cases.desk (Scenario.settingsOf "workspace" "" false)
         (Some ["/work/site"; "/work/docs"]) None)
      (Some Scenario.outputLogger) Scenario.emptyWorld = Some (Ok (Some folder), w1)
    /\ folder = "/work/site".
Proof.
  destruct (workspace_strategy (node_path := Posix.api)
              (Cases.desk (Scenario.settingsOf "workspace" "" false)
                 (Some ["/work/site"; "/work/docs"]) None)
              Scenario.outputLogger Scenario.emptyWorld eq_refl eq_refl)
    as (folder & w1 & Hrun & Hroot & _).
  exists folder, w1. split; [exact Hrun|].
  exact (proj1 (Hroot "/work/site" ["/work/docs"] eq_refl)).
Defined.

(** X14.  A download location that is none of [downloads], [workspace],
    [temp] and [custom] resolves to the downloads folder, with a warning that
    names the setting. *)
Theorem unknown_strategy_falls_back
    {node_path : PathApi} (host : Host) (l : Logger) (w : World) :
  alwaysPromptForLocation (configuration host) = false ->
  downloadLocation (configuration host) <> "downloads" ->
  downloadLocation (configuration host) <> "workspace" ->
  downloadLocation (configuration host) <> "temp" ->
  downloadLocation (configuration host) <> "custom" ->
  getConfiguredDownloadFolder host (Some l) w =
    Some (Ok (Some (getSystemDownloadsFolder host)),
          {| files := files w;
             log := log w ++ [(WARNING, "Unknown download location setting: "
                                        +:+ downloadLocation (configuration host))];
             calls := calls w |}).
Proof.
  intros Halways H1%String.eqb_neq H2%String.eqb_neq H3%String.eqb_neq H4%String.eqb_neq.
  unfold getConfiguredDownloadFolder, getSettings.
  rewrite Halways, H1, H2, H3, H4. reflexivity.
Qed.

Lemma unknown_strategy_falls_back_witness :
  getConfiguredDownloadFolder (node_path := Posix.api)
    (Cases.desk (Scenario.settingsOf "desktop" "" false) None None)
    (Some Scenario.outputLogger) Scenario.emptyWorld =
    Some (Ok (Some "/home/ada/Downloads"),
          {| files := ∅;
             log := [(WARNING, "Unknown download location setting: desktop")];
             calls := [] |}).
Proof.
  apply (unknown_strategy_falls_back (node_path := Posix.api)
           (Cases.desk (Scenario.settingsOf "desktop" "" false) None None)
           Scenario.outputLogger Scenario.emptyWorld); [reflexivity | discriminate..].
Defined.

(** X15.  A custom path that is not blank, is absolute and has an existing
    parent directory is returned as it is, whether or not the folder itself
    exists; nothing is created at this point. *)
Theorem good_custom_path_is_used
    {node_path : PathApi} (host : Host) (logger : option Logger) (w : World)
    (customPath : string) :
  Js.trim customPath <> "" ->
  path_isAbsolute customPath = true ->
  is_Some (files w !! path_dirname customPath) ->
  exists w1,
    getCustomDownloadFolder host customPath logger w = Some (Ok customPath, w1)
    /\ files w1 = files w
    /\ calls w1 = calls w.
Proof.
  intros Hblank%String.eqb_neq Habs Hparent.
  unfold getCustomDownloadFolder, existsSync. rewrite blank_test, Hblank, Habs.
  destruct logger; run; rewrite (bool_decide_eq_true_2 _ Hparent); run; eauto.
Qed.

Lemma good_custom_path_is_used_witness :
  exists w1,
    getCustomDownloadFolder (node_path := Posix.api) (Scenario.customHost "/d/s3" false)
      "/d/s3" None (Scenario.folderWith []) = Some (Ok "/d/s3", w1)
    /\ files w1 = files (Scenario.folderWith [])
    /\ calls w1 = [].
Proof.
  apply (good_custom_path_is_used (node_path := Posix.api)
           (Scenario.customHost "/d/s3" false) None (Scenario.folderWith []) "/d/s3");
    [discriminate | reflexivity | vm_compute; eauto].
Defined.

(** ** File names *)

Lemma split_not_nil (sep : ascii) (s : string) : Js.split sep s <> [].
Proof.
  destruct s as [|c s]; cbn [Js.split]; [discriminate|].
  destruct (Ascii.eqb c sep); [discriminate|]. now destruct (Js.split sep s).
Qed.

Lemma split_noSlash (s : string) : noSlash s = true -> Js.split "/" s = [s].
Proof.
  unfold noSlash. induction s as [|c s IH]; [reflexivity|]. cbn [allChars Js.split].
  intros [Hc Hs]%andb_true_iff. apply negb_true_iff in Hc. rewrite Hc, (IH Hs). reflexivity.
Qed.

Lemma last_cons_not_nil {A} (a d : A) (l : list A) :
  l <> [] -> List.last (a :: l) d = List.last l d.
Proof. now destruct l. Qed.

(** A text with a separator splits into two parts at least. *)
Lemma split_two_parts (dir name : string) :
  exists p q ps, Js.split "/" (dir +:+ "/" +:+ name) = p :: q :: ps.
Proof.
  induction dir as [|c dir (p & q & ps & IH)].
  - change ("" +:+ "/" +:+ name) with (String "/" name). cbn [Js.split Ascii.eqb Bool.eqb].
    destruct (Js.split "/" name) as [|q ps] eqn:Hsplit; [now apply split_not_nil in Hsplit|].
    now exists "", q, ps.
  - change (String c dir +:+ "/" +:+ name) with (String c (dir +:+ "/" +:+ name)).
    cbn [Js.split]. rewrite IH. destruct (Ascii.eqb c "/"); eauto.
Qed.

(** The last part of a split is what follows the last separator. *)
Lemma last_split_app (dir name : string) :
  noSlash name = true ->
  List.last (Js.split "/" (dir +:+ "/" +:+ name)) "" = name.
Proof.
  intros Hname. induction dir as [|c dir IH].
  - change ("" +:+ "/" +:+ name) with (String "/" name). cbn [Js.split Ascii.eqb Bool.eqb].
    now rewrite (split_noSlash _ Hname).
  - change (String c dir +:+ "/" +:+ name) with (String c (dir +:+ "/" +:+ name)).
    cbn [Js.split]. destruct (split_two_parts dir name) as (p & q & ps & Hsplit).
    rewrite Hsplit in *. now destruct (Ascii.eqb c "/").
Qed.

(** A text has no separator, or splits at its last one. *)
Lemma last_slash_decomposition (s : string) :
  noSlash s = true
  \/ exists dir name, s = dir +:+ "/" +:+ name /\ noSlash name = true.
Proof.
  induction s as [|c s [Hs|(dir & name & -> & Hname)]].
  - now left.
  - destruct (Ascii.eqb c "/") eqn:Hc.
    + apply Ascii.eqb_eq in Hc as ->. right. now exists "", s.
    + left. unfold noSlash in *. cbn [allChars]. now rewrite Hc, Hs.
  - right. now exists (String c dir), name.
Qed.

Lemma extractFilename_last_part (keyOrPath : string) :
  (noSlash keyOrPath = true -> extractFilename keyOrPath = keyOrPath)
  /\ (forall dir name,
        keyOrPath = dir +:+ "/" +:+ name -> noSlash name = true -> name <> "" ->
        extractFilename keyOrPath = name).
Proof.
  unfold extractFilename. split.
  - intros Hs. rewrite (split_noSlash _ Hs). cbn [List.last]. now destruct (Js.truthy _).
  - intros dir name -> Hname Hne. rewrite (last_split_app _ _ Hname).
    apply truthy_spec in Hne. now rewrite Hne.
Qed.

(** X16.  [extractFilename] returns what follows the last [/] of the key; a
    key without [/] is returned whole, and so is a key that ends with [/],
    since its last part is empty. *)
Theorem extractFilename_takes_last_part (keyOrPath : string) :
  (noSlash keyOrPath = true -> extractFilename keyOrPath = keyOrPath)
  /\ (forall dir name,
        keyOrPath = dir +:+ "/" +:+ name -> noSlash name = true -> name <> "" ->
        extractFilename keyOrPath = name)
  /\ (Js.endsWith keyOrPath "/" = true -> extractFilename keyOrPath = keyOrPath).
Proof.
  destruct (extractFilename_last_part keyOrPath) as [Hwhole Hlast].
  split; [exact Hwhole|]. split; [exact Hlast|]. unfold extractFilename.
  intros [dir ->]%endsWith_spec.
  change (dir +:+ "/") with (dir +:+ "/" +:+ ""). now rewrite last_split_app.
Qed.

(** X17.  For a valid locator the file name taken from the key is not empty
    and contains no [/]: it is the key, or the part of the key after its last
    [/]. *)
Theorem valid_locator_has_file_name
    (parseS3Url : string -> result S3Object.t) (uri : string) (r : ParsedS3Uri.t) :
  parseAndValidateS3Uri parseS3Url uri = Ok r ->
  ParsedS3Uri.isValid r = true ->
  extractFilename (ParsedS3Uri.key r) <> ""
  /\ noSlash (extractFilename (ParsedS3Uri.key r)) = true
  /\ (ParsedS3Uri.key r = extractFilename (ParsedS3Uri.key r)
      \/ exists dir, ParsedS3Uri.key r = dir +:+ "/" +:+ extractFilename (ParsedS3Uri.key r)).
Proof.
  intros Hr Hvalid.
  destruct (valid_locator_origin _ _ _ Hr Hvalid) as (o & _ & _ & -> & _ & Hkey & Hdir).
  destruct (extractFilename_last_part (S3Object.key o)) as (Hwhole & Hlast).
  destruct (last_slash_decomposition (S3Object.key o)) as [Hs|(dir & name & Heq & Hname)].
  - rewrite (Hwhole Hs). split; [now apply truthy_spec|]. auto.
  - assert (Hne : name <> "").
    { intros ->. rewrite Heq in Hdir.
      assert (Js.endsWith (dir +:+ "/" +:+ "") "/" = true) by (apply endsWith_spec; eauto).
      congruence. }
    rewrite (Hlast dir name Heq Hname Hne). split; [exact Hne|]. split; [exact Hname|].
    right. now exists dir.
Qed.

Lemma valid_locator_has_file_name_witness :
  exists r,
    parseAndValidateS3Uri GlobalPath.parseS3Url "s3://my-bucket/reports/2024/q1.pdf" = Ok r
    /\ extractFilename (ParsedS3Uri.key r) = "q1.pdf"
    /\ extractFilename (ParsedS3Uri.key r) <> "".
Proof.
  eexists. split; [vm_compute; reflexivity|]. split; [reflexivity|].
  exact (proj1 (valid_locator_has_file_name GlobalPath.parseS3Url
                  "s3://my-bucket/reports/2024/q1.pdf" _ eq_refl eq_refl)).
Defined.

(** ** The file system during a download *)

Lemma preserves_refl (w : World) : preserves w w.
Proof. now intros p e. Qed.

Lemma preserves_trans (w1 w2 w3 : World) :
  preserves w1 w2 -> preserves w2 w3 -> preserves w1 w3.
Proof. intros H12 H23 p e H. auto. Qed.

Lemma preserves_same_files (w w' : World) : files w' = files w -> preserves w w'.
Proof. intros Heq p e. now rewrite Heq. Qed.

Lemma preserves_fresh (w w' : World) (p : string) (e : Entry) :
  files w !! p = None -> files w' = <[p := e]> (files w) -> preserves w w'.
Proof.
  intros Hfree Heq q e' Hq. rewrite Heq, lookup_insert_ne; [exact Hq|]. congruence.
Qed.

(** How a sequence ends: the first step throws or runs out of fuel, or it
    returns and the rest decides. *)
Lemma bind_inv {A B} (m : M A) (f : A -> M B) w r w' :
  (m ≫= f) w = Some (r, w') ->
  (exists a w1, m w = Some (Ok a, w1) /\ f a w1 = Some (r, w'))
  \/ (exists e, m w = Some (Throw e, w') /\ r = Throw e).
Proof.
  unfold mbind, M_bind. destruct (m w) as [[[a|e] w1]|]; [eauto | | discriminate].
  intros [= <- <-]. eauto.
Qed.

Lemma logAt_any level logger msg w r w' :
  logAt level logger msg w = Some (r, w') ->
  r = Ok tt /\ files w' = files w /\ calls w' = calls w.
Proof. unfold logAt. destruct logger; intros [= <- <-]; auto. Qed.

Section DiskFacts.

Context {node_path : PathApi}.
Variable host : Host.

(** [mkdirs] adds directories of the list and changes nothing that exists;
    when it returns, every directory of the list is there; when it throws, a
    file of the list was in the way or the operating system refused a
    missing directory of the list. *)
Lemma mkdirs_entries (p : string) (l : list string) : forall (fs : gmap string Entry),
  (forall q, snd (mkdirs host p l fs) !! q = fs !! q
             \/ (fs !! q = None /\ snd (mkdirs host p l fs) !! q = Some Directory /\ q ∈ l))
  /\ (fst (mkdirs host p l fs) = Ok tt ->
      forall q, q ∈ l -> snd (mkdirs host p l fs) !! q = Some Directory)
  /\ (forall e, fst (mkdirs host p l fs) = Throw e ->
        exists d, d ∈ l
          /\ ((fs !! d = None /\ mkdirFault host d = Some e)
              \/ (exists content, fs !! d = Some (File content)
                  /\ e = newError ("ENOTDIR: not a directory, mkdir '" +:+ p +:+ "'")))).
Proof.
  induction l as [|d l IH]; intros fs; cbn [mkdirs].
  { split; [now left|]. split; [intros _ q H; inversion H | discriminate]. }
  destruct (fs !! d) as [[|content]|] eqn:Hd.
  - destruct (IH fs) as (Hnew & Hall & Hthrow). split; [|split].
    + intros q. destruct (Hnew q) as [Heq|(H1 & H2 & H3)]; [now left|].
      right. split; [exact H1|]. split; [exact H2|]. now apply list_elem_of_further.
    + intros Hok q [->|Hq]%elem_of_cons; [|now apply Hall].
      destruct (Hnew d) as [Heq|(H1 & _)]; congruence.
    + intros e (x & Hx & Hcause)%Hthrow. exists x. split; [now apply list_elem_of_further|].
      exact Hcause.
  - cbn [fst snd]. split; [now left|]. split; [discriminate|].
    intros e [= <-]. exists d. split; [apply list_elem_of_here|]. right. eauto.
  - destruct (mkdirFault host d) as [e|] eqn:Hfault.
    + cbn [fst snd]. split; [now left|]. split; [discriminate|].
      intros e' [= <-]. exists d. split; [apply list_elem_of_here|]. now left.
    + destruct (IH (<[d := Directory]> fs)) as (Hnew & Hall & Hthrow). split; [|split].
      * intros q. destruct (decide (q = d)) as [->|Hne].
        -- right. split; [exact Hd|]. split; [|apply list_elem_of_here].
           destruct (Hnew d) as [Heq|(H1 & _)];
             [now rewrite Heq, lookup_insert_eq | now rewrite lookup_insert_eq in H1].
        -- destruct (Hnew q) as [Heq|(H1 & H2 & H3)].
           ++ left. now rewrite Heq, lookup_insert_ne.
           ++ right. rewrite lookup_insert_ne in H1 by congruence.
              split; [exact H1|]. split; [exact H2|]. now apply list_elem_of_further.
      * intros Hok q [->|Hq]%elem_of_cons; [|now apply Hall].
        destruct (Hnew d) as [Heq|(H1 & _)];
          [now rewrite Heq, lookup_insert_eq | now rewrite lookup_insert_eq in H1].
      * intros e (x & Hx & Hcause)%Hthrow. exists x.
        split; [now apply list_elem_of_further|].
        destruct (decide (x = d)) as [->|Hne].
        -- rewrite lookup_insert_eq in Hcause.
           destruct Hcause as [[[=] _]|(content & [=] & _)].
        -- now rewrite lookup_insert_ne in Hcause by congruence.
Qed.

(** [ensureDownloadFolderExists] in full. *)
Lemma ensure_run folderPath w :
  ensureDownloadFolderExists host folderPath w =
    if bool_decide (is_Some (files w !! folderPath)) then Some (Ok tt, w)
    else mkdirSync_recursive host folderPath w.
Proof.
  unfold ensureDownloadFolderExists, mbind, M_bind. rewrite existsSync_run.
  now destruct (bool_decide _).
Qed.

Lemma ensure_any folderPath w r w' :
  ensureDownloadFolderExists host folderPath w = Some (r, w') ->
  preserves w w'
  /\ calls w' = calls w
  /\ (forall q, files w' !! q = files w !! q
                \/ (files w !! q = None /\ files w' !! q = Some Directory
                    /\ q ∈ folderPath :: ancestors (String.length folderPath) folderPath))
  /\ (r = Ok tt -> is_Some (files w' !! folderPath))
  /\ (r = Ok tt -> ~ is_Some (files w !! folderPath) ->
      forall q, q ∈ folderPath :: ancestors (String.length folderPath) folderPath ->
                files w' !! q = Some Directory)
  /\ (forall e, r = Throw e ->
        ~ is_Some (files w !! folderPath)
        /\ exists d, d ∈ folderPath :: ancestors (String.length folderPath) folderPath
             /\ ((files w !! d = None /\ mkdirFault host d = Some e)
                 \/ (exists content, files w !! d = Some (File content)
                     /\ e = newError ("ENOTDIR: not a directory, mkdir '"
                                      +:+ folderPath +:+ "'"))))
  /\ (is_Some (files w !! folderPath) -> r = Ok tt /\ w' = w).
Proof.
  rewrite ensure_run. destruct (bool_decide (is_Some (files w !! folderPath))) eqn:Hex.
  - apply bool_decide_eq_true in Hex. intros [= <- <-].
    split; [apply preserves_refl|]. split; [reflexivity|]. split; [now left|].
    split; [auto|]. split; [contradiction|]. split; [discriminate | auto].
  - apply bool_decide_eq_false in Hex. unfold mkdirSync_recursive.
    set (chain := folderPath :: ancestors (String.length folderPath) folderPath).
    destruct (mkdirs_entries folderPath (reverse chain) (files w)) as (Hnew & Hall & Hthrow).
    intros [= <- <-]. cbn [files calls].
    assert (Hnew' : forall q, snd (mkdirs host folderPath (reverse chain) (files w)) !! q
                                = files w !! q
                              \/ (files w !! q = None
                                  /\ snd (mkdirs host folderPath (reverse chain) (files w)) !! q
                                     = Some Directory /\ q ∈ chain)).
    { intros q. destruct (Hnew q) as [Heq|(H1 & H2 & H3)]; [now left|].
      rewrite elem_of_reverse in H3. right. auto. }
    split.
    { intros q e Hq. destruct (Hnew' q) as [Heq|[H _]]; [|congruence].
      exact (eq_trans Heq Hq). }
    split; [reflexivity|]. split; [exact Hnew'|].
    split.
    { intros Hok. rewrite (Hall Hok folderPath); [eauto|].
      rewrite elem_of_reverse. apply list_elem_of_here. }
    split.
    { intros Hok _ q Hq. apply (Hall Hok). now rewrite elem_of_reverse. }
    split; [|easy].
    intros e (d & Hd & Hcause)%Hthrow. rewrite elem_of_reverse in Hd.
    split; [exact Hex|]. eauto.
Qed.

(** The loop returns a path at which nothing exists. *)
Lemma uniqueLoop_any fuel : forall counter folderPath nameWithoutExt ext uniquePath w r w',
  uniqueLoop fuel counter folderPath nameWithoutExt ext uniquePath w = Some (r, w') ->
  exists p,
    r = Ok p /\ w' = w /\ files w !! p = None
    /\ (p = uniquePath
        \/ exists n, counter <= n
                     /\ p = path_join folderPath
                              (nameWithoutExt +:+ "_" +:+ pretty n +:+ ext)).
Proof.
  induction fuel as [|fuel IH]; intros counter folderPath nameWithoutExt ext uniquePath w r w';
    cbn [uniqueLoop]; [discriminate|].
  unfold mbind, M_bind. rewrite existsSync_run.
  destruct (bool_decide (is_Some (files w !! uniquePath))) eqn:Hex.
  - intros (p & -> & -> & Hfree & Hp)%IH. exists p. repeat split; [exact Hfree|].
    right. destruct Hp as [->|(n & Hn & ->)]; [exists counter | exists n]; split; auto; lia.
  - apply bool_decide_eq_false in Hex. intros [= <- <-]. exists uniquePath.
    repeat split; [|now left]. destruct (files w !! uniquePath); [exfalso; eauto | reflexivity].
Qed.

Lemma getUniqueFilePath_any fuel folderPath filename w r w' :
  getUniqueFilePath fuel folderPath filename w = Some (r, w') ->
  exists p,
    r = Ok p /\ w' = w /\ files w !! p = None
    /\ (p = path_join folderPath filename
        \/ exists n, 1 <= n /\ p = candidate folderPath filename n).
Proof.
  unfold getUniqueFilePath, mbind, M_bind. rewrite existsSync_run.
  destruct (bool_decide (is_Some (files w !! path_join folderPath filename))) eqn:Hex;
    cbn [negb].
  - intros (p & -> & -> & Hfree & Hp)%uniqueLoop_any. exists p. repeat split; [exact Hfree|].
    destruct Hp as [->|Hp]; [now left | now right].
  - apply bool_decide_eq_false in Hex. intros [= <- <-].
    exists (path_join folderPath filename). repeat split; [|now left].
    destruct (files w !! path_join folderPath filename); [exfalso; eauto | reflexivity].
Qed.

Lemma pipeline_any stream finalPath w r w' :
  pipeline host stream finalPath w = Some (r, w') ->
  calls w' = calls w
  /\ (w' = w /\ (exists e, r = Throw e)
      \/ (failure stream = None /\ r = Ok tt
          /\ files w' = <[finalPath := File (chunks stream)]> (files w))
      \/ (exists e, failure stream = Some e /\ r = Throw e
          /\ files w' = <[finalPath := File (substring 0 (delivered stream) (chunks stream))]>
                          (files w))).
Proof.
  unfold pipeline. destruct (openFault host finalPath) as [e|].
  { intros [= <- <-]. split; [reflexivity|]. left. eauto. }
  destruct (files w !! finalPath) as [[|content]|].
  - intros [= <- <-]. split; [reflexivity|]. left. eauto.
  - destruct (failure stream); intros [= <- <-]; (split; [reflexivity|]); right;
      [right; eauto | left; auto].
  - destruct (failure stream); intros [= <- <-]; (split; [reflexivity|]); right;
      [right; eauto | left; auto].
Qed.

Lemma statSync_size_any p w r w' :
  statSync_size p w = Some (r, w') ->
  w' = w
  /\ (forall content, files w !! p = Some (File content) ->
                      r = Ok (N.of_nat (String.length content))).
Proof.
  unfold statSync_size. destruct (files w !! p) as [[|content]|]; intros [= <- <-];
    (split; [reflexivity|]); intros c [=]. now subst.
Qed.

End DiskFacts.


(** A folder three levels down in an empty file system: every level is
    created. *)
Example mkdir_creates_ancestors :
  exists w',
    ensureDownloadFolderExists (node_path := Posix.api) (Scenario.storeIn None)
      "/srv/data/s3" Scenario.emptyWorld = Some (Ok tt, w')
    /\ files w' = {[ "/" := Directory; "/srv" := Directory; "/srv/data" := Directory;
                     "/srv/data/s3" := Directory ]}.
Proof. eexists. split; [vm_compute; reflexivity|]. vm_compute. reflexivity. Qed.

(** The operating system refuses [/srv/data]: the call throws its error,
    and [/] and [/srv], created before, stay. *)
Example mkdir_stops_at_refusal :
  exists w',
    ensureDownloadFolderExists (node_path := Posix.api) (Cases.guarded "/srv/data")
      "/srv/data/s3" Scenario.emptyWorld = Some (Throw Scenario.accessDenied, w')
    /\ files w' = {[ "/" := Directory; "/srv" := Directory ]}.
Proof. eexists. split; [vm_compute; reflexivity|]. vm_compute. reflexivity. Qed.

(** A file stands at [/d/a.txt]: no folder can be created below it. *)
Example mkdir_stops_at_file :
  ensureDownloadFolderExists (node_path := Posix.api) (Scenario.storeIn None)
    "/d/a.txt/s3" (Scenario.folderWith ["a.txt"])
  = Some (Throw (newError "ENOTDIR: not a directory, mkdir '/d/a.txt/s3'"),
          {| files := <["/" := Directory]> (files (Scenario.folderWith ["a.txt"]));
             log := []; calls := [] |}).
Proof. vm_compute. reflexivity. Qed.

(** X19.  Whenever [getUniqueFilePath] ends, it returns a path, never an
    exception; nothing exists at that path; the path is [folder/fileName] or
    one of the numbered candidates; and the world is as before. *)
Theorem unique_path_is_free
    {node_path : PathApi} (fuel : nat) (folderPath filename : string) (w w' : World)
    (outcome : result string) :
  getUniqueFilePath fuel folderPath filename w = Some (outcome, w') ->
  exists p,
    outcome = Ok p
    /\ w' = w
    /\ files w !! p = None
    /\ (p = path_join folderPath filename
        \/ exists n, 1 <= n /\ p = candidate folderPath filename n).
Proof. apply getUniqueFilePath_any. Qed.

Lemma unique_path_is_free_witness :
  getUniqueFilePath (node_path := Posix.api) 3 "/d" "a.txt"
    (Scenario.folderWith ["a.txt"; "a_1.txt"])
  = Some (Ok "/d/a_2.txt", Scenario.folderWith ["a.txt"; "a_1.txt"])
  /\ files (Scenario.folderWith ["a.txt"; "a_1.txt"]) !! "/d/a_2.txt" = None.
Proof.
  assert (Hrun : getUniqueFilePath (node_path := Posix.api) 3 "/d" "a.txt"
                   (Scenario.folderWith ["a.txt"; "a_1.txt"])
                 = Some (Ok "/d/a_2.txt", Scenario.folderWith ["a.txt"; "a_1.txt"]))
    by (vm_compute; reflexivity).
  split; [exact Hrun|].
  destruct (unique_path_is_free (node_path := Posix.api) 3 "/d" "a.txt" _ _ _ Hrun)
    as (p & [= <-] & _ & Hfree & _).
  exact Hfree.
Defined.

(** ** [downloadToFile], phase by phase *)

Section DownloadPhases.

Context {node_path : PathApi}.
Variable host : Host.

Lemma downloadToFile_phases fuel config logger :
  downloadToFile host fuel config logger =
    (downloadFolder ← chooseFolder host config logger;
     ensureDownloadFolderExists host downloadFolder;;
     finalPath ← choosePath fuel config downloadFolder;
     log_info logger ("Saving file to: " +:+ finalPath);;
     log_debug logger "Writing file to disk...";;
     pipeline host (DownloadConfig.stream config) finalPath;;
     stats_size ← statSync_size finalPath;
     log_info logger ("File saved successfully (" +:+ pretty stats_size +:+ " bytes)");;
     mret {| DownloadResult.fileName := DownloadConfig.fileName config;
             DownloadResult.filePath := finalPath;
             DownloadResult.size := Some stats_size;
             DownloadResult.folder := downloadFolder |}).
Proof. reflexivity. Qed.

(** Choosing the folder only reads; it throws only when the dialog was
    dismissed; the folder it returns is never the empty string. *)
Lemma chooseFolder_any config logger w r w0 :
  chooseFolder host config logger w = Some (r, w0) ->
  files w0 = files w
  /\ calls w0 = calls w
  /\ (forall folder, DownloadConfig.folder config = Some folder -> folder <> "" ->
        r = Ok folder /\ w0 = w)
  /\ (forall e, r = Throw e ->
        e = newError "Download cancelled - no folder selected"
        /\ Js.truthy_opt (DownloadConfig.folder config) = false)
  /\ (forall folder, r = Ok folder -> folder <> "").
Proof.
  unfold chooseFolder.
  destruct (Js.truthy_opt (DownloadConfig.folder config)) eqn:Hfolder.
  { intros [= <- <-]. split; [reflexivity|]. split; [reflexivity|]. split.
    - intros folder Heq _. rewrite Heq. auto.
    - split; [discriminate|]. intros folder [= <-].
      destruct (DownloadConfig.folder config) as [f|]; [|discriminate].
      now apply truthy_spec. }
  assert (Hnot : forall folder, DownloadConfig.folder config = Some folder -> folder <> "" ->
                   r = Ok folder /\ w0 = w).
  { intros folder Heq Hne%truthy_spec. rewrite Heq in Hfolder. cbn in Hfolder. congruence. }
  intros [(configured & wa & Hconfigured & Hrest)|(e & Hconfigured & _)]%bind_inv.
  2: { destruct (configured_folder_total host logger w) as (o & wb & Hrun & _).
       congruence. }
  destruct (configured_folder_total host logger w) as (o & wb & Hrun & Hfiles & Hcalls).
  rewrite Hconfigured in Hrun. injection Hrun as <- <-.
  destruct (Js.truthy_opt configured) eqn:Hconf; cbn [negb] in Hrest.
  - apply bind_inv in Hrest as [(u & wc & Hlog & Hret)|(e & Hlog & _)];
      apply logAt_any in Hlog as (Hu & Hf & Hc); [|discriminate].
    injection Hret as <- <-.
    split; [congruence|]. split; [congruence|]. split; [exact Hnot|].
    split; [discriminate|]. intros folder [= <-].
    destruct configured as [f|]; [|discriminate]. now apply truthy_spec.
  - apply bind_inv in Hrest as [(selected & wc & Hprompt & Hrest)|(e & Hprompt & _)].
    2: { unfold promptForDownloadLocation in Hprompt.
         destruct (showOpenDialog host _ _) as [[|? ?]|]; discriminate. }
    assert (wc = wa) as ->.
    { unfold promptForDownloadLocation in Hprompt.
      destruct (showOpenDialog host _ _) as [[|? ?]|]; now injection Hprompt as _ <-. }
    destruct (Js.truthy_opt selected) eqn:Hsel; cbn [negb] in Hrest.
    + apply bind_inv in Hrest as [(u & wd & Hlog & Hret)|(e & Hlog & _)];
        apply logAt_any in Hlog as (Hu & Hf & Hc); [|discriminate].
      injection Hret as <- <-.
      split; [congruence|]. split; [congruence|]. split; [exact Hnot|].
      split; [discriminate|]. intros folder [= <-].
      destruct selected as [f|]; [|discriminate]. now apply truthy_spec.
    + injection Hrest as <- <-.
      split; [exact Hfiles|]. split; [exact Hcalls|]. split; [exact Hnot|].
      split; [now intros e [= <-] | discriminate].
Qed.

(** Choosing the path only reads and does not throw. *)
Lemma choosePath_any fuel config downloadFolder w r w1 :
  choosePath fuel config downloadFolder w = Some (r, w1) ->
  w1 = w
  /\ exists finalPath,
       r = Ok finalPath
       /\ (DownloadConfig.overwrite config = Some true ->
           finalPath = path_join downloadFolder (DownloadConfig.fileName config))
       /\ (DownloadConfig.overwrite config <> Some true ->
           files w !! finalPath = None
           /\ getUniqueFilePath fuel downloadFolder (DownloadConfig.fileName config) w
              = Some (Ok finalPath, w)).
Proof.
  unfold choosePath. destruct (decide (DownloadConfig.overwrite config = Some true)) as [H|H].
  - rewrite (bool_decide_eq_true_2 _ H). intros [= <- <-]. split; [reflexivity|].
    eexists. split; [reflexivity|]. split; [reflexivity | contradiction].
  - rewrite (bool_decide_eq_false_2 _ H). intros Hrun.
    destruct (getUniqueFilePath_any _ _ _ _ _ _ Hrun) as (p & -> & -> & Hfree & _).
    split; [reflexivity|]. exists p. split; [reflexivity|]. split; [contradiction | auto].
Qed.

(** Every finished run of [downloadToFile], by the phase that ends it. *)
Lemma downloadToFile_any fuel config logger w r w' :
  downloadToFile host fuel config logger w = Some (r, w') ->
  (r = Throw (newError "Download cancelled - no folder selected")
   /\ Js.truthy_opt (DownloadConfig.folder config) = false
   /\ files w' = files w)
  \/ exists downloadFolder w0 r1 w1,
       chooseFolder host config logger w = Some (Ok downloadFolder, w0)
       /\ ensureDownloadFolderExists host downloadFolder w0 = Some (r1, w1)
       /\ ((exists e, r1 = Throw e /\ r = Throw e /\ w' = w1)
           \/ r1 = Ok tt
              /\ exists finalPath w2 r2 w3,
                   choosePath fuel config downloadFolder w1 = Some (Ok finalPath, w1)
                   /\ files w2 = files w1
                   /\ pipeline host (DownloadConfig.stream config) finalPath w2
                      = Some (r2, w3)
                   /\ files w' = files w3
                   /\ ((exists e, r2 = Throw e /\ r = Throw e)
                       \/ r2 = Ok tt
                          /\ failure (DownloadConfig.stream config) = None
                          /\ files w3 = <[finalPath :=
                                           File (chunks (DownloadConfig.stream config))]>
                                          (files w1)
                          /\ r = Ok {| DownloadResult.fileName :=
                                         DownloadConfig.fileName config;
                                       DownloadResult.filePath := finalPath;
                                       DownloadResult.size :=
                                         Some (N.of_nat (String.length
                                                 (chunks (DownloadConfig.stream config))));
                                       DownloadResult.folder := downloadFolder |})).
Proof.
  rewrite downloadToFile_phases.
  intros [(downloadFolder & w0 & Hfolder & Hrun)|(e & Hfolder & ->)]%bind_inv.
  2: { left. destruct (chooseFolder_any _ _ _ _ _ Hfolder) as (Hf & _ & _ & He & _).
       destruct (He e eq_refl) as [-> Hno]. auto. }
  right. destruct (chooseFolder_any _ _ _ _ _ Hfolder) as (Hf0 & _).
  apply bind_inv in Hrun as [([] & w1 & Hensure & Hrun)|(e & Hensure & ->)].
  2: { exists downloadFolder, w0, (Throw e), w'. split; [exact Hfolder|].
       split; [exact Hensure|]. left. exists e. auto. }
  exists downloadFolder, w0, (Ok tt), w1. split; [exact Hfolder|]. split; [exact Hensure|].
  right. split; [reflexivity|].
  apply bind_inv in Hrun as [(finalPath & w1' & Hpath & Hrun)|(e & Hpath & _)].
  2: { destruct (choosePath_any _ _ _ _ _ _ Hpath) as (_ & p & [=] & _). }
  destruct (choosePath_any _ _ _ _ _ _ Hpath) as (-> & _).
  apply bind_inv in Hrun as [(u1 & w2a & Hlog1 & Hrun)|(e & Hlog1 & _)];
    apply logAt_any in Hlog1 as (Hu1 & Hf1 & _); [|discriminate].
  apply bind_inv in Hrun as [(u2 & w2 & Hlog2 & Hrun)|(e & Hlog2 & _)];
    apply logAt_any in Hlog2 as (Hu2 & Hf2 & _); [|discriminate].
  apply bind_inv in Hrun as [([] & w3 & Hwrite & Hrun)|(e & Hwrite & ->)].
  2: { exists finalPath, w2, (Throw e), w'. split; [exact Hpath|]. split; [congruence|].
       split; [exact Hwrite|]. split; [reflexivity|]. left. eauto. }
  exists finalPath, w2, (Ok tt), w3. split; [exact Hpath|]. split; [congruence|].
  split; [exact Hwrite|].
  destruct (pipeline_any host _ _ _ _ _ Hwrite)
    as (_ & [[_ [e [=]]]|[(Hfail & _ & Hfiles3)|(e & _ & [=] & _)]]).
  assert (Hlookup : files w3 !! finalPath
                    = Some (File (chunks (DownloadConfig.stream config)))).
  { rewrite Hfiles3. apply lookup_insert_eq. }
  rewrite Hf2, Hf1 in Hfiles3.
  apply bind_inv in Hrun as [(size & w4 & Hstat & Hrun)|(e & Hstat & _)].
  2: { destruct (statSync_size_any _ _ _ _ Hstat) as (_ & Hsize).
       specialize (Hsize _ Hlookup). discriminate. }
  destruct (statSync_size_any _ _ _ _ Hstat) as (-> & Hsize).
  specialize (Hsize _ Hlookup). injection Hsize as ->.
  apply bind_inv in Hrun as [(u3 & w5 & Hlog3 & Hrun)|(e & Hlog3 & _)];
    apply logAt_any in Hlog3 as (Hu3 & Hf3 & _); [|discriminate].
  injection Hrun as <- <-. split; [exact Hf3|]. right.
  split; [reflexivity|]. split; [exact Hfail|]. split; [congruence | reflexivity].
Qed.

End DownloadPhases.

(** [downloadToFile] without [overwrite] keeps every existing entry. *)
Lemma downloadToFile_keeps
    {node_path : PathApi} (host : Host) (fuel : nat) (config : DownloadConfig.t)
    (logger : option Logger) (w w' : World) (outcome : result DownloadResult.t) :
  downloadToFile host fuel config logger w = Some (outcome, w') ->
  DownloadConfig.overwrite config <> Some true ->
  preserves w w'.
Proof.
  intros Hrun Hunset.
  destruct (downloadToFile_any host _ _ _ _ _ _ Hrun)
    as [(_ & _ & Hfiles)|(folder & w0 & r1 & w1 & Hfolder & Hensure & Hrest)].
  { now apply preserves_same_files. }
  destruct (chooseFolder_any host _ _ _ _ _ Hfolder) as (Hf0 & _).
  destruct (ensure_any host _ _ _ _ Hensure) as (Hgrow & _).
  apply preserves_trans with w0; [now apply preserves_same_files|].
  destruct Hrest as [(e & _ & _ & ->)|(_ & p & w2 & r2 & w3 & Hpath & Hf2 & Hwrite & Hf3 & _)];
    [exact Hgrow|].
  destruct (choosePath_any _ _ _ _ _ _ Hpath) as (_ & p' & [= <-] & _ & Hfresh).
  destruct (Hfresh Hunset) as [Hfree _].
  apply preserves_trans with w1; [exact Hgrow|].
  apply preserves_trans with w3; [|now apply preserves_same_files].
  destruct (pipeline_any host _ _ _ _ _ Hwrite)
    as (_ & [[-> _]|[(_ & _ & Hfiles3)|(e & _ & _ & Hfiles3)]]).
  - now apply preserves_same_files.
  - apply preserves_fresh with (p := p) (e := File (chunks (DownloadConfig.stream config)));
      [exact Hfree | congruence].
  - apply preserves_fresh
      with (p := p)
           (e := File (substring 0 (delivered (DownloadConfig.stream config))
                         (chunks (DownloadConfig.stream config))));
      [exact Hfree | congruence].
Qed.

(** X20.  With [overwrite] unset, [downloadToFile] never changes what is
    already on disk: however the call ends, every path that existed before
    still exists with the same entry. *)
Theorem download_never_clobbers
    {node_path : PathApi} (host : Host) (fuel : nat) (config : DownloadConfig.t)
    (logger : option Logger) (w w' : World) (outcome : result DownloadResult.t) :
  downloadToFile host fuel config logger w = Some (outcome, w') ->
  DownloadConfig.overwrite config <> Some true ->
  preserves w w'.
Proof. exact (downloadToFile_keeps host fuel config logger w w' outcome). Qed.

Lemma download_never_clobbers_witness :
  exists w',
    preserves (Scenario.folderWith ["a.txt"]) w'
    /\ files w' !! "/d/a.txt" = Some (File "old")
    /\ files w' !! "/d/a_1.txt" = Some (File "q1 figures").
Proof.
  destruct (downloadToFile (node_path := Posix.api) (Scenario.storeIn None) 2
              (Scenario.saveAs "a.txt") None (Scenario.folderWith ["a.txt"]))
    as [[outcome w']|] eqn:Hrun; [|vm_compute in Hrun; discriminate].
  exists w'. split.
  - apply (download_never_clobbers (node_path := Posix.api) (Scenario.storeIn None) 2
             (Scenario.saveAs "a.txt") None (Scenario.folderWith ["a.txt"]) w' outcome Hrun).
    discriminate.
  - vm_compute in Hrun. injection Hrun as _ <-. split; reflexivity.
Defined.

(** X21.  When [downloadToFile] returns, the stream has ended without error,
    the file at the reported path holds the bytes of the stream, the
    reported size is their number, the reported folder exists and is not the
    empty string, and apart from that file the only changes on disk are new
    directories.  With [overwrite] set the path is [folder/fileName]. *)
Theorem download_postcondition
    {node_path : PathApi} (host : Host) (fuel : nat) (config : DownloadConfig.t)
    (logger : option Logger) (w w' : World) (r : DownloadResult.t) :
  downloadToFile host fuel config logger w = Some (Ok r, w') ->
  failure (DownloadConfig.stream config) = None
  /\ files w' !! DownloadResult.filePath r
     = Some (File (chunks (DownloadConfig.stream config)))
  /\ DownloadResult.size r
     = Some (N.of_nat (String.length (chunks (DownloadConfig.stream config))))
  /\ DownloadResult.fileName r = DownloadConfig.fileName config
  /\ DownloadResult.folder r <> ""
  /\ is_Some (files w' !! DownloadResult.folder r)
  /\ (DownloadConfig.overwrite config = Some true ->
      DownloadResult.filePath r
      = path_join (DownloadResult.folder r) (DownloadConfig.fileName config))
  /\ (forall q, q <> DownloadResult.filePath r ->
        files w' !! q = files w !! q
        \/ (files w !! q = None /\ files w' !! q = Some Directory)).
Proof.
  intros Hrun.
  destruct (downloadToFile_any host _ _ _ _ _ _ Hrun)
    as [([=] & _)|(folder & w0 & r1 & w1 & Hfolder & Hensure & Hrest)].
  destruct Hrest as [(e & _ & [=] & _)|(-> & p & w2 & r2 & w3 & Hpath & Hf2 & Hwrite & Hf3 & Hend)].
  destruct Hend as [(e & _ & [=])|(_ & Hfail & Hfiles3 & [= ->])].
  cbn [DownloadResult.filePath DownloadResult.size DownloadResult.fileName
       DownloadResult.folder].
  destruct (chooseFolder_any host _ _ _ _ _ Hfolder) as (Hf0 & _ & _ & _ & Hne).
  destruct (ensure_any host _ _ _ _ Hensure) as (_ & _ & Hnew & Hexists & _).
  destruct (choosePath_any _ _ _ _ _ _ Hpath) as (_ & p' & [= <-] & Hover & _).
  rewrite Hf3, Hfiles3.
  split; [exact Hfail|]. split; [apply lookup_insert_eq|]. split; [reflexivity|].
  split; [reflexivity|]. split; [now apply Hne|]. split.
  { destruct (decide (p = folder)) as [->|Hpf];
      [rewrite lookup_insert_eq; eauto | rewrite lookup_insert_ne by exact Hpf; auto]. }
  split; [exact Hover|].
  intros q Hq. rewrite lookup_insert_ne by congruence. rewrite <- Hf0.
  destruct (Hnew q) as [Heq|(H1 & H2 & _)]; auto.
Qed.

Lemma download_postcondition_witness :
  exists r w',
    downloadToFile (node_path := Posix.api) (Scenario.storeIn None) 2
      (Scenario.saveAs "a.txt") None (Scenario.folderWith ["a.txt"]) = Some (Ok r, w')
    /\ files w' !! DownloadResult.filePath r = Some (File "q1 figures")
    /\ DownloadResult.size r = Some 10%N.
Proof.
  do 2 eexists. split; [vm_compute; reflexivity|].
  destruct (download_postcondition (node_path := Posix.api) (Scenario.storeIn None) 2
              (Scenario.saveAs "a.txt") None (Scenario.folderWith ["a.txt"]) _ _ eq_refl)
    as (_ & Hfile & Hsize & _).
  split; [exact Hfile | exact Hsize].
Defined.

Lemma bind_ext {A B} (m1 m2 : M A) (f1 f2 : A -> M B) (w : World) :
  m1 w = m2 w -> (forall a w1, f1 a w1 = f2 a w1) ->
  (m1 ≫= f1) w = (m2 ≫= f2) w.
Proof.
  intros Hm Hf. unfold mbind, M_bind. rewrite Hm.
  destruct (m2 w) as [[[a|e] w1]|]; auto.
Qed.

Lemma mkdirs_ext {node_path : PathApi} (host1 host2 : Host) (p : string) (l : list string) :
  (forall d, mkdirFault host1 d = mkdirFault host2 d) ->
  forall fs, mkdirs host1 p l fs = mkdirs host2 p l fs.
Proof.
  intros Hmkdir. induction l as [|d l IH]; intros fs; [reflexivity|]. cbn [mkdirs].
  rewrite Hmkdir, IH. destruct (fs !! d) as [[|content]|]; [reflexivity..|].
  destruct (mkdirFault host2 d); [reflexivity | apply IH].
Qed.

(** X22.  A folder passed to [downloadToFile] is the folder: the settings,
    the workspace, the environment, the dialog and the store play no part.
    Two hosts that differ only in those give the same run. *)
Theorem given_folder_bypasses_settings
    {node_path : PathApi} (host1 host2 : Host) (fuel : nat) (config : DownloadConfig.t)
    (logger : option Logger) (w : World) (folder : string) :
  DownloadConfig.folder config = Some folder ->
  folder <> "" ->
  (forall p, mkdirFault host1 p = mkdirFault host2 p) ->
  (forall p, openFault host1 p = openFault host2 p) ->
  downloadToFile host1 fuel config logger w = downloadToFile host2 fuel config logger w.
Proof.
  intros Hfolder Hne%truthy_spec Hmkdir Hopen.
  rewrite !downloadToFile_phases. apply bind_ext.
  { unfold chooseFolder. rewrite Hfolder. cbn [Js.truthy_opt]. now rewrite Hne. }
  intros downloadFolder w0. apply bind_ext.
  { rewrite !ensure_run. unfold mkdirSync_recursive.
    now rewrite (mkdirs_ext host1 host2 _ _ Hmkdir). }
  intros _ w1. apply bind_ext; [reflexivity|].
  intros finalPath w2. apply bind_ext; [reflexivity|].
  intros _ w3. apply bind_ext; [reflexivity|].
  intros _ w4. apply bind_ext; [|reflexivity].
  unfold pipeline. now rewrite Hopen.
Qed.

Lemma given_folder_bypasses_settings_witness :
  downloadToFile (node_path := Posix.api) Scenario.cancellingUser 2
    (Scenario.saveAs "a.txt") None (Scenario.folderWith ["a.txt"])
  = downloadToFile (node_path := Posix.api) (Scenario.customHost "nowhere" false) 2
      (Scenario.saveAs "a.txt") None (Scenario.folderWith ["a.txt"]).
Proof.
  apply (given_folder_bypasses_settings (node_path := Posix.api) Scenario.cancellingUser
           (Scenario.customHost "nowhere" false) 2 (Scenario.saveAs "a.txt") None
           (Scenario.folderWith ["a.txt"]) "/d" eq_refl);
    [discriminate | reflexivity | reflexivity].
Defined.

Lemma substring_prefix (n : nat) : forall s, exists rest, s = substring 0 n s +:+ rest.
Proof.
  induction n as [|n IH]; intros [|c s]; cbn [substring]; try (now eexists).
  destruct (IH s) as [rest Hrest]. exists rest.
  change (String c (substring 0 n s) +:+ rest) with (String c (substring 0 n s +:+ rest)).
  now rewrite <- Hrest.
Qed.

(** X23.  When the stream ends with an error, [downloadToFile] throws that
    error after the file was opened, and the file stays on disk at the chosen
    path: it holds the bytes that had reached it when the pipeline was torn
    down, a beginning of the stream's bytes that may be empty; nothing
    removes it.  The folder was created, if it was missing, before that. *)
Theorem failed_stream_leaves_partial_file
    {node_path : PathApi} (host : Host) (fuel : nat) (config : DownloadConfig.t)
    (logger : option Logger) (w w0 w1 : World) (folder finalPath : string)
    (error : JsError) :
  chooseFolder host config logger w = Some (Ok folder, w0) ->
  ensureDownloadFolderExists host folder w0 = Some (Ok tt, w1) ->
  choosePath fuel config folder w1 = Some (Ok finalPath, w1) ->
  openFault host finalPath = None ->
  files w1 !! finalPath <> Some Directory ->
  failure (DownloadConfig.stream config) = Some error ->
  exists w' content rest,
    downloadToFile host fuel config logger w = Some (Throw error, w')
    /\ files w' = <[finalPath := File content]> (files w1)
    /\ content = substring 0 (delivered (DownloadConfig.stream config))
                   (chunks (DownloadConfig.stream config))
    /\ chunks (DownloadConfig.stream config) = content +:+ rest.
Proof.
  intros Hfolder Hensure Hpath Hopen Hdir Hfail.
  destruct (substring_prefix (delivered (DownloadConfig.stream config))
              (chunks (DownloadConfig.stream config))) as [rest Hrest].
  rewrite downloadToFile_phases. unfold mbind at 1, M_bind. rewrite Hfolder.
  unfold mbind at 1, M_bind. rewrite Hensure.
  unfold mbind at 1, M_bind. rewrite Hpath. unfold pipeline.
  destruct logger; run; rewrite Hopen;
    (destruct (files w1 !! finalPath) as [[|content]|]; [contradiction | |]);
    rewrite Hfail; eexists _, _, rest; (split; [reflexivity|]); cbn [files];
    (split; [reflexivity|]); (split; [reflexivity | exact Hrest]).
Qed.

Lemma failed_stream_leaves_partial_file_witness :
  exists w',
    downloadToFile (node_path := Posix.api) (Scenario.storeIn None) 2
      {| DownloadConfig.stream := Cases.brokenStream;
         DownloadConfig.fileName := "a.txt";
         DownloadConfig.folder := Some "/d";
         DownloadConfig.overwrite := None |} None Scenario.emptyWorld
      = Some (Throw (newError "aborted"), w')
    /\ files w' = {[ "/" := Directory; "/d" := Directory; "/d/a.txt" := File "" ]}.
Proof.
  destruct (failed_stream_leaves_partial_file (node_path := Posix.api)
              (Scenario.storeIn None) 2
              {| DownloadConfig.stream := Cases.brokenStream;
                 DownloadConfig.fileName := "a.txt";
                 DownloadConfig.folder := Some "/d";
                 DownloadConfig.overwrite := None |} None Scenario.emptyWorld
              Scenario.emptyWorld Cases.freshFolder "/d" "/d/a.txt" (newError "aborted"))
    as (w' & content & rest & Hrun & Hfiles & -> & _);
    [reflexivity | vm_compute; reflexivity | vm_compute; reflexivity | reflexivity
    | vm_compute; discriminate | reflexivity |].
  exists w'. split; [exact Hrun|]. rewrite Hfiles. vm_compute. reflexivity.
Defined.

(** ** The search for a free path ends *)

Lemma allChars_app (f : ascii -> bool) (s t : string) :
  allChars f (s +:+ t) = allChars f s && allChars f t.
Proof.
  induction s as [|c s IH]; [reflexivity|].
  change (String c s +:+ t) with (String c (s +:+ t)). cbn [allChars].
  now rewrite IH, andb_assoc.
Qed.

Lemma append_empty_r (s : string) : s +:+ "" = s.
Proof.
  induction s as [|c s IH]; [reflexivity|].
  change (String c s +:+ "") with (String c (s +:+ "")). now rewrite IH.
Qed.

Lemma append_cancel_r (t : string) : forall s1 s2, s1 +:+ t = s2 +:+ t -> s1 = s2.
Proof.
  assert (Hlen : forall s, String.length (s +:+ t) = String.length s + String.length t).
  { induction s as [|c s IH]; [reflexivity|].
    change (String c s +:+ t) with (String c (s +:+ t)). cbn [String.length].
    now rewrite IH. }
  induction s1 as [|c s1 IH]; intros [|c' s2] Heq.
  - reflexivity.
  - apply (f_equal String.length) in Heq. rewrite !Hlen in Heq. cbn in Heq. lia.
  - apply (f_equal String.length) in Heq. rewrite !Hlen in Heq. cbn in Heq. lia.
  - injection Heq as -> Heq. now rewrite (IH _ Heq).
Qed.

(** The decimal digits of a counter pass any test that every digit passes. *)
Lemma pretty_N_go_chars (f : ascii -> bool) (x : N) :
  (forall d, f (pretty_N_char d) = true) ->
  forall s, allChars f s = true -> allChars f (pretty_N_go x s) = true.
Proof.
  intros Hf. induction (N.lt_wf_0 x) as [x _ IH]. intros s Hs.
  assert (x = 0 \/ 0 < x)%N as [->|Hpos] by lia.
  - now rewrite pretty_N_go_0.
  - rewrite pretty_N_go_step by exact Hpos.
    apply IH; [now apply N.div_lt|]. cbn [allChars]. now rewrite Hf, Hs.
Qed.

Lemma pretty_nat_noSlash (n : nat) : noSlash (pretty n) = true.
Proof.
  unfold pretty, pretty_nat, pretty, pretty_N, noSlash.
  case_decide; [reflexivity|].
  apply pretty_N_go_chars; [|reflexivity].
  intros d. unfold pretty_N_char. repeat case_match; reflexivity.
Qed.

Lemma endsWith_noSlash (name : string) :
  noSlash name = true -> Js.endsWith name "/" = false.
Proof.
  unfold noSlash. induction name as [|c s IH]; [reflexivity|].
  cbn [allChars Js.endsWith String.eqb]. intros [Hc Hs]%andb_true_iff.
  apply negb_true_iff in Hc. now rewrite Hc, (IH Hs).
Qed.

(** [path.join] of the folder [/d] and one plain segment. *)
Lemma posix_join_segment (name : string) :
  noSlash name = true -> name <> "" -> name <> "." -> name <> ".." ->
  Posix.join "/d" name = "/d/" +:+ name.
Proof.
  intros Hslash H0 H1 H2.
  apply String.eqb_neq in H0, H1, H2.
  unfold Posix.join. cbn [String.eqb]. rewrite H0.
  change ("/d" +:+ "/" +:+ name) with (String "/" (String "d" (String "/" name))).
  unfold Posix.normalize.
  cbn [String.eqb Js.endsWith Js.split Ascii.eqb Bool.eqb Posix.isSlash negb orb andb].
  rewrite (split_noSlash _ Hslash), H0, (endsWith_noSlash _ Hslash).
  cbn [fold_left Posix.pushSegment String.eqb Ascii.eqb Bool.eqb orb].
  unfold Posix.pushSegment. rewrite H0, H1, H2. cbn [orb rev app Posix.joinSegments].
  change ("d" +:+ "/" +:+ name) with (String "d" (String "/" name)).
  cbn [String.eqb]. now rewrite append_empty_r.
Qed.

Lemma posix_candidate (n : nat) :
  candidate (H := Posix.api) "/d" "a.txt" n = "/d/a_" +:+ pretty n +:+ ".txt".
Proof.
  unfold candidate.
  change (path_extname "a.txt") with ".txt".
  change (path_basename "a.txt" ".txt") with "a".
  change (path_join "/d") with (Posix.join "/d").
  rewrite posix_join_segment; [reflexivity | | discriminate ..].
  change ("a" +:+ "_" +:+ pretty n +:+ ".txt")
    with (String "a" (String "_" (pretty n +:+ ".txt"))).
  unfold noSlash. cbn [allChars]. rewrite allChars_app.
  fold (noSlash (pretty n)). now rewrite pretty_nat_noSlash.
Qed.

Lemma posix_candidate_inj (m k : nat) :
  candidate (H := Posix.api) "/d" "a.txt" m = candidate (H := Posix.api) "/d" "a.txt" k ->
  m = k.
Proof.
  rewrite !posix_candidate. intros Heq.
  change ("/d/a_" +:+ pretty m +:+ ".txt")
    with (String "/" (String "d" (String "/" (String "a" (String "_"
            (pretty m +:+ ".txt")))))) in Heq.
  change ("/d/a_" +:+ pretty k +:+ ".txt")
    with (String "/" (String "d" (String "/" (String "a" (String "_"
            (pretty k +:+ ".txt")))))) in Heq.
  injection Heq as Heq. apply append_cancel_r in Heq. now apply (inj pretty).
Qed.

(** *** [path.join] with a plain last segment *)

Lemma append_assoc_s (a b c : string) : (a +:+ b) +:+ c = a +:+ (b +:+ c).
Proof.
  induction a as [|x a IH]; [reflexivity|].
  change ((String x a +:+ b) +:+ c) with (String x ((a +:+ b) +:+ c)).
  change (String x a +:+ (b +:+ c)) with (String x (a +:+ (b +:+ c))). now rewrite IH.
Qed.

Lemma append_cancel_l (p : string) : forall s1 s2, p +:+ s1 = p +:+ s2 -> s1 = s2.
Proof.
  induction p as [|x p IH]; intros s1 s2 Heq; [exact Heq|].
  change (String x p +:+ s1) with (String x (p +:+ s1)) in Heq.
  change (String x p +:+ s2) with (String x (p +:+ s2)) in Heq.
  injection Heq as Heq. now apply IH.
Qed.

Lemma split_snoc (dir name : string) :
  noSlash name = true ->
  Js.split "/" (dir +:+ "/" +:+ name) = (Js.split "/" dir ++ [name])%list.
Proof.
  intros Hname. induction dir as [|c dir IH].
  - change ("" +:+ "/" +:+ name) with (String "/" name).
    cbn [Js.split Ascii.eqb Bool.eqb]. now rewrite (split_noSlash _ Hname).
  - change (String c dir +:+ "/" +:+ name) with (String c (dir +:+ "/" +:+ name)).
    cbn [Js.split]. rewrite IH. destruct (Ascii.eqb c "/"); [reflexivity|].
    destruct (Js.split "/" dir) as [|p ps] eqn:Hsplit; [now apply split_not_nil in Hsplit|].
    reflexivity.
Qed.

Lemma endsWith_snoc (dir : string) (c : ascii) (rest : string) :
  noSlash (String c rest) = true ->
  Js.endsWith (dir +:+ "/" +:+ String c rest) "/" = false.
Proof.
  intros Hname. induction dir as [|x dir IH].
  - change ("" +:+ "/" +:+ String c rest) with (String "/" (String c rest)).
    cbn [Js.endsWith String.eqb Ascii.eqb Bool.eqb andb orb].
    exact (endsWith_noSlash _ Hname).
  - change (String x dir +:+ "/" +:+ String c rest)
      with (String x (dir +:+ "/" +:+ String c rest)).
    cbn [Js.endsWith]. rewrite IH. rewrite orb_false_r.
    cbn [String.eqb]. destruct (Ascii.eqb x "/"); [|reflexivity].
    destruct dir; reflexivity.
Qed.

Lemma joinSegments_snoc (l : list string) (name : string) :
  Posix.joinSegments (l ++ [name])
  = match l with
    | [] => name
    | _ => Posix.joinSegments l +:+ "/" +:+ name
    end.
Proof.
  induction l as [|x [|y l] IH]; [reflexivity..|].
  change (Posix.joinSegments ((x :: y :: l) ++ [name]))
    with (x +:+ "/" +:+ Posix.joinSegments ((y :: l) ++ [name])).
  rewrite IH.
  change (Posix.joinSegments (x :: y :: l)) with (x +:+ "/" +:+ Posix.joinSegments (y :: l)).
  now rewrite !append_assoc_s.
Qed.

(** A segment that does not start with a dot and holds no separator is
    pushed as it is. *)
Lemma pushSegment_plain (allowAboveRoot : bool) (acc : list string) (c : ascii)
    (rest : string) :
  c <> "."%char ->
  Posix.pushSegment allowAboveRoot acc (String c rest) = String c rest :: acc.
Proof.
  intros Hc. unfold Posix.pushSegment. cbn [String.eqb].
  apply Ascii.eqb_neq in Hc. now rewrite Hc.
Qed.

(** [path.join] of a folder and one plain segment: the segment comes last,
    after a text that depends on the folder only. *)
Lemma posix_join_plain (folder : string) :
  exists prefix, forall c rest,
    c <> "."%char -> noSlash (String c rest) = true ->
    Posix.join folder (String c rest) = prefix +:+ String c rest.
Proof.
  destruct folder as [|x folder].
  - exists "". intros c rest Hc Hname. unfold Posix.join, Posix.normalize.
    cbn [String.eqb]. rewrite (split_noSlash _ Hname), (endsWith_noSlash _ Hname).
    cbn [fold_left]. rewrite pushSegment_plain by exact Hc.
    cbn [rev app Posix.joinSegments String.eqb].
    pose proof Hname as Hfirst. unfold noSlash in Hfirst. cbn [allChars] in Hfirst.
    apply andb_true_iff in Hfirst as [Hfirst _]. apply negb_true_iff in Hfirst.
    unfold Posix.isSlash. rewrite Hfirst. cbn [negb]. now rewrite append_empty_r.
  - set (segments := fold_left (Posix.pushSegment (negb (Posix.isSlash x)))
                       (Js.split "/" (String x folder)) []).
    exists ((if Posix.isSlash x then "/" else "")
            +:+ match rev segments with
                | [] => ""
                | _ => Posix.joinSegments (rev segments) +:+ "/"
                end).
    intros c rest Hc Hname. unfold Posix.join. cbn [String.eqb].
    unfold Posix.normalize.
    rewrite (endsWith_snoc _ _ _ Hname), (split_snoc _ _ Hname).
    change (String x folder +:+ "/" +:+ String c rest)
      with (String x (folder +:+ "/" +:+ String c rest)).
    cbn [String.eqb]. cbv iota.
    rewrite fold_left_app. fold segments. cbn [fold_left].
    rewrite pushSegment_plain by exact Hc. cbn [rev]. rewrite joinSegments_snoc.
    rewrite append_empty_r.
    destruct (rev segments) as [|y l] eqn:Hsegments.
    + cbn [String.eqb]. now rewrite append_empty_r.
    + assert (Hbody : String.eqb (Posix.joinSegments (y :: l) +:+ "/" +:+ String c rest) ""
                      = false).
      { destruct (Posix.joinSegments (y :: l)); reflexivity. }
      rewrite Hbody. now rewrite !append_assoc_s.
Qed.

(** Distinct counters give distinct candidates in every folder, for a file
    name whose stem is plain. *)
Lemma posix_candidate_inj_plain (folder filename : string) (c : ascii) (stem : string) :
  Posix.basename filename (Posix.extname filename) = String c stem ->
  c <> "."%char ->
  noSlash (String c stem) = true ->
  noSlash (Posix.extname filename) = true ->
  forall m k,
    candidate (H := Posix.api) folder filename m = candidate (H := Posix.api) folder filename k ->
    m = k.
Proof.
  intros Hstem Hc Hplain Hext m k. unfold candidate.
  change (path_extname filename) with (Posix.extname filename).
  change (path_basename filename (Posix.extname filename))
    with (Posix.basename filename (Posix.extname filename)).
  change (path_join folder) with (Posix.join folder).
  rewrite Hstem.
  destruct (posix_join_plain folder) as (prefix & Hjoin).
  assert (Hname : forall n : nat,
            noSlash (String c (stem +:+ "_" +:+ pretty n +:+ Posix.extname filename)) = true).
  { intros n. unfold noSlash in *. cbn [allChars] in *.
    apply andb_true_iff in Hplain as [H1 H2]. rewrite H1. cbn [andb].
    rewrite !allChars_app, H2, Hext. fold (noSlash (pretty n)).
    now rewrite pretty_nat_noSlash. }
  change (String c stem +:+ "_" +:+ pretty m +:+ Posix.extname filename)
    with (String c (stem +:+ "_" +:+ pretty m +:+ Posix.extname filename)).
  change (String c stem +:+ "_" +:+ pretty k +:+ Posix.extname filename)
    with (String c (stem +:+ "_" +:+ pretty k +:+ Posix.extname filename)).
  rewrite !Hjoin by (exact Hc || apply Hname).
  intros Heq%append_cancel_l. injection Heq as Heq.
  apply append_cancel_l in Heq.
  change ("_" +:+ pretty m +:+ Posix.extname filename)
    with (String "_" (pretty m +:+ Posix.extname filename)) in Heq.
  change ("_" +:+ pretty k +:+ Posix.extname filename)
    with (String "_" (pretty k +:+ Posix.extname filename)) in Heq.
  injection Heq as Heq. apply append_cancel_r in Heq. now apply (inj pretty).
Qed.

(** X24.  When distinct counters give distinct candidate paths, the loop of
    [getUniqueFilePath] stops: one path [p], which does not exist, is the
    answer of every run that is given at least two more iterations than
    there are paths in the file system, and the file system is unchanged. *)
Theorem unique_path_search_ends
    {node_path : PathApi} (folderPath filename : string) (w : World) :
  (forall m k, candidate folderPath filename m = candidate folderPath filename k -> m = k) ->
  exists p,
    files w !! p = None
    /\ forall fuel, size (files w) + 2 <= fuel ->
         getUniqueFilePath fuel folderPath filename w = Some (Ok p, w).
Proof.
  intros Hinj.
  destruct (files w !! path_join folderPath filename) eqn:Hfirst.
  - destruct (lowest_free_or_all_taken folderPath filename w (S (size (files w))))
      as [(n & Hn & Hfree & Hbelow)|Hall].
    + exists (candidate folderPath filename n). split; [exact Hfree|].
      intros fuel Hfuel. apply getUniqueFilePath_scan;
        [rewrite Hfirst; eauto | lia | exact Hbelow | exact Hfree].
    + apply (taken_candidates_bounded folderPath filename Hinj) in Hall. lia.
  - exists (path_join folderPath filename). split; [exact Hfirst|].
    intros fuel _. now apply getUniqueFilePath_free.
Qed.

Lemma unique_path_search_ends_witness :
  exists p,
    files (Scenario.folderWith ["a.txt"; "a_1.txt"]) !! p = None
    /\ forall fuel, size (files (Scenario.folderWith ["a.txt"; "a_1.txt"])) + 2 <= fuel ->
         getUniqueFilePath (node_path := Posix.api) fuel "/d" "a.txt"
           (Scenario.folderWith ["a.txt"; "a_1.txt"])
         = Some (Ok p, Scenario.folderWith ["a.txt"; "a_1.txt"]).
Proof.
  exact (unique_path_search_ends (node_path := Posix.api) "/d" "a.txt"
           (Scenario.folderWith ["a.txt"; "a_1.txt"]) posix_candidate_inj).
Defined.

(** ** The logger only observes *)

Lemma resolve_quiet (host : Host) (config : S3Config.t) (logger : option Logger) (w : World) :
  exists region w1 w2,
    resolveRegion host config logger w = Some (Ok region, w1)
    /\ resolveRegion host config None w = Some (Ok region, w2)
    /\ files w1 = files w /\ files w2 = files w
    /\ calls w1 = calls w2 /\ log w2 = log w.
Proof.
  unfold resolveRegion, detectBucketRegion, sendGetBucketLocation.
  destruct (Js.truthy_opt (S3Config.region config)) eqn:Hregion.
  - destruct logger; run; do 3 eexists; repeat split; reflexivity.
  - destruct (getBucketLocation host (calls w) "us-east-1" (S3Config.bucket config))
      as [response|error] eqn:Hanswer.
    + destruct logger; run; rewrite Hanswer; run; split_run;
        do 3 eexists; repeat split; reflexivity.
    + destruct logger; run; rewrite Hanswer; run;
        (destruct (isPermanentRedirect error); run;
         [destruct (endpointMatch error) as [g|]; run;
          [destruct (String.eqb g "s3"); run|]|]);
        do 3 eexists; repeat split; reflexivity.
Qed.

Lemma fetch_silent (host : Host) (region : string) (config : S3Config.t) (w : World) :
  forall r w', fetchObject host region config None w = Some (r, w') -> log w' = log w.
Proof.
  intros r w'. unfold fetchObject, sendGetObject. run.
  destruct (getObject host (calls w) region (S3Config.bucket config) (S3Config.key config))
    as [response|error]; run.
  - destruct (Body response); run; [split_run|]; now intros [= _ <-].
  - destruct (isPermanentRedirect error); run; [|now intros [= _ <-]].
    destruct (endpointMatch error) as [g|]; run; [|now intros [= _ <-]].
    destruct (String.eqb g "s3"); run; [now intros [= _ <-]|].
    destruct (getObject host _ g _ _) as [response|error']; run; [|now intros [= _ <-]].
    destruct (Body response); run; now intros [= _ <-].
Qed.

(** X25.  The logger of [getS3Object] only observes: with and without a
    logger the call ends in the same way (the same object or the same
    error), sends the same requests and leaves the same files; without a
    logger nothing is written to the log. *)
Theorem retrieval_ignores_logger
    (host : Host) (config : S3Config.t) (logger : option Logger) (w : World) :
  exists outcome w1 w2,
    getS3Object host config logger w = Some (outcome, w1)
    /\ getS3Object host config None w = Some (outcome, w2)
    /\ files w1 = files w2
    /\ calls w1 = calls w2
    /\ log w2 = log w.
Proof.
  destruct (resolve_quiet host config logger w)
    as (region & v1 & v2 & Hloud & Hquiet & Hf1 & Hf2 & Hcalls & Hlog).
  rewrite (getS3Object_run _ _ _ _ _ _ Hloud), (getS3Object_run _ _ _ _ _ _ Hquiet).
  destruct (fetch_run host region config logger v1) as (w1 & Hrun1 & Hfiles1 & Hcalls1).
  destruct (fetch_run host region config None v2) as (w2 & Hrun2 & Hfiles2 & Hcalls2).
  rewrite Hcalls in Hrun1, Hcalls1.
  eexists _, w1, w2. split; [exact Hrun1|]. split; [exact Hrun2|].
  split; [congruence|]. split; [congruence|].
  rewrite <- Hlog. exact (fetch_silent _ _ _ _ _ _ Hrun2).
Qed.

(** ** The download from end to end *)

(** A returned object is the body of a successful answer of the store. *)
Lemma getS3Object_answer (host : Host) (config : S3Config.t) (logger : option Logger)
    (w w1 : World) (s3Result : S3DownloadResult.t) :
  getS3Object host config logger w = Some (Ok s3Result, w1) ->
  files w1 = files w
  /\ exists trace region response body,
       getObject host trace region (S3Config.bucket config) (S3Config.key config)
         = Ok response
       /\ Body response = Some body
       /\ s3Result = downloadResult body response.
Proof.
  destruct (resolve_total host config logger w) as (region & v1 & Hregion & Hfiles1).
  rewrite (getS3Object_run _ _ _ _ _ _ Hregion).
  destruct (fetch_run host region config logger v1) as (v2 & Hrun & Hfiles2 & _).
  rewrite Hrun. intros [= Hout <-]. split; [congruence|].
  destruct (getObject host (calls v1) region _ _) as [response|error] eqn:Hfirst.
  - unfold fetched in Hout. destruct (Body response) as [body|] eqn:Hbody; [|discriminate].
    injection Hout as <-. now exists (calls v1), region, response, body.
  - destruct (redirectRegion error) as [r|]; [|discriminate].
    destruct (getObject host (calls v1 ++ [fetchCall region config]) r _ _)
      as [response|error'] eqn:Hsecond; [|discriminate].
    unfold fetched in Hout. destruct (Body response) as [body|] eqn:Hbody; [|discriminate].
    injection Hout as <-. now exists (calls v1 ++ [fetchCall region config])%list, r, response, body.
Qed.

(** What a returned [downloadToFile] that does not overwrite has done. *)
Lemma downloadToFile_saved
    {node_path : PathApi} (host : Host) (fuel : nat) (config : DownloadConfig.t)
    (logger : option Logger) (w w' : World) (r : DownloadResult.t) :
  downloadToFile host fuel config logger w = Some (Ok r, w') ->
  DownloadConfig.overwrite config <> Some true ->
  DownloadResult.fileName r = DownloadConfig.fileName config
  /\ failure (DownloadConfig.stream config) = None
  /\ files w !! DownloadResult.filePath r = None
  /\ files w' !! DownloadResult.filePath r
     = Some (File (chunks (DownloadConfig.stream config)))
  /\ preserves w w'.
Proof.
  intros Hrun Hunset.
  destruct (downloadToFile_any host _ _ _ _ _ _ Hrun)
    as [([=] & _)|(folder & w0 & r1 & w1 & Hfolder & Hensure & Hrest)].
  destruct Hrest as [(e & _ & [=] & _)|(-> & p & w2 & r2 & w3 & Hpath & Hf2 & Hwrite & Hf3 & Hend)].
  destruct Hend as [(e & _ & [=])|(_ & Hfail & Hfiles3 & [= ->])].
  cbn [DownloadResult.filePath DownloadResult.fileName].
  destruct (chooseFolder_any host _ _ _ _ _ Hfolder) as (Hf0 & _).
  destruct (ensure_any host _ _ _ _ Hensure) as (Hgrow & _).
  destruct (choosePath_any _ _ _ _ _ _ Hpath) as (_ & p' & [= <-] & _ & Hfresh).
  destruct (Hfresh Hunset) as [Hfree _].
  assert (Hfree0 : files w !! p = None).
  { rewrite <- Hf0. destruct (files w0 !! p) as [e|] eqn:Hp; [|reflexivity].
    apply Hgrow in Hp. congruence. }
  split; [reflexivity|]. split; [exact Hfail|]. split; [exact Hfree0|].
  split; [rewrite Hf3, Hfiles3; apply lookup_insert_eq|].
  apply preserves_trans with w1;
    [apply preserves_trans with w0; [now apply preserves_same_files | exact Hgrow]|].
  apply preserves_fresh with (p := p) (e := File (chunks (DownloadConfig.stream config)));
    [exact Hfree | congruence].
Qed.

(** X26.  When [downloadWithProgress] returns, the file is named after the
    last part of the key, its path did not exist before the call, it now
    holds the body of a response the store gave to a fetch of this bucket and
    key, a body that ended without error, and every path that existed before
    still has its entry. *)
Theorem progress_download_saves_the_body
    {node_path : PathApi} (host : Host) (fuel : nat) (parsedUri : ParsedS3Uri.t)
    (logger : option Logger) (w w' : World) (r : DownloadResult.t) :
  downloadWithProgress host fuel parsedUri logger w = Some (Ok r, w') ->
  DownloadResult.fileName r = extractFilename (ParsedS3Uri.key parsedUri)
  /\ files w !! DownloadResult.filePath r = None
  /\ (exists trace region response body,
        getObject host trace region (ParsedS3Uri.bucket parsedUri)
          (ParsedS3Uri.key parsedUri) = Ok response
        /\ Body response = Some body
        /\ failure body = None
        /\ files w' !! DownloadResult.filePath r = Some (File (chunks body)))
  /\ preserves w w'.
Proof.
  intros Hrun. unfold downloadWithProgress in Hrun.
  apply bind_Ok_inv in Hrun as (s3Result & w1 & Hfetch & Hrun).
  apply bind_Ok_inv in Hrun as (saved & w2 & Hsave & Hlogs).
  assert (Hend : r = saved /\ files w' = files w2).
  { revert Hlogs. destruct logger; run; now intros [= <- <-]. }
  destruct Hend as [-> Hfiles'].
  apply getS3Object_answer in Hfetch
    as (Hfiles1 & trace & region & response & body & Hanswer & Hbody & ->).
  apply downloadToFile_saved in Hsave as (Hname & Hfail & Hfree & Hfile & Hkeep);
    [|discriminate].
  cbn in Hname, Hfail, Hfile, Hanswer.
  split; [exact Hname|]. split; [now rewrite <- Hfiles1|]. split.
  - exists trace, region, response, body. rewrite Hfiles'. auto.
  - intros p e Hp. rewrite Hfiles'. apply Hkeep. now rewrite Hfiles1.
Qed.

Lemma progress_download_saves_the_body_witness :
  exists r w',
    downloadWithProgress (node_path := Posix.api) Scenario.tempHost 4
      {| ParsedS3Uri.bucket := "logs"; ParsedS3Uri.key := "reports/q1.txt";
         ParsedS3Uri.region := None; ParsedS3Uri.isValid := true;
         ParsedS3Uri.errorMessage := None |} None Scenario.emptyWorld = Some (Ok r, w')
    /\ DownloadResult.fileName r = "q1.txt"
    /\ files Scenario.emptyWorld !! DownloadResult.filePath r = None
    /\ preserves Scenario.emptyWorld w'.
Proof.
  do 2 eexists. split; [vm_compute; reflexivity|].
  destruct (progress_download_saves_the_body (node_path := Posix.api) Scenario.tempHost 4
              {| ParsedS3Uri.bucket := "logs"; ParsedS3Uri.key := "reports/q1.txt";
                 ParsedS3Uri.region := None; ParsedS3Uri.isValid := true;
                 ParsedS3Uri.errorMessage := None |} None Scenario.emptyWorld _ _ eq_refl)
    as (Hname & Hfree & _ & Hkeep).
  split; [exact Hname|]. split; [exact Hfree | exact Hkeep].
Defined.

(** ** The input box and the commands *)

(** X27.  [validateInput] of the input box never throws; it accepts a value
    (returns no message) exactly when [parseAndValidateS3Uri] finds the value
    valid, and every message it returns is a non-empty text. *)
Theorem input_box_accepts_valid_uris
    (parseS3Url : string -> result S3Object.t) (value : string) :
  exists answer,
    validateInput parseS3Url value = Ok answer
    /\ (answer = None <->
        exists r, parseAndValidateS3Uri parseS3Url value = Ok r
                  /\ ParsedS3Uri.isValid r = true)
    /\ (forall m, answer = Some m -> m <> "").
Proof.
  unfold validateInput. destruct (Js.truthy value) eqn:Hvalue; cbn [negb].
  2: { apply negb_false_iff, String.eqb_eq in Hvalue. subst value.
       eexists. split; [reflexivity|]. split.
       - split; [discriminate|]. intros (r & Hr & Hvalid).
         rewrite parse_blank in Hr by reflexivity. injection Hr as <-. discriminate.
       - intros m [= <-]. discriminate. }
  destruct (parse_cases parseS3Url value)
    as [[_ H]|[(e & _ & _ & H)|[(o & _ & _ & _ & H)|[(o & _ & _ & _ & _ & H)|(o & _ & _ & _ & _ & H)]]]];
    rewrite H; cbn; eexists; (split; [reflexivity|]); split;
    try (split; [discriminate | intros (r & [= <-] & Hvalid); discriminate]);
    try (intros m [= <-]; discriminate).
  split; [eauto | reflexivity].
Qed.

(** However [downloadWithProgress] ends, what was on disk is still there. *)
Lemma downloadWithProgress_keeps
    {node_path : PathApi} (host : Host) (fuel : nat) (parsedUri : ParsedS3Uri.t)
    (logger : option Logger) (w w' : World) (outcome : result DownloadResult.t) :
  downloadWithProgress host fuel parsedUri logger w = Some (outcome, w') ->
  preserves w w'.
Proof.
  unfold downloadWithProgress. intros Hrun.
  destruct (getS3Object_files host
              {| S3Config.bucket := ParsedS3Uri.bucket parsedUri;
                 S3Config.key := ParsedS3Uri.key parsedUri;
                 S3Config.region := ParsedS3Uri.region parsedUri |} logger w)
    as (fetched & w1 & Hfetch & Hfiles1).
  apply bind_inv in Hrun as [(s3Result & v1 & Hfetch' & Hrun)|(e & Hfetch' & _)];
    rewrite Hfetch in Hfetch'; injection Hfetch' as -> <-;
    [|now apply preserves_same_files].
  apply preserves_trans with w1; [now apply preserves_same_files|].
  apply bind_inv in Hrun as [(saved & w2 & Hsave & Hlogs)|(e & Hsave & _)].
  - apply preserves_trans with w2.
    + apply (downloadToFile_keeps _ _ _ _ _ _ _ Hsave). discriminate.
    + apply preserves_same_files. revert Hlogs. destruct logger; run; now intros [= _ <-].
  - apply (downloadToFile_keeps _ _ _ _ _ _ _ Hsave). discriminate.
Qed.

(** ** The download ends *)

Lemma bind_total {A B} (m : M A) (f : A -> M B) (w : World) :
  (exists r w1, m w = Some (r, w1)) ->
  (forall a w1, m w = Some (Ok a, w1) -> exists r w', f a w1 = Some (r, w')) ->
  exists r w', (m ≫= f) w = Some (r, w').
Proof.
  intros (r & w1 & Hm) Hf. unfold mbind, M_bind. rewrite Hm.
  destruct r as [a|e]; [exact (Hf a w1 Hm) | eauto].
Qed.

Lemma logAt_total level logger msg w : exists r w', logAt level logger msg w = Some (r, w').
Proof. unfold logAt. destruct logger; eauto. Qed.

Section DownloadEnds.
Context {node_path : PathApi}.
Variable host : Host.

Lemma chooseFolder_total config logger w :
  exists r w', chooseFolder host config logger w = Some (r, w').
Proof.
  unfold chooseFolder. destruct (Js.truthy_opt (DownloadConfig.folder config)); [eauto|].
  apply bind_total.
  - destruct (configured_folder_total host logger w) as (folder & w1 & H & _). eauto.
  - intros configured w1 _. destruct (Js.truthy_opt configured); cbn [negb].
    + apply bind_total; [apply logAt_total | eauto].
    + apply bind_total.
      * unfold promptForDownloadLocation.
        destruct (showOpenDialog host _ _) as [[|? ?]|]; eauto.
      * intros selected w2 _. destruct (Js.truthy_opt selected); cbn [negb]; [|unfold throw; eauto].
        apply bind_total; [apply logAt_total | eauto].
Qed.

Lemma ensure_total folderPath w :
  exists r w', ensureDownloadFolderExists host folderPath w = Some (r, w').
Proof.
  unfold ensureDownloadFolderExists, existsSync, mkdirSync_recursive, when.
  unfold mbind, M_bind. destruct (bool_decide _); cbn [negb]; eauto.
Qed.

Lemma written_total config finalPath downloadFolder logger w :
  exists r w',
    (log_info logger ("Saving file to: " +:+ finalPath);;
     log_debug logger "Writing file to disk...";;
     pipeline host (DownloadConfig.stream config) finalPath;;
     stats_size ← statSync_size finalPath;
     log_info logger ("File saved successfully (" +:+ pretty stats_size +:+ " bytes)");;
     mret {| DownloadResult.fileName := DownloadConfig.fileName config;
             DownloadResult.filePath := finalPath;
             DownloadResult.size := Some stats_size;
             DownloadResult.folder := downloadFolder |}) w = Some (r, w').
Proof.
  apply bind_total; [apply logAt_total|]. intros _ w1 _.
  apply bind_total; [apply logAt_total|]. intros _ w2 _.
  apply bind_total.
  { unfold pipeline. destruct (openFault host finalPath); [eauto|].
    destruct (files w2 !! finalPath) as [[|content]|];
      destruct (failure (DownloadConfig.stream config)); eauto. }
  intros _ w3 _. apply bind_total.
  { unfold statSync_size. destruct (files w3 !! finalPath) as [[|content]|]; eauto. }
  intros size w4 _. apply bind_total; [apply logAt_total | eauto].
Qed.

(** [downloadToFile] ends once the loop of [getUniqueFilePath] may run long
    enough; the bound does not depend on the run. *)
Lemma downloadToFile_ends config logger w :
  (forall folder m k,
     candidate folder (DownloadConfig.fileName config) m
     = candidate folder (DownloadConfig.fileName config) k -> m = k) ->
  exists bound, forall fuel, bound <= fuel ->
    exists r w', downloadToFile host fuel config logger w = Some (r, w').
Proof.
  intros Hinj.
  destruct (chooseFolder_total config logger w) as ([folder|e] & w0 & Hfolder).
  2: { exists 0. intros fuel _. rewrite downloadToFile_phases.
       unfold mbind, M_bind. rewrite Hfolder. eauto. }
  destruct (ensure_total folder w0) as ([u|e] & w1 & Hensure).
  2: { exists 0. intros fuel _. rewrite downloadToFile_phases.
       unfold mbind, M_bind. rewrite Hfolder, Hensure. eauto. }
  exists (size (files w1) + 2). intros fuel Hfuel.
  rewrite downloadToFile_phases. unfold mbind at 1, M_bind at 1. rewrite Hfolder.
  unfold mbind at 1, M_bind at 1. rewrite Hensure.
  apply bind_total.
  - unfold choosePath. destruct (bool_decide _); [eauto|].
    destruct (getUniqueFilePath_terminates folder (DownloadConfig.fileName config)
                (Hinj folder) w1 fuel Hfuel) as (p & Hp & _). eauto.
  - intros finalPath w2 _. apply written_total.
Qed.

Lemma downloadWithProgress_ends parsedUri logger w :
  (forall folder m k,
     candidate folder (extractFilename (ParsedS3Uri.key parsedUri)) m
     = candidate folder (extractFilename (ParsedS3Uri.key parsedUri)) k -> m = k) ->
  exists bound, forall fuel, bound <= fuel ->
    exists r w', downloadWithProgress host fuel parsedUri logger w = Some (r, w').
Proof.
  intros Hinj. unfold downloadWithProgress.
  destruct (getS3Object_files host
              {| S3Config.bucket := ParsedS3Uri.bucket parsedUri;
                 S3Config.key := ParsedS3Uri.key parsedUri;
                 S3Config.region := ParsedS3Uri.region parsedUri |} logger w)
    as ([s3Result|e] & w1 & Hfetch & _).
  2: { exists 0. intros fuel _. unfold mbind, M_bind. rewrite Hfetch. eauto. }
  destruct (downloadToFile_ends
              {| DownloadConfig.stream := S3DownloadResult.stream s3Result;
                 DownloadConfig.fileName := extractFilename (ParsedS3Uri.key parsedUri);
                 DownloadConfig.folder := None;
                 DownloadConfig.overwrite := None |} logger w1 Hinj) as (bound & Hends).
  exists bound. intros fuel Hfuel. unfold mbind at 1, M_bind at 1. rewrite Hfetch.
  apply bind_total; [exact (Hends fuel Hfuel)|].
  intros saved w2 _.
  apply bind_total; [apply logAt_total|]. intros _ w3 _.
  apply bind_total; [apply logAt_total|]. intros _ w4 _.
  apply bind_total; [apply logAt_total|]. eauto.
Qed.

End DownloadEnds.

(** ** The commands *)

Ltac runC :=
  unfold mbind, Cmd_bind, mret, Cmd_ret, liftM, throwC, try_catchC, try_finally,
    showErrorMessage, showInformationMessage, console_error, Logger_error_text,
    Logger_error, promptForS3Uri, showInformationMessage_items,
    M_bind, M_ret, log_info, log_error, log_debug, logAt;
  cbn -[Js.truthy_opt Js.interp String.append parseAndValidateS3Uri downloadWithProgress
        errorToString clicked].

(** The [catch] block of a command: the error is logged, shown and printed;
    nothing is thrown. *)
Lemma report_failure_run (logger : Logger) (prefix label : string) (error : JsError)
    (s : World * Screen) :
  exists s',
    (errorMessage ← Logger_error logger error;
     showErrorMessage (prefix +:+ errorMessage);;
     console_error label error) s = Some (Ok tt, s')
    /\ files (fst s') = files (fst s)
    /\ calls (fst s') = calls (fst s)
    /\ shownDocuments (snd s') = shownDocuments (snd s)
    /\ errorMessages (snd s')
       = (errorMessages (snd s)
          ++ [prefix +:+ (if instanceofError error then Js.interp (message error)
                          else errorToString error)])%list.
Proof.
  destruct (instanceofError error) eqn:Hkind; runC; rewrite Hkind; runC;
    eexists; (split; [reflexivity|]); cbn; auto.
Qed.

(** A submitted text that parses to a valid locator is not the empty string. *)
Lemma valid_value_truthy (parseS3Url : string -> result S3Object.t) (value : string)
    (parsedUri : ParsedS3Uri.t) :
  parseAndValidateS3Uri parseS3Url value = Ok parsedUri ->
  ParsedS3Uri.isValid parsedUri = true ->
  Js.truthy value = true.
Proof.
  intros Hparse Hvalid. apply truthy_spec. intros ->.
  rewrite parse_blank in Hparse by reflexivity. injection Hparse as <-. discriminate.
Qed.

(** The five lines a command writes before it awaits the download. *)
Lemma readyToDownload_log (started : string) (stringify : ParsedS3Uri.t -> string)
    (value : string) (parsedUri : ParsedS3Uri.t) (w : World) :
  {| files := files w;
     log := (((((log w ++ [(INFO, started)])
                ++ [(INFO, "Prompting user for S3 URI input")])
               ++ [(INFO, "Input URI: " +:+ value)])
              ++ [(INFO, "Parsed URI successfully")])
             ++ [(INFO, stringify parsedUri)])%list;
     calls := calls w |}
  = readyToDownload started stringify value parsedUri w.
Proof. unfold readyToDownload. f_equal. now rewrite <- !app_assoc. Qed.

(** X28.  [downloadS3File] never rejects, and what is thrown inside it is
    caught, logged, shown and printed.  A run that ends returns normally,
    its last log line is [S3 download command ended], and every path that
    existed before still has its entry.  When the submitted text is a valid
    URI and the awaited [downloadWithProgress] ends: an error thrown by it,
    by [openExternal] after a click on [Open Folder], or by
    [clipboard.writeText] after a click on [Copy Path], adds the line
    [ERROR] with the error to the log, right before the last line, shows
    [Failed to download S3 file: ] followed by the message of an [Error] or
    the string form of any other value, and prints the error to the console
    under [S3 download error:]; when the editor refuses neither call, no
    error is shown or printed and only the last line is added to the log. *)
Theorem download_command_never_rejects {node_path : PathApi} (host : Host) (ui : Ui)
    (parseS3Url : string -> result S3Object.t) (stringify : ParsedS3Uri.t -> string)
    (fuel : nat) (logger : Logger) (s s' : World * Screen) (outcome : result unit) :
  downloadS3File host ui parseS3Url stringify fuel logger s = Some (outcome, s') ->
  outcome = Ok tt
  /\ preserves (fst s) (fst s')
  /\ List.last (log (fst s')) (INFO, "") = (INFO, "S3 download command ended")
  /\ forall value parsedUri r w1,
       showInputBox ui = Some value ->
       parseAndValidateS3Uri parseS3Url value = Ok parsedUri ->
       ParsedS3Uri.isValid parsedUri = true ->
       downloadWithProgress host fuel parsedUri (Some logger)
         (readyToDownload "S3 download command started" stringify value parsedUri (fst s))
       = Some (r, w1) ->
       (forall error,
          r = Throw error
          \/ (exists saved,
                r = Ok saved
                /\ ((clickedItem ui ("Successfully downloaded: " +:+ DownloadResult.fileName saved)
                       ["Open Folder"; "Copy Path"] = Some "Open Folder"
                     /\ openExternalFault ui (DownloadResult.folder saved) = Some error)
                    \/ (clickedItem ui ("Successfully downloaded: " +:+ DownloadResult.fileName saved)
                          ["Open Folder"; "Copy Path"] = Some "Copy Path"
                        /\ writeTextFault ui (DownloadResult.filePath saved) = Some error))) ->
          files (fst s') = files w1
          /\ calls (fst s') = calls w1
          /\ log (fst s')
             = (log w1 ++ [(ERROR, errorToString error);
                           (INFO, "S3 download command ended")])%list
          /\ errorMessages (snd s')
             = (errorMessages (snd s)
                ++ ["Failed to download S3 file: "
                    +:+ (if instanceofError error then Js.interp (message error)
                         else errorToString error)])%list
          /\ consoleErrors (snd s')
             = (consoleErrors (snd s) ++ [("S3 download error:", error)])%list)
       /\ (forall saved,
             r = Ok saved ->
             openExternalFault ui (DownloadResult.folder saved) = None ->
             writeTextFault ui (DownloadResult.filePath saved) = None ->
             files (fst s') = files w1
             /\ calls (fst s') = calls w1
             /\ log (fst s') = (log w1 ++ [(INFO, "S3 download command ended")])%list
             /\ errorMessages (snd s') = errorMessages (snd s)
             /\ consoleErrors (snd s') = consoleErrors (snd s)).
Proof.
  intros Hrun.
  assert (Hgeneric : outcome = Ok tt
                     /\ preserves (fst s) (fst s')
                     /\ List.last (log (fst s')) (INFO, "")
                        = (INFO, "S3 download command ended")).
  { revert Hrun. unfold downloadS3File.
    match goal with
    | |- try_finally (try_catchC ?b ?h) _ _ = _ -> _ => set (body := b); set (handler := h)
    end.
    unfold try_finally.
    destruct (try_catchC body handler s) as [[r s1]|] eqn:Hcatch; [|discriminate].
    runC. intros [= <- <-]. cbn [fst snd files log].
    assert (Hbody : forall r0 s0, body s = Some (r0, s0) -> preserves (fst s) (fst s0)).
    { intros r0 s0. unfold body. runC.
      destruct (Js.truthy_opt (showInputBox ui)); cbn [negb];
        [|intros [= _ <-]; now apply preserves_same_files].
      destruct (parseAndValidateS3Uri parseS3Url (Js.interp (showInputBox ui)))
        as [parsedUri|e]; [|intros [= _ <-]; now apply preserves_same_files].
      destruct (ParsedS3Uri.isValid parsedUri); runC;
        [|intros [= _ <-]; now apply preserves_same_files].
      destruct (downloadWithProgress host fuel parsedUri (Some logger) _)
        as [[[saved|e] w']|] eqn:Hdl; [| |discriminate];
        apply downloadWithProgress_keeps in Hdl; [|intros [= _ <-]; exact Hdl].
      unfold openExternal, clipboard_writeText.
      destruct (clicked _ "Open Folder");
        [destruct (openExternalFault ui _)
        |destruct (clicked _ "Copy Path"); [destruct (writeTextFault ui _)|]];
        cbn; intros [= _ <-]; exact Hdl. }
    unfold try_catchC in Hcatch.
    destruct (body s) as [[[u|e] s0]|] eqn:Hrun; [| |discriminate].
    - destruct u. injection Hcatch as <- <-.
      split; [reflexivity|]. split; [exact (Hbody _ _ eq_refl) | apply last_last].
    - destruct (report_failure_run logger "Failed to download S3 file: "
                  "S3 download error:" e s0) as (s2 & Hreport & Hfiles & _).
      unfold handler in Hcatch. rewrite Hreport in Hcatch. injection Hcatch as <- <-.
      split; [reflexivity|]. split; [|apply last_last].
      intros p entry Hp. rewrite Hfiles. exact (Hbody _ _ eq_refl p entry Hp). }
  destruct Hgeneric as (-> & Hkeep & Hlast).
  split; [reflexivity|]. split; [exact Hkeep|]. split; [exact Hlast|].
  clear Hkeep Hlast.
  intros value parsedUri r w1 Hbox Hparse Hvalid Hdl.
  pose proof (valid_value_truthy _ _ _ Hparse Hvalid) as Hvalue.
  revert Hrun. unfold downloadS3File, try_finally, try_catchC. runC.
  rewrite Hbox. cbn [Js.truthy_opt Js.interp negb]. rewrite Hvalue, Hparse, Hvalid. runC.
  rewrite readyToDownload_log, Hdl. intros Hrun.
  split.
  - intros error [->|(saved & -> & [[Hclick Hfault]|[Hclick Hfault]])]; revert Hrun.
    + destruct (instanceofError error) eqn:Hkind; intros [= <-]; cbn;
        rewrite <- ?app_assoc; auto.
    + rewrite Hclick. unfold openExternal. cbn. rewrite Hfault.
      destruct (instanceofError error) eqn:Hkind; intros [= <-]; cbn;
        rewrite <- ?app_assoc; auto.
    + rewrite Hclick. unfold clipboard_writeText. cbn. rewrite Hfault.
      destruct (instanceofError error) eqn:Hkind; intros [= <-]; cbn;
        rewrite <- ?app_assoc; auto.
  - intros saved -> Hfolder Hcopy. revert Hrun.
    unfold openExternal, clipboard_writeText. rewrite Hfolder, Hcopy.
    destruct (clicked _ "Open Folder"); [|destruct (clicked _ "Copy Path")];
      intros [= <-]; cbn; auto.
Qed.

(** X29.  When the input box is dismissed, left empty, or holds a text
    that [parseAndValidateS3Uri] finds invalid, [downloadS3File] returns
    without sending a request or touching the file system, the clipboard or
    any folder; it shows one error message, [Invalid S3 URI: ...] with the
    parser's message, when a text was submitted, and none otherwise. *)
Theorem rejected_input_downloads_nothing
    {node_path : PathApi} (host : Host) (ui : Ui)
    (parseS3Url : string -> result S3Object.t) (stringify : ParsedS3Uri.t -> string)
    (fuel : nat) (logger : Logger) (s : World * Screen) :
  (forall value r, showInputBox ui = Some value ->
     parseAndValidateS3Uri parseS3Url value = Ok r -> ParsedS3Uri.isValid r = false) ->
  exists s' shown,
    downloadS3File host ui parseS3Url stringify fuel logger s = Some (Ok tt, s')
    /\ files (fst s') = files (fst s)
    /\ calls (fst s') = calls (fst s)
    /\ errorMessages (snd s') = (errorMessages (snd s) ++ shown)%list
    /\ informationMessages (snd s') = informationMessages (snd s)
    /\ openedExternally (snd s') = openedExternally (snd s)
    /\ clipboard (snd s') = clipboard (snd s)
    /\ (Js.truthy_opt (showInputBox ui) = false -> shown = [])
    /\ (Js.truthy_opt (showInputBox ui) = true ->
        exists r, parseAndValidateS3Uri parseS3Url (Js.interp (showInputBox ui)) = Ok r
                  /\ shown = ["Invalid S3 URI: " +:+ Js.interp (ParsedS3Uri.errorMessage r)]).
Proof.
  intros Hrejected. unfold downloadS3File. runC.
  destruct (Js.truthy_opt (showInputBox ui)) eqn:Hinput; cbn [negb].
  - destruct (showInputBox ui) as [value|] eqn:Hbox; [|discriminate]. cbn [Js.interp].
    destruct (parseAndValidateS3Uri parseS3Url value) as [r|e] eqn:Hparse.
    + rewrite (Hrejected value r eq_refl Hparse). runC.
      eexists _, [_]. split; [reflexivity|]. cbn. repeat split; try discriminate.
      intros _. now exists r.
    + destruct (parse_cases parseS3Url value)
        as [[_ H]|[(? & _ & _ & H)|[(? & _ & _ & _ & H)|[(? & _ & _ & _ & _ & H)|(? & _ & _ & _ & _ & H)]]]];
        rewrite H in Hparse; discriminate.
  - eexists _, []. split; [reflexivity|]. cbn. rewrite app_nil_r.
    repeat split; try discriminate.
Qed.

(** What a returned [downloadWithProgress] has written. *)
Lemma downloadWithProgress_saved
    {node_path : PathApi} (host : Host) (fuel : nat) (parsedUri : ParsedS3Uri.t)
    (logger : option Logger) (w w' : World) (r : DownloadResult.t) :
  downloadWithProgress host fuel parsedUri logger w = Some (Ok r, w') ->
  DownloadResult.fileName r = extractFilename (ParsedS3Uri.key parsedUri)
  /\ files w !! DownloadResult.filePath r = None
  /\ exists content, files w' !! DownloadResult.filePath r = Some (File content).
Proof.
  intros Hrun. unfold downloadWithProgress in Hrun.
  apply bind_Ok_inv in Hrun as (s3Result & w1 & Hfetch & Hrun).
  apply bind_Ok_inv in Hrun as (saved & w2 & Hsave & Hlogs).
  assert (Hend : r = saved /\ files w' = files w2).
  { revert Hlogs. destruct logger; run; now intros [= <- <-]. }
  destruct Hend as [-> Hfiles'].
  apply getS3Object_answer in Hfetch as (Hfiles1 & _).
  apply downloadToFile_saved in Hsave as (Hname & _ & Hfree & Hfile & _); [|discriminate].
  split; [exact Hname|]. split; [now rewrite <- Hfiles1|].
  rewrite Hfiles'. eauto.
Qed.

(** X30.  [openS3File] returns.  With a valid URI, an editor that opens
    every document and a path API under which distinct counters give
    distinct candidate names, there is a number of iterations of the loop of
    [getUniqueFilePath] from which on the awaited [downloadWithProgress]
    ends and the command returns normally.  If the download returned, the
    editor shows one new document, the file saved, which did not exist
    before and now does, and no error is shown or printed: the existence
    check of [openFileInVSCode] never fails on a finished download.  If the
    download threw, nothing is shown in the editor, the line [ERROR] with the
    error comes right before the last log line, the message
    [Failed to open S3 file: ] followed by the message of an [Error], or by
    the string form of any other value, is shown, and the error is printed
    under [S3 open file error:]. *)
Theorem open_command_shows_the_download
    {node_path : PathApi} (host : Host) (ui : Ui)
    (parseS3Url : string -> result S3Object.t) (stringify : ParsedS3Uri.t -> string)
    (logger : Logger) (s : World * Screen)
    (value : string) (parsedUri : ParsedS3Uri.t) :
  showInputBox ui = Some value ->
  parseAndValidateS3Uri parseS3Url value = Ok parsedUri ->
  ParsedS3Uri.isValid parsedUri = true ->
  (forall p, openTextDocumentFault ui p = None) ->
  (forall p, showTextDocumentFault ui p = None) ->
  (forall folder m k,
     candidate folder (extractFilename (ParsedS3Uri.key parsedUri)) m
     = candidate folder (extractFilename (ParsedS3Uri.key parsedUri)) k -> m = k) ->
  exists bound, forall fuel, bound <= fuel ->
    exists r w1 s',
      downloadWithProgress host fuel parsedUri (Some logger)
        (readyToDownload "S3 open file command started" stringify value parsedUri (fst s))
      = Some (r, w1)
      /\ openS3File host ui parseS3Url stringify fuel logger s = Some (Ok tt, s')
      /\ files (fst s') = files w1
      /\ calls (fst s') = calls w1
      /\ match r with
         | Ok saved =>
             shownDocuments (snd s')
             = (shownDocuments (snd s) ++ [DownloadResult.filePath saved])%list
             /\ files (fst s) !! DownloadResult.filePath saved = None
             /\ (exists content,
                   files (fst s') !! DownloadResult.filePath saved = Some (File content))
             /\ errorMessages (snd s') = errorMessages (snd s)
             /\ consoleErrors (snd s') = consoleErrors (snd s)
         | Throw error =>
             shownDocuments (snd s') = shownDocuments (snd s)
             /\ errorMessages (snd s')
                = (errorMessages (snd s)
                   ++ ["Failed to open S3 file: "
                       +:+ (if instanceofError error then Js.interp (message error)
                            else errorToString error)])%list
             /\ consoleErrors (snd s')
                = (consoleErrors (snd s) ++ [("S3 open file error:", error)])%list
             /\ log (fst s')
                = (log w1 ++ [(ERROR, errorToString error);
                              (INFO, "S3 open file command ended")])%list
         end.
Proof.
  intros Hbox Hparse Hvalid Hopen Hshow Hinj.
  pose proof (valid_value_truthy _ _ _ Hparse Hvalid) as Hvalue.
  destruct (downloadWithProgress_ends host parsedUri (Some logger)
              (readyToDownload "S3 open file command started" stringify value parsedUri
                 (fst s)) Hinj) as (bound & Hends).
  exists bound. intros fuel Hfuel. destruct (Hends fuel Hfuel) as (r & w1 & Hdl).
  exists r, w1. unfold openS3File, try_finally, try_catchC. runC.
  rewrite Hbox. cbn [Js.truthy_opt Js.interp negb]. rewrite Hvalue, Hparse, Hvalid. runC.
  rewrite readyToDownload_log, Hdl.
  destruct r as [saved|error].
  - apply downloadWithProgress_saved in Hdl as (_ & Hfree & content & Hfile).
    unfold openWithProgress, openFileInVSCode, openTextDocument, showTextDocument,
      existsSync. runC.
    assert (Hfound : is_Some (files w1 !! DownloadResult.filePath saved))
      by (rewrite Hfile; eauto).
    rewrite (bool_decide_eq_true_2 _ Hfound). cbn [negb].
    rewrite Hopen. runC. rewrite Hshow. runC.
    eexists. split; [reflexivity|]. split; [reflexivity|]. cbn.
    split; [reflexivity|]. split; [reflexivity|]. split; [reflexivity|].
    split; [exact Hfree|]. split; [eauto|]. split; reflexivity.
  - clear Hdl. destruct (instanceofError error) eqn:Hkind; runC;
      (eexists; split; [reflexivity|]; split; [reflexivity|]); cbn;
      rewrite <- ?app_assoc; rewrite ?Hkind; auto 10.
Qed.

(** ** The commands on concrete users *)

Lemma download_command_never_rejects_witness :
  exists s',
    downloadS3File (node_path := Posix.api) Scenario.loopingStore
      (Users.user (Some "s3://logs/reports/q1.txt") None)
      GlobalPath.parseS3Url Users.stringify 4 Scenario.outputLogger
      (Scenario.emptyWorld, Users.blankScreen) = Some (Ok tt, s')
    /\ preserves Scenario.emptyWorld (fst s')
    /\ List.last (log (fst s')) (INFO, "") = (INFO, "S3 download command ended")
    /\ errorMessages (snd s')
       = ["Failed to download S3 file: The bucket you are attempting to access must be "
          +:+ "addressed using the specified endpoint: logs.s3.eu-central-1.amazonaws.com"]
    /\ consoleErrors (snd s') = [("S3 download error:", Scenario.redirectError)].
Proof.
  destruct (downloadS3File (node_path := Posix.api) Scenario.loopingStore
              (Users.user (Some "s3://logs/reports/q1.txt") None)
              GlobalPath.parseS3Url Users.stringify 4 Scenario.outputLogger
              (Scenario.emptyWorld, Users.blankScreen))
    as [[outcome s']|] eqn:Hrun; [|vm_compute in Hrun; discriminate].
  destruct (download_command_never_rejects (node_path := Posix.api) Scenario.loopingStore
              (Users.user (Some "s3://logs/reports/q1.txt") None)
              GlobalPath.parseS3Url Users.stringify 4 Scenario.outputLogger
              (Scenario.emptyWorld, Users.blankScreen) s' outcome Hrun)
    as (-> & Hkeep & Hlast & Hcaught).
  exists s'. split; [reflexivity|]. split; [exact Hkeep|]. split; [exact Hlast|].
  destruct (downloadWithProgress (node_path := Posix.api) Scenario.loopingStore 4
              {| ParsedS3Uri.bucket := "logs"; ParsedS3Uri.key := "reports/q1.txt";
                 ParsedS3Uri.region := None; ParsedS3Uri.isValid := true;
                 ParsedS3Uri.errorMessage := None |}
              (Some Scenario.outputLogger)
              (readyToDownload "S3 download command started" Users.stringify
                 "s3://logs/reports/q1.txt"
                 {| ParsedS3Uri.bucket := "logs"; ParsedS3Uri.key := "reports/q1.txt";
                    ParsedS3Uri.region := None; ParsedS3Uri.isValid := true;
                    ParsedS3Uri.errorMessage := None |} Scenario.emptyWorld))
    as [[r w1]|] eqn:Hdl; [|vm_compute in Hdl; discriminate].
  destruct (Hcaught _ _ r w1 eq_refl eq_refl eq_refl Hdl) as [Hthrown _].
  vm_compute in Hdl. injection Hdl as <- <-.
  destruct (Hthrown Scenario.redirectError (or_introl eq_refl))
    as (_ & _ & _ & Hshown & Hprinted).
  split; [exact Hshown | exact Hprinted].
Defined.

Lemma rejected_input_downloads_nothing_witness :
  exists s',
    downloadS3File (node_path := Posix.api) Scenario.frankfurtStore
      (Users.user (Some "s3://logs/reports/") None)
      GlobalPath.parseS3Url Users.stringify 4 Scenario.outputLogger
      (Scenario.emptyWorld, Users.blankScreen) = Some (Ok tt, s')
    /\ calls (fst s') = []
    /\ errorMessages (snd s')
       = ["Invalid S3 URI: S3 URI must point to a file, not a directory (URI ends with /)"].
Proof.
  destruct (rejected_input_downloads_nothing (node_path := Posix.api) Scenario.frankfurtStore
              (Users.user (Some "s3://logs/reports/") None)
              GlobalPath.parseS3Url Users.stringify 4 Scenario.outputLogger
              (Scenario.emptyWorld, Users.blankScreen))
    as (s' & shown & Hrun & _ & Hcalls & Hshown & _ & _ & _ & _ & Hmessage).
  { intros value r [= <-]. vm_compute. now intros [= <-]. }
  exists s'. split; [exact Hrun|]. split; [exact Hcalls|].
  destruct (Hmessage eq_refl) as (r & Hr & ->).
  vm_compute in Hr. injection Hr as <-. exact Hshown.
Defined.

Lemma open_command_shows_the_download_witness :
  exists bound, forall fuel, bound <= fuel ->
    exists s',
      openS3File (node_path := Posix.api) Scenario.tempHost
        (Users.user (Some "s3://logs/reports/q1.txt") None)
        GlobalPath.parseS3Url Users.stringify fuel Scenario.outputLogger
        (Scenario.emptyWorld, Users.blankScreen) = Some (Ok tt, s')
      /\ shownDocuments (snd s') = ["/tmp/s3Downloader/q1.txt"]
      /\ files (fst s') !! "/tmp/s3Downloader/q1.txt" = Some (File "q1 figures")
      /\ errorMessages (snd s') = [].
Proof.
  destruct (open_command_shows_the_download (node_path := Posix.api) Scenario.tempHost
              (Users.user (Some "s3://logs/reports/q1.txt") None)
              GlobalPath.parseS3Url Users.stringify Scenario.outputLogger
              (Scenario.emptyWorld, Users.blankScreen)
              "s3://logs/reports/q1.txt"
              {| ParsedS3Uri.bucket := "logs"; ParsedS3Uri.key := "reports/q1.txt";
                 ParsedS3Uri.region := None; ParsedS3Uri.isValid := true;
                 ParsedS3Uri.errorMessage := None |}
              eq_refl eq_refl eq_refl (fun _ => eq_refl) (fun _ => eq_refl))
    as (bound & Hreturns).
  { intros folder. apply (posix_candidate_inj_plain folder "q1.txt" "q" "1");
      [reflexivity | discriminate | reflexivity | reflexivity]. }
  exists bound. intros fuel Hfuel.
  destruct (Hreturns fuel Hfuel) as (r & w1 & s' & Hdl & Hrun & Hfiles & _ & Hshown).
  exists s'. split; [exact Hrun|].
  vm_compute in Hdl. injection Hdl as <- <-.
  destruct Hshown as (Hdocs & _ & _ & Hmessages & _).
  split; [exact Hdocs|]. split; [rewrite Hfiles; reflexivity | exact Hmessages].
Defined.

(** A rejection with a value that is not an [Error] is shown by its string
    form. *)
Example open_command_reports_thrown_text :
  exists s',
    openS3File (node_path := Posix.api) Cases.textThrowingStore
      (Users.user (Some "s3://logs/reports/q1.txt") None)
      GlobalPath.parseS3Url Users.stringify 4 Scenario.outputLogger
      (Scenario.emptyWorld, Users.blankScreen) = Some (Ok tt, s')
    /\ errorMessages (snd s') = ["Failed to open S3 file: socket hang up"]
    /\ consoleErrors (snd s') = [("S3 open file error:", Cases.thrownText)]
    /\ shownDocuments (snd s') = []
    /\ files (fst s') = ∅.
Proof. eexists. split; [vm_compute; reflexivity|]. repeat split. Qed.

